(** * PyBATS forecast core: a shallow embedding of [PyBATS/forecast.py]

    The forecasting functions of [forecast.py] are embedded over exact real
    arithmetic.  Arrays are lists ([vec] for 1-D arrays and p×1 columns,
    [mat] for 2-D arrays in row-major order); arrays that the Python code
    creates, copies or assigns into live in a store of array objects, so that
    aliasing between a model's attributes and the locals of a forecast call
    is visible.  Random draws thread an abstract generator state, Python
    exceptions are results of the monad. *)

From Stdlib Require Import Reals Lra Lia List ZArith Bool.
From stdpp Require Import base list.
Import ListNotations.

Local Open Scope R_scope.

(** ** Exceptions and results *)

Inductive exn : Type :=
| LinAlgError      (* numpy.linalg: singular matrix *)
| IndexError       (* index out of bounds, boolean mask of the wrong length *)
| ValueError       (* reshape to a different size, negative dimension, ... *)
| TypeError        (* an array of the wrong rank, subscripting None *)
| AttributeError   (* a method called on None *)
| NameError        (* a name read before it was bound *)
| ZeroDivisionError. (* a Python number divided by zero *)

Inductive res (A : Type) : Type :=
| Ok (x : A)
| Raise (e : exn).
Arguments Ok {A} x.
Arguments Raise {A} e.

(** [x / y] on Python numbers *)
Definition py_div (x y : R) : res R :=
  if Req_dec_T y 0 then Raise ZeroDivisionError else Ok (x / y).

Definition is_ok {A} (r : res A) : Prop :=
  match r with Ok _ => True | Raise _ => False end.

(** ** numpy arrays over the reals *)

Abbreviation vec := (list R) (only parsing).
Abbreviation mat := (list (list R)) (only parsing).

Definition vget (v : vec) (i : nat) : R := nth i v 0.
Definition mget (A : mat) (i j : nat) : R := nth j (nth i A []) 0.

Definition nrows (A : mat) : nat := length A.
Definition ncols (A : mat) : nat := length (hd [] A).

Definition mk_vec (n : nat) (f : nat -> R) : vec := map f (seq 0 n).
Definition mk_mat (r c : nat) (f : nat -> nat -> R) : mat :=
  map (fun i => map (f i) (seq 0 c)) (seq 0 r).

(** [sum_upto n f] is f 0 + ... + f (n-1). *)
Definition sum_upto (n : nat) (f : nat -> R) : R :=
  fold_right Rplus 0 (map f (seq 0 n)).

(** [A.T].  An array is held as the list of its rows, so an array without
    rows is [[]] whatever its number of columns, and its transpose is [[]]. *)
Definition transpose (A : mat) : mat :=
  mk_mat (ncols A) (nrows A) (fun i j => mget A j i).

(** [A.T] for an array that numpy knows to have [c] columns: [c] rows, also
    when [A] has no row. *)
Definition transpose_as (c : nat) (A : mat) : mat :=
  mk_mat c (nrows A) (fun i j => mget A j i).

(** [A @ B] for two 2-D arrays *)
Definition matmul (A B : mat) : mat :=
  mk_mat (nrows A) (ncols B)
         (fun i j => sum_upto (ncols A) (fun l => mget A i l * mget B l j)).

(** [A @ v] for a 2-D array and a p×1 column *)
Definition matvec (A : mat) (v : vec) : vec :=
  mk_vec (nrows A) (fun i => sum_upto (ncols A) (fun l => mget A i l * vget v l)).

(** [u @ v.T] for two columns: a p×p array *)
Definition outer (u v : vec) : mat :=
  mk_mat (length u) (length v) (fun i j => vget u i * vget v j).

(** [u.T @ v] for two columns: the single entry of the 1×1 result *)
Definition dot (u v : vec) : R :=
  sum_upto (length u) (fun l => vget u l * vget v l).

(** elementwise operations *)
Definition vmap (f : R -> R) (v : vec) : vec := map f v.
Definition mmap (f : R -> R) (A : mat) : mat := map (map f) A.
Definition vadd (u v : vec) : vec := zip_with Rplus u v.
Definition vsub (u v : vec) : vec := zip_with Rminus u v.
Definition madd (A B : mat) : mat := zip_with (zip_with Rplus) A B.
Definition msub (A B : mat) : mat := zip_with (zip_with Rminus) A B.
Definition mscale (c : R) (A : mat) : mat := mmap (Rmult c) A.

(** [np.diag(A)] of a 2-D array *)
Definition diag (A : mat) : vec :=
  mk_vec (Nat.min (nrows A) (ncols A)) (fun i => mget A i i).

(** [np.eye(n)] *)
Definition identity (n : nat) : mat :=
  mk_mat n n (fun i j => if Nat.eqb i j then 1 else 0).

(** The shape of an array, as a property of the list that holds it. *)
Definition is_mat (r c : nat) (A : mat) : Prop :=
  length A = r /\ Forall (fun row => length row = c) A.


(** *** numpy.linalg *)

Definition drop_nth {A} (j : nat) (l : list A) : list A :=
  take j l ++ drop (S j) l.

(** Determinant by expansion along the first row. *)
Fixpoint det_rec (n : nat) (A : mat) : R :=
  match n with
  | O => 1
  | S n' =>
      match A with
      | [] => 1
      | row :: rest =>
          sum_upto (length row)
            (fun j => (-1) ^ j * vget row j * det_rec n' (map (drop_nth j) rest))
      end
  end.

Definition det (A : mat) : R := det_rec (nrows A) A.

Definition cofactor (A : mat) (i j : nat) : R :=
  (-1) ^ (i + j) * det (map (drop_nth j) (drop_nth i A)).

(** [np.linalg.inv]: a singular matrix raises LinAlgError; otherwise the
    inverse, here as the adjugate over the determinant (numpy factorizes
    instead, to the same matrix over exact arithmetic). *)
Definition np_inv (A : mat) : res mat :=
  if Req_dec_T (det A) 0 then Raise LinAlgError
  else Ok (mk_mat (nrows A) (nrows A) (fun i j => cofactor A j i / det A)).

(** Powers with a natural exponent: [eye] at 0, the array itself at 1,
    products from the left beyond (numpy squares repeatedly above 3, to the
    same matrix over exact arithmetic). *)
Fixpoint mpow (A : mat) (n : nat) : mat :=
  match n with
  | O => identity (nrows A)
  | S O => A
  | S n' => matmul (mpow A n') A
  end.

(** [np.linalg.matrix_power(A, n)]: a negative exponent inverts first. *)
Definition matrix_power (A : mat) (n : Z) : res mat :=
  if (n <? 0)%Z then
    match np_inv A with
    | Ok Ai => Ok (mpow Ai (Z.abs_nat n))
    | Raise e => Raise e
    end
  else Ok (mpow A (Z.abs_nat n)).

(** ** Floating-point special values

    The density estimators use NaN as the missing-value marker of [y] and
    rely on [log 0 = -inf] and [exp (-inf) = 0]; these are kept, rounding is
    not modelled. *)

Inductive npfloat : Type :=
| Fin (x : R)
| PInf
| NInf
| NaN.

Definition np_isnan (x : npfloat) : bool :=
  match x with NaN => true | _ => false end.

Definition np_log (x : R) : npfloat :=
  if Rlt_dec 0 x then Fin (ln x)
  else if Req_dec_T x 0 then NInf
  else NaN.

Definition npf_log (x : npfloat) : npfloat :=
  match x with
  | Fin r => np_log r
  | PInf => PInf
  | NInf => NaN
  | NaN => NaN
  end.

Definition npf_exp (x : npfloat) : npfloat :=
  match x with
  | Fin r => Fin (exp r)
  | PInf => PInf
  | NInf => Fin 0
  | NaN => NaN
  end.

Definition npf_add (x y : npfloat) : npfloat :=
  match x, y with
  | NaN, _ | _, NaN => NaN
  | Fin a, Fin b => Fin (a + b)
  | PInf, NInf | NInf, PInf => NaN
  | PInf, _ | _, PInf => PInf
  | NInf, _ | _, NInf => NInf
  end.

(** [np.sum] of a sequence of floats *)
Definition npf_sum (l : list npfloat) : npfloat :=
  fold_left npf_add l (Fin 0).

(** division of a float by a count; 0/0 is NaN *)
Definition npf_div_nat (x : npfloat) (n : nat) : npfloat :=
  match n with
  | O =>
      match x with
      | Fin r =>
          if Req_dec_T r 0 then NaN
          else if Rlt_dec 0 r then PInf else NInf
      | _ => x
      end
  | S _ =>
      match x with
      | Fin r => Fin (r / INR n)
      | _ => x
      end
  end.

(** [np.mean]: NaN on an empty sequence *)
Definition npf_mean (l : list npfloat) : npfloat :=
  npf_div_nat (npf_sum l) (length l).

(** ** The store of array objects and the monad of forecast calls *)

Inductive ndarray : Type :=
| NdVec (v : vec)     (* shape (p,) or (p,1) *)
| NdMat (m : mat).    (* shape (r,c) *)

Abbreviation loc := nat (only parsing).

Set Implicit Arguments.
Set Contextual Implicit.

Section Forecast.

(** The family-specific parameters of a conjugate prior and the state of the
    random generator are left abstract. *)
Variable param : Type.
Variable rng : Type.

Record state : Type := mkState {
  heap : list ndarray;
  gen : rng
}.

Definition M (A : Type) : Type := state -> res A * state.

Definition ret {A} (x : A) : M A := fun s => (Ok x, s).
Definition raise {A} (e : exn) : M A := fun s => (Raise e, s).
Definition bind {A B} (c : M A) (k : A -> M B) : M B :=
  fun s =>
    match c s with
    | (Ok x, s') => k x s'
    | (Raise e, s') => (Raise e, s')
    end.

Notation "'let*' x ':=' c 'in' k" := (bind c (fun x => k))
  (at level 10, x pattern, c at level 100, k at level 200).

Definition lift {A} (r : res A) : M A :=
  match r with Ok x => ret x | Raise e => raise e end.

(** A new array object. *)
Definition alloc (v : ndarray) : M loc :=
  fun s => (Ok (length (heap s)), mkState (heap s ++ [v]) (gen s)).

(** Reading and overwriting an array object.  A reference that names no
    object cannot be built in Python; such a read is reported as NameError. *)
Definition load (l : loc) : M ndarray :=
  fun s =>
    match heap s !! l with
    | Some v => (Ok v, s)
    | None => (Raise NameError, s)
    end.

Definition store (l : loc) (v : ndarray) : M unit :=
  fun s =>
    match heap s !! l with
    | Some _ => (Ok tt, mkState (<[l := v]> (heap s)) (gen s))
    | None => (Raise NameError, s)
    end.

Definition load_vec (l : loc) : M vec :=
  let* v := load l in
  match v with NdVec x => ret x | NdMat _ => raise TypeError end.

Definition load_mat (l : loc) : M mat :=
  let* v := load l in
  match v with NdMat x => ret x | NdVec _ => raise TypeError end.

(** A draw from the generator. *)
Definition draw {A} (f : rng -> A * rng) : M A :=
  fun s => let '(x, g) := f (gen s) in (Ok x, mkState (heap s) g).

Definition draw_res {A} (f : rng -> res A * rng) : M A :=
  fun s => let '(x, g) := f (gen s) in (x, mkState (heap s) g).

(** [np.copy] *)
Definition np_copy (l : loc) : M loc :=
  let* v := load l in alloc v.

(** [for x in xs: acc = body x acc] *)
Fixpoint for_each {A S} (xs : list A) (body : A -> S -> M S) (acc : S) : M S :=
  match xs with
  | [] => ret acc
  | x :: xs' => let* acc' := body x acc in for_each xs' body acc'
  end.

(** [list(map(f, xs))] for an effectful [f] *)
Fixpoint map_M {A B} (f : A -> M B) (xs : list A) : M (list B) :=
  match xs with
  | [] => ret []
  | x :: xs' =>
      let* y := f x in
      let* ys := map_M f xs' in
      ret (y :: ys)
  end.

(** [range(k)] *)
Definition range (k : Z) : list nat := seq 0 (Z.to_nat k).

(** ** The model object

    The attributes of [mod] that the forecast functions read: references to
    the arrays [a], [R], [G], [W], [F], the regression index set, the
    conjugate parameters, the discount flag, and the family's methods. *)

Record Model : Type := mkModel {
  mod_a : loc;
  mod_R : loc;
  mod_G : loc;
  mod_W : loc;
  mod_F : loc;
  nregn : nat;
  iregn : list nat;
  param1 : param;
  param2 : param;
  discount_forecast : bool;
  get_mean_and_var : vec -> vec -> mat -> R * R;
  get_conjugate_params : R -> R -> param -> param -> param * param;
  get_mean : param -> param -> R;
  simulate : param -> param -> nat -> rng -> vec * rng;
  simulate_from_prior : param -> param -> nat -> rng -> vec * rng;
  simulate_from_sampling_model : vec -> nat -> rng -> vec * rng;
  update_conjugate_params : R -> param -> param -> param * param * R * R;
  prior_inverse_cdf : vec -> param -> param -> vec;
  sampling_density : npfloat -> vec -> vec;
  (* the binomial family's [get_mean(n, param1, param2)] and
     [simulate(n, param1, param2, nsamps)] *)
  bin_get_mean : R -> param -> param -> R;
  bin_simulate : R -> param -> param -> nat -> rng -> vec * rng;
  (* the normal DLM's [n], [s[0]], [delVar] and
     [simulate_from_sampling_model(ft, v, nsamps)] *)
  mod_n : R;
  mod_s : R;
  delVar : R;
  dlm_simulate_from_sampling_model : vec -> vec -> nat -> rng -> vec * rng
}.

(** numpy.random, scipy.stats and scipy.special as used by the module. *)
Record Library : Type := mkLibrary {
  (* np.random.multivariate_normal(mean, cov, size): size rows *)
  random_multivariate_normal : vec -> mat -> nat -> rng -> res mat * rng;
  (* np.random.gamma(shape, scale, size) *)
  random_gamma : R -> R -> nat -> rng -> vec * rng;
  (* np.random.beta(a, b, size) *)
  random_beta : R -> R -> nat -> rng -> vec * rng;
  (* stats.norm(loc, scale).cdf(x) *)
  norm_cdf : R -> R -> R -> R;
  (* stats.t(loc, scale, df).cdf(x) *)
  t_cdf : R -> R -> R -> R -> R;
  (* scipy.special.gamma *)
  special_gamma : R -> R
}.

Variable lib : Library.

(** ** forecast_aR (lines 6-12) *)

Definition forecast_aR (mdl : Model) (k : Z) : M (loc * loc) :=
  let* Gv := load_mat (mod_G mdl) in
  let* Gk := lift (matrix_power Gv (k - 1)) in
  let* av := load_vec (mod_a mdl) in
  let* la := alloc (NdVec (matvec Gk av)) in
  let* Rv := load_mat (mod_R mdl) in
  let* lR := alloc (NdMat (matmul (matmul Gk Rv) (transpose Gk))) in
  let* _ :=
    (if discount_forecast mdl then
       let* Wv := load_mat (mod_W mdl) in
       let* Rk := load_mat lR in
       store lR (NdMat (madd Rk (mscale (IZR (k - 1)) Wv)))
     else ret tt) in
  ret (la, lR).


(** ** Plugging the regressors into F

    [X.reshape(nregn, 1)], [X[i,:]] and the in-place assignment
    [F[iregn] = ...] of lines 19-21, 64-65, 119-120, 147-149, 392-394 and
    409-411. *)

Definition reshape (x : vec) (n : nat) : res vec :=
  if Nat.eqb (length x) n then Ok x else Raise ValueError.

Definition getrow (X : option mat) (i : nat) : res vec :=
  match X with
  | None => Raise TypeError
  | Some A => match A !! i with Some r => Ok r | None => Raise IndexError end
  end.

Fixpoint set_rows (Fv : vec) (idx : list nat) (col : vec) : vec :=
  match idx, col with
  | i :: idx', x :: col' => set_rows (<[i := x]> Fv) idx' col'
  | _, _ => Fv
  end.

(** [F[idx] = col]: an index past the end raises; a column of one entry is
    broadcast over the indexed rows, any other length must match. *)
Definition setitem_rows (lF : loc) (idx : list nat) (col : vec) : M unit :=
  let* Fv := load_vec lF in
  if forallb (fun i => Nat.ltb i (length Fv)) idx then
    let col' := match col with [x] => replicate (length idx) x | _ => col end in
    if Nat.eqb (length idx) (length col')
    then store lF (NdVec (set_rows Fv idx col'))
    else raise ValueError
  else raise IndexError.

(** [if mod.nregn > 0: F[mod.iregn] = X.reshape(mod.nregn,1)] *)
Definition plug_in_X (mdl : Model) (lF : loc) (X : option vec) : M unit :=
  if Nat.ltb 0 (nregn mdl) then
    let* x := lift (match X with None => Raise AttributeError | Some x => Ok x end) in
    let* col := lift (reshape x (nregn mdl)) in
    setitem_rows lF (iregn mdl) col
  else ret tt.

(** [if mod.nregn > 0: F[mod.iregn] = X[i,:].reshape(mod.nregn,1)] *)
Definition plug_in_row (mdl : Model) (lF : loc) (X : option mat) (i : nat) : M unit :=
  if Nat.ltb 0 (nregn mdl) then
    let* x := lift (getrow X i) in
    let* col := lift (reshape x (nregn mdl)) in
    setitem_rows lF (iregn mdl) col
  else ret tt.

(** ** forecast_marginal (lines 14-39) *)

Inductive marginal_result : Type :=
| StateMeanVar (ft qt : R)
| MeanOnly (m : R)
| Samples (v : vec).

Definition forecast_marginal (mdl : Model) (k : Z) (X : option vec)
    (nsamps : nat) (mean_only state_mean_var : bool) : M marginal_result :=
  let* lF := np_copy (mod_F mdl) in
  let* _ := plug_in_X mdl lF X in
  let* (la, lR) := forecast_aR mdl k in
  let* Fv := load_vec lF in
  let* av := load_vec la in
  let* Rv := load_mat lR in
  let '(ft, qt) := get_mean_and_var mdl Fv av Rv in
  if state_mean_var then ret (StateMeanVar ft qt)
  else
    let '(p1, p2) := get_conjugate_params mdl ft qt (param1 mdl) (param2 mdl) in
    if mean_only then ret (MeanOnly (get_mean mdl p1 p2))
    else
      let* v := draw (simulate mdl p1 p2 nsamps) in
      ret (Samples v).

(** ** forecast_state_mean_and_var (lines 387-402) *)

Definition forecast_state_mean_and_var (mdl : Model) (k : Z) (X : option vec)
  : M (R * R) :=
  let* lF := np_copy (mod_F mdl) in
  let* _ := plug_in_X mdl lF X in
  let* (la, lR) := forecast_aR mdl k in
  let* Fv := load_vec lF in
  let* av := load_vec la in
  let* Rv := load_mat lR in
  ret (get_mean_and_var mdl Fv av Rv).


(** ** Item access on array objects *)

(** [np.zeros([n])] and [np.zeros([r, c])]; a negative dimension raises. *)
Definition np_zeros1 (n : Z) : res vec :=
  if (n <? 0)%Z then Raise ValueError else Ok (replicate (Z.to_nat n) 0).

Definition np_zeros2 (r c : Z) : res mat :=
  if ((r <? 0) || (c <? 0))%Z then Raise ValueError
  else Ok (replicate (Z.to_nat r) (replicate (Z.to_nat c) 0)).

(** [v[i] = x] *)
Definition setitem1 (l : loc) (i : nat) (x : R) : M unit :=
  let* v := load_vec l in
  if Nat.ltb i (length v) then store l (NdVec (<[i := x]> v))
  else raise IndexError.

(** [A[i, j] = x] *)
Definition setitem2 (l : loc) (i j : nat) (x : R) : M unit :=
  let* A := load_mat l in
  match A !! i with
  | Some row =>
      if Nat.ltb j (length row) then store l (NdMat (<[i := <[j := x]> row]> A))
      else raise IndexError
  | None => raise IndexError
  end.

(** [A[i, j]] *)
Definition getitem2 (l : loc) (i j : nat) : M R :=
  let* A := load_mat l in
  match A !! i with
  | Some row =>
      match row !! j with Some x => ret x | None => raise IndexError end
  | None => raise IndexError
  end.

(** The scalar held by an array of one element, as taken by an assignment
    of that array to one entry. *)
Definition item (v : vec) : res R :=
  match v with [x] => Ok x | _ => Raise ValueError end.

(** ** forecast_path (lines 42-92) *)

(** Lines 63-81 of the inner loop: the regressors, the moments, the draw,
    the conjugate update and the linear Bayes correction [m], [C] of the
    state. *)
Definition forecast_path_update (mdl : Model) (X : option mat) (lF lsamps : loc)
    (n i : nat) (w : param * param * loc * loc) : M (param * param * vec * mat) :=
  let '(p1, p2, la, lR) := w in
  let* _ := plug_in_row mdl lF X i in
  let* Fv := load_vec lF in
  let* av := load_vec la in
  let* Rv := load_mat lR in
  let '(ft, qt) := get_mean_and_var mdl Fv av Rv in
  let '(p1, p2) := get_conjugate_params mdl ft qt p1 p2 in
  let* d := draw (simulate mdl p1 p2 1) in
  let* y := lift (item d) in
  let* _ := setitem2 lsamps n i y in
  let* yv := getitem2 lsamps n i in
  let '(p1, p2, ft_star, qt_star) := update_conjugate_params mdl yv p1 p2 in
  let m := vadd av (vmap (fun x => x * (ft_star - ft) / qt) (matvec Rv Fv)) in
  let C := msub Rv (mmap (fun x => x * (1 - qt_star / qt) / qt)
                         (matmul (outer (matvec Rv Fv) Fv) Rv)) in
  ret (p1, p2, m, C).

(** Lines 84-90: the priors [a], [R] of the next step, [R] made symmetric
    and, under the discount flag, increased by [W]. *)
Definition forecast_path_propagate (mdl : Model) (m : vec) (C : mat)
  : M (loc * loc) :=
  let* Gv := load_mat (mod_G mdl) in
  let* la' := alloc (NdVec (matvec Gv m)) in
  let* lR1 := alloc (NdMat (matmul (matmul Gv C) (transpose Gv))) in
  let* R1 := load_mat lR1 in
  let* lR2 := alloc (NdMat (mmap (fun x => x / 2) (madd R1 (transpose R1)))) in
  let* lR3 :=
    (if discount_forecast mdl then
       let* R2 := load_mat lR2 in
       let* Wv := load_mat (mod_W mdl) in
       alloc (NdMat (madd R2 Wv))
     else ret lR2) in
  ret (la', lR3).

(** One pass of the inner loop, lines 63-90: the locals [param1], [param2],
    [a], [R] are carried from step to step. *)
Definition forecast_path_step (mdl : Model) (X : option mat) (lF lsamps : loc)
    (n i : nat) (w : param * param * loc * loc) : M (param * param * loc * loc) :=
  let* u := forecast_path_update mdl X lF lsamps n i w in
  let* r := forecast_path_propagate mdl (snd (fst u)) (snd u) in
  ret (fst (fst (fst u)), snd (fst (fst u)), fst r, snd r).

(** Lines 55-59: the locals [param1], [param2], [a], [R] of one sample. *)
Definition working_copy (mdl : Model) : M (param * param * loc * loc) :=
  let p1 := param1 mdl in
  let p2 := param2 mdl in
  let* la := np_copy (mod_a mdl) in
  let* lR := np_copy (mod_R mdl) in
  ret (p1, p2, la, lR).

(** The body of the outer loop, lines 55-90, for sample [n]. *)
Definition forecast_path_sample (mdl : Model) (k : Z) (X : option mat)
    (lF lsamps : loc) (n : nat) : M unit :=
  let* w := working_copy mdl in
  let* _ := for_each (range k) (forecast_path_step mdl X lF lsamps n) w in
  ret tt.

Definition forecast_path (mdl : Model) (k : Z) (X : option mat) (nsamps : nat)
  : M mat :=
  let* z := lift (np_zeros2 (Z.of_nat nsamps) k) in
  let* lsamps := alloc (NdMat z) in
  let* lF := np_copy (mod_F mdl) in
  let* _ := for_each (seq 0 nsamps)
              (fun n (_ : unit) => forecast_path_sample mdl k X lF lsamps n) tt in
  load_mat lsamps.

(** ** The copula stages shared by the approximate samplers and densities *)

(** [u.T @ A] for a column and a 2-D array *)
Definition vecmat (u : vec) (A : mat) : vec :=
  mk_vec (ncols A) (fun j => sum_upto (length u) (fun l => vget u l * mget A l j)).

(** multivariate_t (lines 356-366).  [nu] is a Python number: [2./nu] raises
    ZeroDivisionError at 0, before the gamma draw is made. *)
Definition multivariate_t (mean : vec) (scale : mat) (nu : R) (nsamps : nat)
  : M mat :=
  let p := length mean in
  let* theta := lift (py_div 2 nu) in
  let* g := draw (random_gamma lib (nu / 2) theta nsamps) in
  let* Z := draw_res (random_multivariate_normal lib (replicate p 0) scale nsamps) in
  ret (zip_with (fun zrow gs => vadd mean (vmap (fun z => z / sqrt gs) zrow)) Z g).

(** The joint draw and the marginal distributions of lines 203-213 (the same
    block stands at 242-250, 282-292 and 322-330): [joint_samps] with one row
    per time index, and [genlist] as the list of its marginal cdfs.  Under
    [t_dist] the scale is computed first, and [(nu - 2) / nu] raises
    ZeroDivisionError at [nu = 0]; the array of draws has [len(lambda_mu)]
    columns, so its transpose has that many rows. *)
Definition joint_draw (lambda_mu : vec) (lambda_cov : mat) (nsamps : nat)
    (t_dist : bool) (nu : R) : M (mat * list (R -> R)) :=
  if t_dist then
    let* c := lift (py_div (nu - 2) nu) in
    let scale := mmap (fun x => x * c) lambda_cov in
    let* js := multivariate_t lambda_mu scale nu nsamps in
    ret (transpose_as (length lambda_mu) js,
         zip_with (fun f q => t_cdf lib nu f (sqrt q)) lambda_mu (diag scale))
  else
    let* js := draw_res (random_multivariate_normal lib lambda_mu lambda_cov nsamps) in
    ret (transpose_as (length lambda_mu) js,
         zip_with (fun f q => norm_cdf lib f (sqrt q)) lambda_mu (diag lambda_cov)).

(** [unif_rvs], lines 220-221 *)
Definition unif_rvs_of (genlist : list (R -> R)) (joint_samps : mat) : mat :=
  zip_with (fun gen samps => vmap gen samps) genlist joint_samps.

(** ** forecast_path_approx_sim (lines 197-229) *)

Definition conj_params_of (mdl : Model) (lambda_mu : vec) (lambda_cov : mat)
  : list (param * param) :=
  zip_with (fun f q => get_conjugate_params mdl f q (param1 mdl) (param2 mdl))
           lambda_mu (diag lambda_cov).

Definition priorlist_of (mdl : Model) (conj_params : list (param * param))
    (unif_rvs : mat) : mat :=
  zip_with (fun params unif_rv => prior_inverse_cdf mdl unif_rv (fst params) (snd params))
           conj_params unif_rvs.

Definition forecast_path_approx_sim (mdl : Model) (k : Z) (lambda_mu : vec)
    (lambda_cov : mat) (nsamps : nat) (t_dist : bool) (nu : R) : M mat :=
  let* (joint_samps, genlist) := joint_draw lambda_mu lambda_cov nsamps t_dist nu in
  let conj_params := conj_params_of mdl lambda_mu lambda_cov in
  let unif_rvs := unif_rvs_of genlist joint_samps in
  let priorlist := priorlist_of mdl conj_params unif_rvs in
  let* cols := map_M (fun prior => draw (simulate_from_sampling_model mdl prior nsamps))
                     priorlist in
  ret (transpose cols).

(** ** forecast_path_approx_dens_MC (lines 231-273) *)

(** [v[mask]] for a boolean mask: the mask must be as long as the array. *)
Fixpoint compress {A} (mask : list bool) (l : list A) : list A :=
  match mask, l with
  | b :: mask', x :: l' => if b then x :: compress mask' l' else compress mask' l'
  | _, _ => []
  end.

Definition bool_index {A} (l : list A) (mask : list bool) : res (list A) :=
  if Nat.eqb (length mask) (length l) then Ok (compress mask l)
  else Raise IndexError.

(** [np.nonzero(mask)] and indexing by a list of positions *)
Fixpoint nonzero_from (i : nat) (mask : list bool) : list nat :=
  match mask with
  | [] => []
  | b :: mask' => if b then i :: nonzero_from (S i) mask' else nonzero_from (S i) mask'
  end.

Fixpoint take_idx {A} (l : list A) (idx : list nat) : res (list A) :=
  match idx with
  | [] => Ok []
  | i :: idx' =>
      match l !! i, take_idx l idx' with
      | Some x, Ok xs => Ok (x :: xs)
      | None, _ => Raise IndexError
      | _, Raise e => Raise e
      end
  end.

Fixpoint map_res {A B} (f : A -> res B) (l : list A) : res (list B) :=
  match l with
  | [] => Ok []
  | x :: l' =>
      match f x with
      | Ok y => match map_res f l' with Ok ys => Ok (y :: ys) | Raise e => Raise e end
      | Raise e => Raise e
      end
  end.

(** [A[np.ix_(mask, mask)]] *)
Definition ix_index (A : mat) (mask : list bool) : res mat :=
  let idx := nonzero_from 0 mask in
  match take_idx A idx with
  | Ok rows => map_res (fun row => take_idx row idx) rows
  | Raise e => Raise e
  end.

(** [zip] of the unpacked list [ls]: the tuples of the entries at one position, up to the
    shortest list; nothing for no list. *)
Fixpoint zip_star {A} (ls : list (list A)) : list (list A) :=
  match ls with
  | [] => []
  | [l] => map (fun x => [x]) l
  | l :: ls' => zip_with cons l (zip_star ls')
  end.

(** Lines 264-273: the Monte Carlo average of the path densities, on the log
    scale. *)
Definition path_density (dens : vec) : npfloat :=
  npf_exp (npf_sum (map np_log dens)).

Definition log_mean_density (density_list : mat) : npfloat :=
  npf_log (npf_mean (map path_density (zip_star density_list))).

Definition forecast_path_approx_dens_MC (mdl : Model) (y : list npfloat)
    (lambda_mu : vec) (lambda_cov : mat) (t_dist : bool) (nu : R) (nsamps : nat)
  : M npfloat :=
  let not_missing := map (fun x => negb (np_isnan x)) y in
  let y := compress not_missing y in
  let* lambda_mu := lift (bool_index lambda_mu not_missing) in
  let* lambda_cov := lift (ix_index lambda_cov not_missing) in
  let* (joint_samps, genlist) := joint_draw lambda_mu lambda_cov nsamps t_dist nu in
  let conj_params := conj_params_of mdl lambda_mu lambda_cov in
  let unif_rvs := unif_rvs_of genlist joint_samps in
  let priorlist := priorlist_of mdl conj_params unif_rvs in
  let density_list := zip_with (fun y prior => sampling_density mdl y prior) y priorlist in
  ret (log_mean_density density_list).


(** ** forecast_path_approx (lines 95-139) *)

Inductive approx_result : Type :=
| LogDensity (d : npfloat)
| SamplePaths (samps : mat).

(** The Python lists [Flist] and [Rlist] hold references to array objects,
    [None] until assigned. *)
Definition getref (l : list (option loc)) (j : nat) : res loc :=
  match l !! j with
  | Some (Some r) => Ok r
  | Some None => Raise TypeError
  | None => Raise IndexError
  end.

(** One pass of the inner loop, lines 130-134. *)
Definition forecast_path_approx_cov (mdl : Model) (lcov : loc)
    (Flist Rlist : list (option loc)) (i j : nat) (_ : unit) : M unit :=
  let* Gv := load_mat (mod_G mdl) in
  let* Gp := lift (matrix_power Gv (Z.of_nat i - Z.of_nat j)) in
  let* rj := lift (getref Rlist j) in
  let* Rj := load_mat rj in
  let cov_ij := matmul Gp Rj in
  let* fj := lift (getref Flist j) in
  let* Fj := load_vec fj in
  let* fi := lift (getref Flist i) in
  let* Fi := load_vec fi in
  let c := dot (vecmat Fj cov_ij) Fi in
  let* _ := setitem2 lcov j i c in
  setitem2 lcov i j c.

(** One pass of the outer loop, lines 111-134; the lists [Flist] and [Rlist]
    are carried. *)
Definition forecast_path_approx_step (mdl : Model) (X : option mat)
    (lF lmu lcov : loc) (i : nat) (w : list (option loc) * list (option loc))
  : M (list (option loc) * list (option loc)) :=
  let '(Flist, Rlist) := w in
  let* (la, lR) := forecast_aR mdl (Z.of_nat i + 1) in
  let Rlist := <[i := Some lR]> Rlist in
  let* _ := plug_in_row mdl lF X i in
  let* lFi := np_copy lF in
  let Flist := <[i := Some lFi]> Flist in
  let* Fv := load_vec lF in
  let* av := load_vec la in
  let* Rv := load_mat lR in
  let '(ft, qt) := get_mean_and_var mdl Fv av Rv in
  let* _ := setitem1 lmu i ft in
  let* _ := setitem2 lcov i i qt in
  let* _ := for_each (seq 0 i) (forecast_path_approx_cov mdl lcov Flist Rlist i) tt in
  ret (Flist, Rlist).

(** Lines 103-134: the joint mean and covariance of the linear predictor. *)
Definition forecast_path_approx_moments (mdl : Model) (k : Z) (X : option mat)
  : M (vec * mat) :=
  let* zmu := lift (np_zeros1 k) in
  let* lmu := alloc (NdVec zmu) in
  let* zcov := lift (np_zeros2 k k) in
  let* lcov := alloc (NdMat zcov) in
  let* lF := np_copy (mod_F mdl) in
  let Flist := replicate (Z.to_nat k) None in
  let Rlist := replicate (Z.to_nat k) None in
  let* _ := for_each (range k) (forecast_path_approx_step mdl X lF lmu lcov)
                     (Flist, Rlist) in
  let* lambda_mu := load_vec lmu in
  let* lambda_cov := load_mat lcov in
  ret (lambda_mu, lambda_cov).

Definition forecast_path_approx (mdl : Model) (k : Z) (X : option mat)
    (nsamps : nat) (t_dist : bool) (y : option (list npfloat)) (nu : R)
  : M approx_result :=
  let* (lambda_mu, lambda_cov) := forecast_path_approx_moments mdl k X in
  match y with
  | Some y =>
      let* d := forecast_path_approx_dens_MC mdl y lambda_mu lambda_cov t_dist nu nsamps in
      ret (LogDensity d)
  | None =>
      let* samps := forecast_path_approx_sim mdl k lambda_mu lambda_cov nsamps t_dist nu in
      ret (SamplePaths samps)
  end.

(** ** forecast_joint_approx_sim (lines 276-309) and
       forecast_joint_approx_dens_MC (lines 311-354) *)

(** Lines 295-297 and 333-335: one pass of [for i, mod in enumerate(mod_list)]. *)
Definition joint_conj_param (lambda_mu : vec) (lambda_cov : mat)
    (im : nat * Model) : res (param * param) :=
  let '(i, mdl) := im in
  match lambda_mu !! i with
  | None => Raise IndexError
  | Some f =>
      match lambda_cov !! i with
      | None => Raise IndexError
      | Some row =>
          match row !! i with
          | None => Raise IndexError
          | Some q => Ok (get_conjugate_params mdl f q (param1 mdl) (param2 mdl))
          end
      end
  end.

Definition enumerate {A} (l : list A) : list (nat * A) :=
  combine (seq 0 (length l)) l.

Definition joint_conj_params (mod_list : list Model) (lambda_mu : vec)
    (lambda_cov : mat) : res (list (param * param)) :=
  map_res (joint_conj_param lambda_mu lambda_cov) (enumerate mod_list).

(** The name [mod] after the loop [for i, mod in enumerate(mod_list)]: bound
    to the last model of the list, unbound when the list is empty. *)
Definition mod_after_loop (mod_list : list Model) : option Model :=
  last mod_list.

(** Lines 304-305 and 342-343: the lambda reads the name [mod] when it is
    called. *)
Fixpoint joint_priorlist (md : option Model) (conj_params : list (param * param))
    (unif_rvs : mat) : res mat :=
  match conj_params, unif_rvs with
  | params :: cp', unif_rv :: u' =>
      match md with
      | None => Raise NameError
      | Some mdl =>
          match joint_priorlist md cp' u' with
          | Ok ps => Ok (prior_inverse_cdf mdl unif_rv (fst params) (snd params) :: ps)
          | Raise e => Raise e
          end
      end
  | _, _ => Ok []
  end.

(** [mod.f(...)] for the name [mod] of the enclosing function *)
Definition with_mod {A} (md : option Model) (f : Model -> M A) : M A :=
  match md with
  | None => raise NameError
  | Some mdl => f mdl
  end.

Definition forecast_joint_approx_sim (mod_list : list Model) (lambda_mu : vec)
    (lambda_cov : mat) (nsamps : nat) (t_dist : bool) (nu : R) : M mat :=
  let* (joint_samps, genlist) := joint_draw lambda_mu lambda_cov nsamps t_dist nu in
  let* conj_params := lift (joint_conj_params mod_list lambda_mu lambda_cov) in
  let md := mod_after_loop mod_list in
  let unif_rvs := unif_rvs_of genlist joint_samps in
  let* priorlist := lift (joint_priorlist md conj_params unif_rvs) in
  let* cols := map_M (fun prior =>
                        with_mod md (fun mdl =>
                          draw (simulate_from_sampling_model mdl prior nsamps)))
                     priorlist in
  ret (transpose cols).

Fixpoint joint_density_list (md : option Model) (y : list npfloat)
    (priorlist : mat) : res mat :=
  match y, priorlist with
  | yi :: y', prior :: ps' =>
      match md with
      | None => Raise NameError
      | Some mdl =>
          match joint_density_list md y' ps' with
          | Ok ds => Ok (sampling_density mdl yi prior :: ds)
          | Raise e => Raise e
          end
      end
  | _, _ => Ok []
  end.

Definition forecast_joint_approx_dens_MC (mod_list : list Model)
    (y : list npfloat) (lambda_mu : vec) (lambda_cov : mat) (t_dist : bool)
    (nu : R) (nsamps : nat) : M npfloat :=
  let not_missing := map (fun x => negb (np_isnan x)) y in
  let y := compress not_missing y in
  let* lambda_mu := lift (bool_index lambda_mu not_missing) in
  let* lambda_cov := lift (ix_index lambda_cov not_missing) in
  let* (joint_samps, genlist) := joint_draw lambda_mu lambda_cov nsamps t_dist nu in
  let* conj_params := lift (joint_conj_params mod_list lambda_mu lambda_cov) in
  let md := mod_after_loop mod_list in
  let unif_rvs := unif_rvs_of genlist joint_samps in
  let* priorlist := lift (joint_priorlist md conj_params unif_rvs) in
  let* density_list := lift (joint_density_list md y priorlist) in
  ret (log_mean_density density_list).

(** ** multivariate_t_density (lines 368-385)

    The result is the 2-D array that numpy returns: 1×1 in the branch
    [dim > 1]; in the other branch the column [y - mean] is broadcast against
    [scale]. *)

Definition mvt_constant (dim : nat) (nu s : R) : R :=
  special_gamma lib ((nu + INR dim) / 2)
  / (special_gamma lib (nu / 2) * sqrt ((PI * nu) ^ dim * s)).

(** Lines 379-380 *)
Definition mvt_density_matrix (y mean : vec) (scale : mat) (nu : R) : res mat :=
  let dim := length y in
  let constant := mvt_constant dim nu (det scale) in
  match np_inv scale with
  | Raise e => Raise e
  | Ok Si =>
      let d := vsub y mean in
      let dens := Rpower (1 + dot (vecmat d Si) d / nu) (- (nu + INR dim) / 2) in
      Ok [[1 * constant * dens]]
  end.

(** Lines 382-383 *)
Definition mvt_density_scalar (y mean : vec) (scale : mat) (nu : R) : res mat :=
  let dim := length y in
  match vsub y mean with
  | [] => if Nat.leb (nrows scale) 1 then Ok [] else Raise ValueError
  | d :: _ =>
      Ok (mmap (fun s =>
                  1 * mvt_constant dim nu s
                  * Rpower (1 + d ^ 2 / (nu * s)) (- (nu + INR dim) / 2))
               scale)
  end.

Definition multivariate_t_density (y mean : vec) (scale : mat) (nu : R) : res mat :=
  if Nat.ltb 1 (length y) then mvt_density_matrix y mean scale nu
  else mvt_density_scalar y mean scale nu.

(** ** forecast_marginal_dens_MC (lines 404-429) *)

Definition forecast_marginal_dens_MC (mdl : Model) (k : Z) (X : option vec)
    (nsamps : nat) (y : npfloat) : M npfloat :=
  let* lF := np_copy (mod_F mdl) in
  let* _ := plug_in_X mdl lF X in
  let* (la, lR) := forecast_aR mdl k in
  let* Fv := load_vec lF in
  let* av := load_vec la in
  let* Rv := load_mat lR in
  let '(ft, qt) := get_mean_and_var mdl Fv av Rv in
  let '(p1, p2) := get_conjugate_params mdl ft qt (param1 mdl) (param2 mdl) in
  let* prior_samps := draw (simulate_from_prior mdl p1 p2 nsamps) in
  let densities := sampling_density mdl y prior_samps in
  ret (npf_log (npf_mean (map Fin densities))).


(** ** forecast_marginal_bindglm (lines 142-164) *)

Definition forecast_marginal_bindglm (mdl : Model) (n : R) (k : Z)
    (X : option vec) (nsamps : nat) (mean_only : bool) : M marginal_result :=
  let* lF := np_copy (mod_F mdl) in
  let* _ := plug_in_X mdl lF X in
  let* (la, lR) := forecast_aR mdl k in
  let* Fv := load_vec lF in
  let* av := load_vec la in
  let* Rv := load_mat lR in
  let '(ft, qt) := get_mean_and_var mdl Fv av Rv in
  let '(p1, p2) := get_conjugate_params mdl ft qt (param1 mdl) (param2 mdl) in
  if mean_only then ret (MeanOnly (bin_get_mean mdl n p1 p2))
  else
    let* v := draw (bin_simulate mdl n p1 p2 nsamps) in
    ret (Samples v).

(** ** forecast_path_normaldlm (lines 166-194) *)

(** [A[:, j] = col] *)
Definition setcol (l : loc) (j : nat) (col : vec) : M unit :=
  let* A := load_mat l in
  if forallb (fun row : vec => Nat.ltb j (length row)) A then
    let col' := match col with [x] => replicate (length A) x | _ => col end in
    if Nat.eqb (length A) (length col')
    then store l (NdMat (zip_with (fun row x => <[j := x]> row) A col'))
    else raise ValueError
  else raise IndexError.

(** [np.random.multivariate_normal(mean, cov, size=1).T]: one column *)
Definition column_draw (mean : vec) (cov : mat) : M vec :=
  let* D := draw_res (random_multivariate_normal lib mean cov 1) in
  lift (match D with [row] => Ok row | _ => Raise ValueError end).

(** One pass of the loop, lines 177-192; [v] and [thetas] are carried. *)
Definition forecast_path_normaldlm_step (mdl : Model) (X : option mat)
    (lF lsamps : loc) (nsamps : nat) (i : nat) (w : vec * list vec)
  : M (vec * list vec) :=
  let '(v, thetas) := w in
  let* _ := plug_in_row mdl lF X i in
  let* Fv := load_vec lF in
  let ft := map (fun theta => dot Fv theta) thetas in
  let* col := draw (dlm_simulate_from_sampling_model mdl ft v nsamps) in
  let* _ := setcol lsamps i col in
  let* b := draw (random_beta lib (delVar mdl * mod_n mdl / 2)
                              ((1 - delVar mdl) * mod_n mdl / 2) nsamps) in
  let v := zip_with Rmult v b in
  let* Wv := load_mat (mod_W mdl) in
  let* thetas :=
    map_M (fun tv : vec * R =>
             let* e := column_draw (replicate (length (fst tv)) 0)
                                   (mmap (fun x => snd tv / mod_s mdl * x) Wv) in
             ret (vadd (fst tv) e))
          (combine thetas v) in
  ret (v, thetas).

Definition forecast_path_normaldlm (mdl : Model) (k : Z) (X : option mat)
    (nsamps : nat) : M mat :=
  let* z := lift (np_zeros2 (Z.of_nat nsamps) k) in
  let* lsamps := alloc (NdMat z) in
  let* lF := np_copy (mod_F mdl) in
  let* g := draw (random_gamma lib (mod_n mdl / 2) (2 / (mod_n mdl * mod_s mdl)) nsamps) in
  let v := vmap (fun x => 1 / x) g in
  let* av := load_vec (mod_a mdl) in
  let* Rv := load_mat (mod_R mdl) in
  let* thetas :=
    map_M (fun var => column_draw av (mmap (fun x => var / mod_s mdl * x) Rv)) v in
  let* _ := for_each (range k)
              (forecast_path_normaldlm_step mdl X lF lsamps nsamps) (v, thetas) in
  load_mat lsamps.

End Forecast.

(** ** The caller's snapshot

    The arrays named by the references of a model object, and the shapes of
    a state of dimension [p]. *)

Record snapshot : Type := mkSnapshot {
  snap_a : vec;
  snap_R : mat;
  snap_G : mat;
  snap_W : mat;
  snap_F : vec
}.

Definition snapshot_at {param rng} (mdl : Model param rng) (h : list ndarray)
    (sn : snapshot) : Prop :=
  h !! mod_a mdl = Some (NdVec (snap_a sn)) /\
  h !! mod_R mdl = Some (NdMat (snap_R sn)) /\
  h !! mod_G mdl = Some (NdMat (snap_G sn)) /\
  h !! mod_W mdl = Some (NdMat (snap_W sn)) /\
  h !! mod_F mdl = Some (NdVec (snap_F sn)).

Definition snapshot_shape (p : nat) (sn : snapshot) : Prop :=
  length (snap_a sn) = p /\ is_mat p p (snap_R sn) /\ is_mat p p (snap_G sn) /\
  is_mat p p (snap_W sn) /\ length (snap_F sn) = p.

(** The prior moments at horizon [k >= 1] as section 4.1 of the
    specification words them: [a_k = G^(k-1) a],
    [R_k = G^(k-1) R (G^(k-1))^T], plus [(k-1) W] under the discount flag. *)
Definition spec_a_k (sn : snapshot) (k : Z) : vec :=
  matvec (mpow (snap_G sn) (Z.to_nat (k - 1))) (snap_a sn).

Definition spec_R_k (sn : snapshot) (discount : bool) (k : Z) : mat :=
  let Gk := mpow (snap_G sn) (Z.to_nat (k - 1)) in
  let Rk := matmul (matmul Gk (snap_R sn)) (transpose Gk) in
  if discount then madd Rk (mscale (IZR (k - 1)) (snap_W sn)) else Rk.

(** ** A one-dimensional example

    The scenario of section 8 of the specification: [p = 1], [G = [[1]]],
    [W = [[0]]], [a = [0]], [R = [[1]]], [F = [[1]]], with a family whose
    linear predictor has mean [F.T a] and variance [F.T R F], whose conjugate
    parameters are the matched moments themselves, and whose draws are its
    means; the generator state counts the draws. *)

Definition demo_family (nr : nat) (ir : list nat) (discount : bool) (scale : R)
  : Model R nat :=
  {| mod_a := 0; mod_R := 1; mod_G := 2; mod_W := 3; mod_F := 4;
     nregn := nr; iregn := ir;
     param1 := 1; param2 := 1;
     discount_forecast := discount;
     get_mean_and_var := fun Fv av Rv => (dot Fv av, dot Fv (matvec Rv Fv));
     get_conjugate_params := fun ft qt _ _ => (ft, qt);
     get_mean := fun p1 _ => p1;
     simulate := fun p1 _ n g => (replicate n p1, S g);
     simulate_from_prior := fun p1 _ n g => (replicate n p1, S g);
     simulate_from_sampling_model := fun prior _ g => (prior, S g);
     update_conjugate_params := fun y p1 p2 => (p1, p2, p1, p2);
     prior_inverse_cdf := fun u p1 _ => vmap (fun x => scale * x + p1) u;
     sampling_density := fun _ prior => prior;
     bin_get_mean := fun _ p1 _ => p1;
     bin_simulate := fun _ p1 _ n g => (replicate n p1, S g);
     mod_n := 1; mod_s := 1; delVar := 1;
     dlm_simulate_from_sampling_model := fun ft _ _ g => (ft, S g) |}.

Definition demo_model : Model R nat := demo_family 0 [] false 1.

(** The same family with an inverse cdf of slope 2: a second series. *)
Definition demo_double : Model R nat := demo_family 0 [] false 2.

(** A library whose joint draws are the mean plus 1 on every margin, whose
    gamma and beta draws are 1, whose marginal cdfs are the distance to the
    location, and whose gamma function is constant.  As numpy's, the joint
    sampler reshapes its normal draws to rows of [len(mean)] entries and
    raises ValueError for a mean of length 0. *)
Definition demo_lib : Library nat :=
  {| random_multivariate_normal :=
       fun mean _ size g =>
         match mean with
         | [] => (Raise ValueError, g)
         | _ => (Ok (replicate size (vmap (fun x => x + 1) mean)), S g)
         end;
     random_gamma := fun _ _ size g => (replicate size 1, S g);
     random_beta := fun _ _ size g => (replicate size 1, S g);
     norm_cdf := fun loc _ x => x - loc;
     t_cdf := fun _ loc _ x => x - loc;
     special_gamma := fun _ => 1 |}.

Definition demo_snapshot : snapshot :=
  {| snap_a := [0]; snap_R := [[1]]; snap_G := [[1]]; snap_W := [[0]];
     snap_F := [1] |}.

Definition demo_state : state nat :=
  mkState [NdVec [0]; NdMat [[1]]; NdMat [[1]]; NdMat [[0]]; NdVec [1]] 0%nat.

(** A two-dimensional model with one regressor at row 1 of [F], under the
    discount flag, and regressors for two steps. *)
Definition demo_regression : Model R nat := demo_family 1 [1%nat] true 1.

Definition demo_regression_snapshot : snapshot :=
  {| snap_a := [1; 1]; snap_R := [[1; 0]; [0; 1]]; snap_G := [[1; 1]; [0; 1]];
     snap_W := [[1; 0]; [0; 1]]; snap_F := [1; 0] |}.

Definition demo_regression_state : state nat :=
  mkState [NdVec [1; 1]; NdMat [[1; 0]; [0; 1]]; NdMat [[1; 1]; [0; 1]];
           NdMat [[1; 0]; [0; 1]]; NdVec [1; 0]] 0%nat.

Definition demo_X : option mat := Some [[2]; [3]].

(** ** The frame of a call

    [frame n c Q]: run in a store of at least [n] array objects, [c] leaves
    the first [n] of them as they are, whether it returns or raises, and a
    returned value satisfies [Q]. *)

Definition frame {rng A} (n : nat) (c : M rng A) (Q : A -> Prop) : Prop :=
  forall s, (n <= length (heap s))%nat ->
    take n (heap (snd (c s))) = take n (heap s) /\
    (forall x, fst (c s) = Ok x -> Q x).

(** ** The joint moments of the linear predictor, margin by margin

    What section 4.4 of the specification asks of [lambda_mu] and
    [lambda_cov]: with [F_i] the design vector carrying the regressors of
    row [i] of [X] and [(a_i, R_i)] the prior moments at horizon [i+1],
    [lambda_mu[i] = ft_i], [lambda_cov[i,i] = qt_i] and, for [j < i],
    [lambda_cov[j,i] = lambda_cov[i,j] = F_j^T G^(i-j) R_j F_i]. *)

Definition F_at {param rng} (mdl : Model param rng) (sn : snapshot)
    (X : option mat) (i : nat) : vec :=
  if Nat.ltb 0 (nregn mdl) then
    match X with
    | Some A => set_rows (snap_F sn) (iregn mdl) (nth i A [])
    | None => snap_F sn
    end
  else snap_F sn.

Definition lambda_moments {param rng} (mdl : Model param rng) (sn : snapshot)
    (X : option mat) (i : nat) : R * R :=
  get_mean_and_var mdl (F_at mdl sn X i)
    (spec_a_k sn (Z.of_nat i + 1))
    (spec_R_k sn (discount_forecast mdl) (Z.of_nat i + 1)).

Definition lambda_cross {param rng} (mdl : Model param rng) (sn : snapshot)
    (X : option mat) (j i : nat) : R :=
  dot (vecmat (F_at mdl sn X j)
              (matmul (mpow (snap_G sn) (i - j))
                      (spec_R_k sn (discount_forecast mdl) (Z.of_nat j + 1))))
      (F_at mdl sn X i).

Definition spec_lambda_mu {param rng} (mdl : Model param rng) (sn : snapshot)
    (X : option mat) (K : nat) : vec :=
  mk_vec K (fun i => fst (lambda_moments mdl sn X i)).

Definition spec_lambda_cov {param rng} (mdl : Model param rng) (sn : snapshot)
    (X : option mat) (K : nat) : mat :=
  mk_mat K K (fun r c =>
                if Nat.eqb r c then snd (lambda_moments mdl sn X r)
                else if Nat.ltb r c then lambda_cross mdl sn X r c
                else lambda_cross mdl sn X c r).

(** Regressors that fit the model: as many indices as regressors, every
    index inside [F], and, when there are regressors, a row of [nregn]
    values of [X] for each of the [K] steps. *)
Definition regressors_ok {param rng} (mdl : Model param rng) (sn : snapshot)
    (K : nat) (X : option mat) : Prop :=
  length (iregn mdl) = nregn mdl /\
  Forall (fun j => (j < length (snap_F sn))%nat) (iregn mdl) /\
  ((0 < nregn mdl)%nat ->
   exists A, X = Some A /\
     forall i, (i < K)%nat -> exists x, A !! i = Some x /\ length x = nregn mdl).

(** [A] with the entry [(i, j)] set to [x]. *)
Definition mset (A : mat) (i j : nat) (x : R) : mat :=
  <[i := <[j := x]> (nth i A [])]> A.

(** Two columns that differ at most at the rows [idx]. *)
Definition agree_off (idx : list nat) (F F' : vec) : Prop :=
  length F = length F' /\ forall p, ~ In p idx -> F !! p = F' !! p.

(** The entries [(j, i)] and [(i, j)], [j < m], of [cov] set to [c j]: the
    array after [m] passes of the inner loop of [forecast_path_approx]. *)
Fixpoint cross_fill (c : nat -> R) (i m : nat) (cov : mat) : mat :=
  match m with
  | O => cov
  | S m' =>
      let cov' := cross_fill c i m' cov in
      mset (mset cov' m' i (c m')) i m' (c m')
  end.

(** The loop invariant of [forecast_path_approx] before pass [i]: the store
    extends the caller's store [h0]; [lambda_mu], [lambda_cov] and the
    working [F] are the three arrays allocated after it; margins below [i]
    are filled; [Flist] and [Rlist] name, below [i], arrays holding [F_j] and
    [R_j]. *)
Definition approx_inv {param rng} (mdl : Model param rng) (sn : snapshot)
    (X : option mat) (K : nat) (h0 : list ndarray) (i : nat)
    (w : list (option loc) * list (option loc)) (s : state rng) : Prop :=
  let n0 := length h0 in
  take n0 (heap s) = h0 /\
  (exists mu : vec,
     heap s !! n0 = Some (NdVec mu) /\ length mu = K /\
     forall j, (j < i)%nat -> vget mu j = fst (lambda_moments mdl sn X j)) /\
  (exists cov : mat,
     heap s !! S n0 = Some (NdMat cov) /\ is_mat K K cov /\
     forall p q, (p < i)%nat -> (q < i)%nat ->
       mget cov p q = mget (spec_lambda_cov mdl sn X K) p q) /\
  (exists Fcur : vec,
     heap s !! S (S n0) = Some (NdVec Fcur) /\
     agree_off (iregn mdl) Fcur (snap_F sn)) /\
  length (fst w) = K /\ length (snd w) = K /\
  forall j, (j < i)%nat ->
    exists fj rj,
      fst w !! j = Some (Some fj) /\ snd w !! j = Some (Some rj) /\
      (S (S n0) < fj)%nat /\ (S (S n0) < rj)%nat /\
      heap s !! fj = Some (NdVec (F_at mdl sn X j)) /\
      heap s !! rj
        = Some (NdMat (spec_R_k sn (discount_forecast mdl) (Z.of_nat j + 1))).

(** [X[i,:]] when [X] is given: the regressors of step [i] as the marginal
    forecasters take them. *)
Definition row_regressors (X : option mat) (i : nat) : option vec :=
  match X with
  | Some A => A !! i
  | None => None
  end.

(** ** Margin-wise views of the copula stages

    The conjugate parameters matched, margin by margin, to the pair
    [(lambda_mu[i], lambda_cov[i,i])], and the Student-t marginals on the
    reduced scale [lambda_cov[i,i] * (nu-2)/nu]. *)

Definition matched_params {param rng} (mdl : Model param rng) (lambda_mu : vec)
    (lambda_cov : mat) : list (param * param) :=
  map (fun i => get_conjugate_params mdl (vget lambda_mu i) (mget lambda_cov i i)
                                     (param1 mdl) (param2 mdl))
      (seq 0 (length lambda_mu)).

Definition reduced_t_marginals {rng} (lib : Library rng) (lambda_mu : vec)
    (lambda_cov : mat) (nu : R) : list (R -> R) :=
  map (fun i => t_cdf lib nu (vget lambda_mu i)
                      (sqrt (mget lambda_cov i i * ((nu - 2) / nu))))
      (seq 0 (length lambda_mu)).

(** The product of the densities of one sample over the margins. *)
Definition prod (l : list R) : R := fold_right Rmult 1 l.

(** The product over the [k] margins of the densities of sample [j], for
    [density_list] read by its indices: margin [i], sample [j]. *)
Definition sample_product (density_list : mat) (k j : nat) : R :=
  prod (mk_vec k (fun i => mget density_list i j)).

(** ** The forecasting calls of the module

    Every entry point with its arguments, and the state it leaves behind,
    whether it returns or raises. *)

Inductive call (param rng : Type) : Type :=
| Call_forecast_aR (mdl : Model param rng) (k : Z)
| Call_forecast_marginal (mdl : Model param rng) (k : Z) (X : option vec)
    (nsamps : nat) (mean_only state_mean_var : bool)
| Call_forecast_path (mdl : Model param rng) (k : Z) (X : option mat)
    (nsamps : nat)
| Call_forecast_path_approx (mdl : Model param rng) (k : Z) (X : option mat)
    (nsamps : nat) (t_dist : bool) (y : option (list npfloat)) (nu : R)
| Call_forecast_marginal_bindglm (mdl : Model param rng) (n : R) (k : Z)
    (X : option vec) (nsamps : nat) (mean_only : bool)
| Call_forecast_path_normaldlm (mdl : Model param rng) (k : Z)
    (X : option mat) (nsamps : nat)
| Call_forecast_path_approx_sim (mdl : Model param rng) (k : Z)
    (lambda_mu : vec) (lambda_cov : mat) (nsamps : nat) (t_dist : bool) (nu : R)
| Call_forecast_path_approx_dens_MC (mdl : Model param rng)
    (y : list npfloat) (lambda_mu : vec) (lambda_cov : mat) (t_dist : bool)
    (nu : R) (nsamps : nat)
| Call_forecast_joint_approx_sim (mod_list : list (Model param rng))
    (lambda_mu : vec) (lambda_cov : mat) (nsamps : nat) (t_dist : bool) (nu : R)
| Call_forecast_joint_approx_dens_MC (mod_list : list (Model param rng))
    (y : list npfloat) (lambda_mu : vec) (lambda_cov : mat) (t_dist : bool)
    (nu : R) (nsamps : nat)
| Call_forecast_state_mean_and_var (mdl : Model param rng) (k : Z)
    (X : option vec)
| Call_forecast_marginal_dens_MC (mdl : Model param rng) (k : Z)
    (X : option vec) (nsamps : nat) (y : npfloat).

Definition state_after {param rng} (lib : Library rng) (c : call param rng)
    (s : state rng) : state rng :=
  match c with
  | Call_forecast_aR mdl k => snd (forecast_aR mdl k s)
  | Call_forecast_marginal mdl k X nsamps mo smv =>
      snd (forecast_marginal mdl k X nsamps mo smv s)
  | Call_forecast_path mdl k X nsamps => snd (forecast_path mdl k X nsamps s)
  | Call_forecast_path_approx mdl k X nsamps t_dist y nu =>
      snd (forecast_path_approx lib mdl k X nsamps t_dist y nu s)
  | Call_forecast_marginal_bindglm mdl n k X nsamps mo =>
      snd (forecast_marginal_bindglm mdl n k X nsamps mo s)
  | Call_forecast_path_normaldlm mdl k X nsamps =>
      snd (forecast_path_normaldlm lib mdl k X nsamps s)
  | Call_forecast_path_approx_sim mdl k lambda_mu lambda_cov nsamps t_dist nu =>
      snd (forecast_path_approx_sim lib mdl k lambda_mu lambda_cov nsamps t_dist nu s)
  | Call_forecast_path_approx_dens_MC mdl y lambda_mu lambda_cov t_dist nu nsamps =>
      snd (forecast_path_approx_dens_MC lib mdl y lambda_mu lambda_cov t_dist nu nsamps s)
  | Call_forecast_joint_approx_sim mod_list lambda_mu lambda_cov nsamps t_dist nu =>
      snd (forecast_joint_approx_sim lib mod_list lambda_mu lambda_cov nsamps t_dist nu s)
  | Call_forecast_joint_approx_dens_MC mod_list y lambda_mu lambda_cov t_dist nu nsamps =>
      snd (forecast_joint_approx_dens_MC lib mod_list y lambda_mu lambda_cov t_dist nu nsamps s)
  | Call_forecast_state_mean_and_var mdl k X =>
      snd (forecast_state_mean_and_var mdl k X s)
  | Call_forecast_marginal_dens_MC mdl k X nsamps y =>
      snd (forecast_marginal_dens_MC mdl k X nsamps y s)
  end.

(** ** One evolution step

    The snapshot one step later when nothing is observed and nothing is
    discounted: [a] and [R] become [G a] and [G R G^T]. *)

Definition evolve (sn : snapshot) : snapshot :=
  {| snap_a := matvec (snap_G sn) (snap_a sn);
     snap_R := matmul (matmul (snap_G sn) (snap_R sn)) (transpose (snap_G sn));
     snap_G := snap_G sn; snap_W := snap_W sn; snap_F := snap_F sn |}.

(** ** The marginal forecast of one horizon

    Regressors [x] that fit the model, the design vector with [x] at the rows
    [iregn], and the moments and conjugate parameters of the linear predictor
    at horizon [k] that the marginal forecasters work from. *)

Definition regressor_fits {param rng} (mdl : Model param rng) (sn : snapshot)
    (x : option vec) : Prop :=
  length (iregn mdl) = nregn mdl /\
  Forall (fun j => (j < length (snap_F sn))%nat) (iregn mdl) /\
  ((0 < nregn mdl)%nat -> exists v, x = Some v /\ length v = nregn mdl).

Definition F_with {param rng} (mdl : Model param rng) (sn : snapshot)
    (x : option vec) : vec :=
  if Nat.ltb 0 (nregn mdl) then
    match x with
    | Some v => set_rows (snap_F sn) (iregn mdl) v
    | None => snap_F sn
    end
  else snap_F sn.

Definition marginal_moments {param rng} (mdl : Model param rng) (sn : snapshot)
    (x : option vec) (k : Z) : R * R :=
  get_mean_and_var mdl (F_with mdl sn x) (spec_a_k sn k)
                   (spec_R_k sn (discount_forecast mdl) k).

Definition marginal_params {param rng} (mdl : Model param rng) (sn : snapshot)
    (x : option vec) (k : Z) : param * param :=
  get_conjugate_params mdl (fst (marginal_moments mdl sn x k))
                       (snd (marginal_moments mdl sn x k))
                       (param1 mdl) (param2 mdl).

(** ** The loops of forecast_path

    The store between two samples: it extends the caller's store [h0]; the
    array [samps], of [r] rows and [c] columns, and the working [F] are the
    two arrays allocated after it.  Inside a sample, besides, the carried
    [a] and [R] name arrays allocated later. *)

Definition path_store_inv {param rng} (mdl : Model param rng) (sn : snapshot)
    (h0 : list ndarray) (r c : nat) (s : state rng) : Prop :=
  take (length h0) (heap s) = h0 /\
  (exists samps : mat,
     heap s !! length h0 = Some (NdMat samps) /\ is_mat r c samps) /\
  (exists Fcur : vec,
     heap s !! S (length h0) = Some (NdVec Fcur) /\
     agree_off (iregn mdl) Fcur (snap_F sn)).

Definition path_inv {param rng} (mdl : Model param rng) (sn : snapshot)
    (h0 : list ndarray) (r c : nat) (w : param * param * loc * loc)
    (s : state rng) : Prop :=
  path_store_inv mdl sn h0 r c s /\
  (S (length h0) < snd (fst w))%nat /\ (S (length h0) < snd w)%nat /\
  (exists av : vec, heap s !! snd (fst w) = Some (NdVec av)) /\
  (exists Rv : mat, heap s !! snd w = Some (NdMat Rv)).

(** A family whose [simulate] returns one value when asked for one. *)
Definition simulates_one {param rng} (mdl : Model param rng) : Prop :=
  forall p1 p2 g, exists y g', simulate mdl p1 p2 1 g = ([y], g').

(** ** Samplers that return what they are asked for

    numpy's samplers return [size] draws, the normal one as rows of
    [len(mean)] entries for a square covariance of that size; the family's
    inverse cdf keeps the length of its argument and its samplers return
    [nsamps] values for arguments of [nsamps] entries. *)





(** A computation that leaves the random generator where it found it,
    whether it returns or raises. *)
Definition nodraw {rng A} (c : M rng A) : Prop :=
  forall s, gen (snd (c s)) = gen s.

(** [2 * mean - y]: the point opposite [y] about [mean]. *)
Definition reflect (mean y : vec) : vec :=
  zip_with (fun m x => 2 * m - x) mean y.

(** The missing-value mask of [y], lines 236 and 316. *)
Definition not_missing (y : list npfloat) : list bool :=
  map (fun x => negb (np_isnan x)) y.

(** ** A two-dimensional example without regressors

    A local level with a drift: [G = [[1, 1], [0, 1]]], no discounting. *)

Definition demo_drift : Model R nat := demo_family 0 [] false 1.

Definition demo_drift_snapshot : snapshot :=
  {| snap_a := [1; 1]; snap_R := [[1; 0]; [0; 1]]; snap_G := [[1; 1]; [0; 1]];
     snap_W := [[1; 0]; [0; 1]]; snap_F := [1; 0] |}.

Definition demo_drift_state : state nat :=
  mkState [NdVec [1; 1]; NdMat [[1; 0]; [0; 1]]; NdMat [[1; 1]; [0; 1]];
           NdMat [[1; 0]; [0; 1]]; NdVec [1; 0]] 0%nat.

(** The store of the same model one evolution step later. *)
Definition demo_drift_evolved : state nat :=
  mkState [NdVec (snap_a (evolve demo_drift_snapshot));
           NdMat (snap_R (evolve demo_drift_snapshot));
           NdMat [[1; 1]; [0; 1]]; NdMat [[1; 0]; [0; 1]]; NdVec [1; 0]] 0%nat.

(** The one-dimensional example with a singular evolution matrix. *)
Definition demo_singular_snapshot : snapshot :=
  {| snap_a := [0]; snap_R := [[1]]; snap_G := [[0]]; snap_W := [[0]];
     snap_F := [1] |}.

Definition demo_singular_state : state nat :=
  mkState [NdVec [0]; NdMat [[1]]; NdMat [[0]]; NdMat [[0]]; NdVec [1]] 0%nat.

Unset Implicit Arguments.
Unset Contextual Implicit.

(** * Properties *)

(** ** Arrays: shapes and entries *)

Lemma length_mk_vec n f : length (mk_vec n f) = n.
Proof. unfold mk_vec. now rewrite length_map, length_seq. Qed.

Lemma vget_mk_vec n f i : (i < n)%nat -> vget (mk_vec n f) i = f i.
Proof.
  intros Hi. unfold vget, mk_vec.
  rewrite (nth_indep _ 0 (f 0%nat)) by now rewrite length_map, length_seq.
  rewrite map_nth, seq_nth by assumption. reflexivity.
Qed.

Lemma is_mat_mk_mat r c f : is_mat r c (mk_mat r c f).
Proof.
  split.
  - unfold mk_mat. now rewrite length_map, length_seq.
  - unfold mk_mat. apply List.Forall_forall. intros row Hrow.
    apply in_map_iff in Hrow as (i & <- & _).
    now rewrite length_map, length_seq.
Qed.

Lemma nth_mk_mat r c f i :
  (i < r)%nat -> nth i (mk_mat r c f) [] = map (f i) (seq 0 c).
Proof.
  intros Hi. unfold mk_mat.
  rewrite (nth_indep _ [] (map (f 0%nat) (seq 0 c)))
    by now rewrite length_map, length_seq.
  rewrite (map_nth (fun i => map (f i) (seq 0 c))), seq_nth by assumption.
  reflexivity.
Qed.

Lemma mget_mk_mat r c f i j :
  (i < r)%nat -> (j < c)%nat -> mget (mk_mat r c f) i j = f i j.
Proof.
  intros Hi Hj. unfold mget. rewrite nth_mk_mat by assumption.
  apply (vget_mk_vec c (f i) j Hj).
Qed.



Lemma vec_ext (u v : vec) :
  length u = length v ->
  (forall i, (i < length u)%nat -> vget u i = vget v i) -> u = v.
Proof. intros Hl He. apply (nth_ext u v 0 0 Hl He). Qed.

Lemma mat_ext r c (A B : mat) :
  is_mat r c A -> is_mat r c B ->
  (forall i j, (i < r)%nat -> (j < c)%nat -> mget A i j = mget B i j) ->
  A = B.
Proof.
  intros [HrA HcA] [HrB HcB] He.
  apply (nth_ext A B [] []); [congruence |].
  intros i Hi. rewrite List.Forall_forall in HcA, HcB.
  assert (HlA : length (nth i A []) = c) by (apply HcA, nth_In; lia).
  assert (HlB : length (nth i B []) = c) by (apply HcB, nth_In; lia).
  apply (nth_ext _ _ 0 0); [congruence |].
  intros j Hj. apply He; lia.
Qed.

Lemma ncols_is_mat r c A : is_mat r c A -> (0 < r)%nat -> ncols A = c.
Proof.
  intros [Hr Hc] Hpos. unfold ncols. destruct A as [| row A]; simpl in *.
  - lia.
  - now inversion Hc.
Qed.

Lemma is_mat_nil c (A : mat) : is_mat 0 c A -> A = [].
Proof. intros [Hr _]. now destruct A. Qed.

(** ** Sums and the identity matrix *)

Lemma fold_right_Rplus_snoc l x :
  fold_right Rplus 0 (l ++ [x]) = fold_right Rplus 0 l + x.
Proof. induction l as [| y l IH]; simpl; [ring | rewrite IH; ring]. Qed.

Lemma sum_upto_S n f : sum_upto (S n) f = sum_upto n f + f n.
Proof.
  unfold sum_upto. rewrite seq_S, map_app. simpl.
  apply fold_right_Rplus_snoc.
Qed.

Lemma sum_upto_ext n f g :
  (forall i, (i < n)%nat -> f i = g i) -> sum_upto n f = sum_upto n g.
Proof.
  induction n as [| n IH]; intros H; [reflexivity |].
  rewrite !sum_upto_S, IH, (H n) by (intros; try apply H; lia). reflexivity.
Qed.

Lemma sum_upto_zero n f :
  (forall i, (i < n)%nat -> f i = 0) -> sum_upto n f = 0.
Proof.
  induction n as [| n IH]; intros H; [reflexivity |].
  rewrite sum_upto_S, IH, (H n) by (intros; try apply H; lia). ring.
Qed.

Lemma sum_upto_delta n i g :
  (i < n)%nat ->
  sum_upto n (fun l => (if Nat.eqb i l then 1 else 0) * g l) = g i.
Proof.
  induction n as [| n IH]; intros Hi; [lia |].
  rewrite sum_upto_S. destruct (Nat.eq_dec i n) as [-> | Hne].
  - rewrite Nat.eqb_refl, sum_upto_zero; [ring |].
    intros l Hl. destruct (Nat.eqb_spec n l); [lia | ring].
  - rewrite IH by lia. destruct (Nat.eqb_spec i n); [lia | ring].
Qed.

Lemma nrows_identity p : nrows (identity p) = p.
Proof. apply (is_mat_mk_mat p p). Qed.

Lemma ncols_identity p : ncols (identity p) = p.
Proof.
  destruct p as [| p]; [reflexivity |].
  apply (ncols_is_mat (S p) (S p)); [apply is_mat_mk_mat | lia].
Qed.

Lemma mget_identity p i j :
  (i < p)%nat -> (j < p)%nat ->
  mget (identity p) i j = if Nat.eqb i j then 1 else 0.
Proof. intros. unfold identity. now rewrite mget_mk_mat. Qed.

Lemma transpose_identity p : transpose (identity p) = identity p.
Proof.
  unfold transpose. rewrite nrows_identity, ncols_identity.
  apply (mat_ext p p); try apply is_mat_mk_mat.
  intros i j Hi Hj. rewrite mget_mk_mat, !mget_identity by assumption.
  rewrite Nat.eqb_sym. reflexivity.
Qed.

Lemma matvec_identity p (v : vec) : length v = p -> matvec (identity p) v = v.
Proof.
  intros Hl. unfold matvec. rewrite nrows_identity, ncols_identity.
  apply vec_ext; rewrite length_mk_vec; [congruence |].
  intros i Hi. rewrite vget_mk_vec by assumption.
  rewrite <- (sum_upto_delta p i (vget v)) by assumption.
  apply sum_upto_ext. intros l Hl'. now rewrite mget_identity.
Qed.

Lemma matmul_identity_l p c (A : mat) : is_mat p c A -> matmul (identity p) A = A.
Proof.
  intros HA. unfold matmul. rewrite nrows_identity, ncols_identity.
  destruct (Nat.eq_dec p 0%nat) as [-> | Hp].
  - now rewrite (is_mat_nil c A HA).
  - rewrite (ncols_is_mat p c A HA) by lia.
    apply (mat_ext p c); [apply is_mat_mk_mat | assumption |].
    intros i j Hi Hj. rewrite mget_mk_mat by assumption.
    rewrite <- (sum_upto_delta p i (fun l => mget A l j)) by assumption.
    apply sum_upto_ext. intros l Hl. now rewrite mget_identity.
Qed.

Lemma matmul_identity_r r p (A : mat) : is_mat r p A -> matmul A (identity p) = A.
Proof.
  intros HA. unfold matmul. rewrite ncols_identity.
  destruct HA as [Hr Hc]. unfold nrows. rewrite Hr.
  apply (mat_ext r p); [apply is_mat_mk_mat | now split |].
  intros i j Hi Hj. rewrite mget_mk_mat by assumption.
  rewrite (ncols_is_mat r p A) by (try split; try assumption; lia).
  rewrite <- (sum_upto_delta p j (fun l => mget A i l)) by assumption.
  apply sum_upto_ext. intros l Hl.
  rewrite mget_identity, Nat.eqb_sym by assumption. ring.
Qed.

(** ** Elementwise operations *)

Lemma zip_with_Rplus_zero (u z : vec) :
  length z = length u -> Forall (fun x => x = 0) z -> zip_with Rplus u z = u.
Proof.
  revert z. induction u as [| x u IH]; intros [| y z] Hl Hz; simpl in *;
    try reflexivity; try discriminate.
  inversion Hz; subst. rewrite IH by (auto; lia). f_equal. ring.
Qed.

Lemma madd_mscale_zero p c (A B : mat) :
  is_mat p c A -> is_mat p c B -> madd A (mscale 0 B) = A.
Proof.
  intros [HrA HcA] [HrB HcB]. subst p. unfold madd, mscale, mmap.
  revert B HrB HcB. induction A as [| a A IH]; intros [| b B] HrB HcB;
    simpl in *; try reflexivity; try discriminate.
  inversion HcA; subst. inversion HcB; subst.
  rewrite IH by (auto; lia). f_equal.
  apply zip_with_Rplus_zero.
  - rewrite length_map. congruence.
  - apply List.Forall_forall. intros x Hx.
    apply in_map_iff in Hx as (y & <- & _). ring.
Qed.

(** ** Inverses of 1×1 arrays *)

Lemma det_1x1 x : det [[x]] = x.
Proof. unfold det. simpl. unfold sum_upto, vget. simpl. ring. Qed.

Lemma np_inv_1x1 x : x <> 0 -> np_inv [[x]] = Ok [[/ x]].
Proof.
  intros Hx. unfold np_inv. rewrite det_1x1.
  destruct (Req_dec_T x 0); [contradiction |].
  unfold mk_mat, cofactor. simpl. do 3 f_equal.
  unfold det. simpl. field. assumption.
Qed.

(** ** Lists as arrays *)

Lemma vec_as_map (v : vec) : v = map (vget v) (seq 0 (length v)).
Proof.
  apply vec_ext; [now rewrite length_map, length_seq |].
  intros i Hi. symmetry. apply (vget_mk_vec (length v) (vget v) i Hi).
Qed.

Lemma zip_with_map_map {A B C D} (f : A -> B -> C) (a : D -> A) (b : D -> B) l :
  zip_with f (map a l) (map b l) = map (fun i => f (a i) (b i)) l.
Proof. induction l as [| x l IH]; simpl; [reflexivity | now rewrite IH]. Qed.

Lemma diag_square n (A : mat) :
  is_mat n n A -> diag A = map (fun i => mget A i i) (seq 0 n).
Proof.
  intros HA. unfold diag, mk_vec. destruct (Nat.eq_dec n 0%nat) as [-> | Hn].
  - now rewrite (is_mat_nil 0 A HA).
  - rewrite (ncols_is_mat n n A HA) by lia. unfold nrows.
    rewrite (proj1 HA), Nat.min_id. reflexivity.
Qed.

Lemma length_mmap f (A : mat) : length (mmap f A) = length A.
Proof. unfold mmap. apply length_map. Qed.

Lemma is_mat_mmap r c f (A : mat) : is_mat r c A -> is_mat r c (mmap f A).
Proof.
  intros [Hr Hc]. split; [now rewrite length_mmap |].
  unfold mmap. apply List.Forall_forall. intros row Hrow.
  apply in_map_iff in Hrow as (row' & <- & Hin).
  rewrite length_map. rewrite List.Forall_forall in Hc. now apply Hc.
Qed.

Lemma mget_mmap r c f (A : mat) i j :
  is_mat r c A -> (i < r)%nat -> (j < c)%nat ->
  mget (mmap f A) i j = f (mget A i j).
Proof.
  intros [Hr Hc] Hi Hj. unfold mget, mmap.
  rewrite (nth_indep _ [] (map f [])) by (rewrite length_map; lia).
  rewrite map_nth.
  assert (Hl : length (nth i A []) = c).
  { rewrite List.Forall_forall in Hc. apply Hc, nth_In. lia. }
  rewrite (nth_indep _ 0 (f 0)) by (rewrite length_map; lia).
  now rewrite map_nth.
Qed.

Lemma length_take_idx {A} (l : list A) idx xs :
  take_idx l idx = Ok xs -> length xs = length idx.
Proof.
  revert xs. induction idx as [| i idx IH]; intros xs H; simpl in H.
  - now inversion H.
  - destruct (l !! i); [| discriminate].
    destruct (take_idx l idx) as [ys | e]; [| discriminate].
    inversion H; subst. simpl. now rewrite (IH ys).
Qed.

Lemma map_res_Forall {A B} (f : A -> res B) (P : B -> Prop) l ys :
  (forall x y, f x = Ok y -> P y) ->
  map_res f l = Ok ys -> length ys = length l /\ Forall P ys.
Proof.
  intros Hf. revert ys. induction l as [| x l IH]; intros ys H; simpl in H.
  - inversion H. split; [reflexivity | constructor].
  - destruct (f x) as [y | e] eqn:Hy; [| discriminate].
    destruct (map_res f l) as [zs | e]; [| discriminate].
    inversion H; subst. destruct (IH zs eq_refl) as [Hl HP].
    split; [simpl; congruence | constructor; eauto].
Qed.

Lemma is_mat_ix_index (A A' : mat) mask :
  ix_index A mask = Ok A' ->
  is_mat (length (nonzero_from 0 mask)) (length (nonzero_from 0 mask)) A'.
Proof.
  unfold ix_index. intros H.
  destruct (take_idx A (nonzero_from 0 mask)) as [rows | e] eqn:Hrows;
    [| discriminate].
  apply length_take_idx in Hrows.
  destruct (map_res_Forall _
              (fun row : vec => length row = length (nonzero_from 0 mask))
              rows A' (fun x y => length_take_idx x _ y) H) as [Hl HF].
  split; [congruence | assumption].
Qed.

Lemma length_compress {A} (mask : list bool) (l : list A) i :
  length mask = length l ->
  length (compress mask l) = length (nonzero_from i mask).
Proof.
  revert l i. induction mask as [| b mask IH]; intros [| x l] i Hl;
    simpl in *; try reflexivity; try discriminate.
  destruct b; simpl; rewrite (IH l (S i)) by lia; reflexivity.
Qed.

Lemma bool_index_ok {A} (l l' : list A) mask :
  bool_index l mask = Ok l' ->
  l' = compress mask l /\ length l' = length (nonzero_from 0 mask).
Proof.
  unfold bool_index. destruct (Nat.eqb_spec (length mask) (length l)); [| discriminate].
  intros [= <-]. split; [reflexivity | now apply length_compress].
Qed.

(** ** Products accumulated in log space *)

Lemma np_log_pos x : 0 < x -> np_log x = Fin (ln x).
Proof. intros H. unfold np_log. destruct (Rlt_dec 0 x); [reflexivity | contradiction]. Qed.

Lemma np_log_zero : np_log 0 = NInf.
Proof.
  unfold np_log. destruct (Rlt_dec 0 0); [lra |].
  destruct (Req_dec_T 0 0); [reflexivity | contradiction].
Qed.

Lemma exp_sum_logs (dens : list R) (acc : npfloat) (e : R) :
  Forall (fun d => 0 <= d) dens ->
  (acc = NInf \/ exists a, acc = Fin a) ->
  npf_exp acc = Fin e ->
  npf_exp (fold_left npf_add (map np_log dens) acc) = Fin (e * prod dens).
Proof.
  intros Hd. revert acc e. induction Hd as [| d dens Hd0 Hd IH]; intros acc e Hacc He.
  - simpl. rewrite He. f_equal. ring.
  - simpl. destruct (Rle_lt_or_eq_dec 0 d Hd0) as [Hpos | <-].
    + rewrite (np_log_pos d Hpos). destruct Hacc as [-> | [a ->]]; simpl in *.
      * rewrite (IH NInf e) by (auto; left; reflexivity).
        inversion He; subst. f_equal. ring.
      * rewrite (IH (Fin (a + ln d)) (e * d)).
        -- f_equal. ring.
        -- right. now eexists.
        -- simpl. inversion He; subst. now rewrite exp_plus, exp_ln.
    + rewrite np_log_zero.
      assert (Hacc' : npf_add acc NInf = NInf)
        by (destruct Hacc as [-> | [a ->]]; reflexivity).
      rewrite Hacc', (IH NInf 0) by (auto; left; reflexivity).
      f_equal. ring.
Qed.

Lemma path_density_prod (dens : list R) :
  Forall (fun d => 0 <= d) dens -> path_density dens = Fin (prod dens).
Proof.
  intros Hd. unfold path_density, npf_sum.
  rewrite (exp_sum_logs dens (Fin 0) 1 Hd).
  - f_equal. ring.
  - right. now eexists.
  - simpl. now rewrite exp_0.
Qed.

Lemma npf_sum_Fin_acc (l : list R) (a : R) :
  fold_left npf_add (map Fin l) (Fin a) = Fin (a + fold_right Rplus 0 l).
Proof.
  revert a. induction l as [| x l IH]; intros a; simpl.
  - f_equal. ring.
  - rewrite IH. f_equal. ring.
Qed.

Lemma npf_mean_Fin (l : list R) :
  l <> [] -> npf_mean (map Fin l) = Fin (fold_right Rplus 0 l / INR (length l)).
Proof.
  intros Hl. unfold npf_mean, npf_sum. rewrite npf_sum_Fin_acc, length_map.
  destruct l as [| x l]; [contradiction |]. simpl length. cbn [npf_div_nat].
  f_equal. f_equal. ring.
Qed.

Lemma Forall_zip_star {A} (P : A -> Prop) (ls : list (list A)) :
  Forall (Forall P) ls -> Forall (Forall P) (zip_star ls).
Proof.
  induction 1 as [| l ls Hl Hls IH]; [constructor |].
  simpl. destruct ls as [| l' ls'].
  - clear IH Hls. induction Hl; simpl; constructor; auto.
  - remember (zip_star (l' :: ls')) as cols eqn:E. clear E Hls.
    revert cols IH. induction Hl as [| x l Hx Hl IHl]; intros cols IH.
    + constructor.
    + destruct cols as [| c cols]; [constructor |]. simpl.
      inversion IH; subst. constructor; auto.
Qed.



Lemma zip_star_rect (ls : list (list R)) k n :
  is_mat k n ls -> (0 < k)%nat ->
  zip_star ls = mk_mat n k (fun j i => mget ls i j).
Proof.
  revert k. induction ls as [| l ls IH]; intros k [Hr Hc] Hk;
    [simpl in Hr; lia |].
  inversion Hc as [| ? ? Hl Hls]. subst.
  destruct ls as [| l' ls'].
  - simpl. unfold mk_mat. rewrite (vec_as_map l) at 1. rewrite map_map.
    apply map_ext. intros j. reflexivity.
  - change (zip_star (l :: l' :: ls'))
      with (zip_with cons l (zip_star (l' :: ls'))).
    rewrite (IH (length (l' :: ls'))) by (try split; auto; simpl; lia).
    unfold mk_mat. rewrite (vec_as_map l) at 1. rewrite zip_with_map_map.
    apply map_ext. intros j.
    change (length (l :: l' :: ls')) with (S (length (l' :: ls'))).
    rewrite <- cons_seq. cbn [map]. f_equal.
    rewrite <- seq_shift, map_map. reflexivity.
Qed.

Lemma map_path_density (cols : list (list R)) :
  Forall (Forall (fun d => 0 <= d)) cols ->
  map path_density cols = map Fin (map prod cols).
Proof.
  induction 1 as [| c cols Hc _ IH]; simpl; [reflexivity |].
  now rewrite IH, path_density_prod.
Qed.

Lemma sum_zero (l : list R) :
  Forall (fun x => x = 0) l -> fold_right Rplus 0 l = 0.
Proof. induction 1 as [| x l Hx _ IH]; simpl; [reflexivity | rewrite IH, Hx; ring]. Qed.

(** ** In-place updates of rows and entries *)

Lemma length_set_rows (F : list R) idx col : length (set_rows F idx col) = length F.
Proof.
  revert F col. induction idx as [| i idx IH]; intros F [| x col]; simpl;
    try reflexivity.
  now rewrite IH, length_insert.
Qed.

Lemma lookup_set_rows_off (F : list R) idx col p :
  ~ In p idx -> set_rows F idx col !! p = F !! p.
Proof.
  revert F col. induction idx as [| i idx IH]; intros F [| x col] Hp; simpl;
    try reflexivity.
  rewrite IH by (intros H; apply Hp; now right).
  apply list_lookup_insert_ne. intros ->. apply Hp. now left.
Qed.

Lemma agree_off_set_rows (F : list R) idx col : agree_off idx (set_rows F idx col) F.
Proof. split; [apply length_set_rows | intros p Hp; now apply lookup_set_rows_off]. Qed.

Lemma agree_off_refl idx (F : list R) : agree_off idx F F.
Proof. now split. Qed.

Lemma set_rows_agree (F F' : list R) idx col :
  (length idx <= length col)%nat -> agree_off idx F F' ->
  set_rows F idx col = set_rows F' idx col.
Proof.
  revert F F' col. induction idx as [| i idx IH]; intros F F' col Hl [Hlen Hag].
  - destruct col; simpl; apply list_eq; intros p; now apply Hag.
  - destruct col as [| x col]; simpl in *; [lia |].
    apply IH; [lia |]. split; [now rewrite !length_insert |].
    intros p Hp. destruct (Nat.eq_dec i p) as [-> | Hne].
    + destruct (Nat.lt_ge_cases p (length F)) as [Hlt | Hge].
      * rewrite !list_lookup_insert_eq by lia. reflexivity.
      * rewrite !list_insert_ge by lia.
        rewrite !(proj2 (lookup_ge_None _ _)) by lia. reflexivity.
    + rewrite !list_lookup_insert_ne by assumption.
      apply Hag. intros [H | H]; [contradiction | contradiction].
Qed.

Lemma is_mat_mset r c (A : mat) i j x : is_mat r c A -> is_mat r c (mset A i j x).
Proof.
  intros [Hr Hc]. unfold mset. split; [now rewrite length_insert |].
  rewrite List.Forall_forall in *. intros row Hrow.
  apply list_elem_of_In, list_elem_of_lookup in Hrow as [p Hp].
  apply list_lookup_insert_Some in Hp as [(-> & <- & Hlt) | (Hne & Hp)].
  - rewrite length_insert. apply Hc, nth_In. lia.
  - apply Hc. apply list_elem_of_In, list_elem_of_lookup. eauto.
Qed.

Lemma mget_mset r c (A : mat) i j x p q :
  is_mat r c A -> (i < r)%nat -> (j < c)%nat ->
  mget (mset A i j x) p q
  = if Nat.eqb p i && Nat.eqb q j then x else mget A p q.
Proof.
  intros [Hr Hc] Hi Hj. unfold mget, mset.
  assert (Hrow : length (nth i A []) = c).
  { rewrite List.Forall_forall in Hc. apply Hc, nth_In. lia. }
  destruct (Nat.eqb_spec p i) as [-> | Hpi]; simpl.
  - rewrite (nth_lookup_Some _ _ _ (<[j:=x]> (nth i A [])))
      by (apply list_lookup_insert_eq; lia).
    destruct (Nat.eqb_spec q j) as [-> | Hqj].
    + apply nth_lookup_Some. apply list_lookup_insert_eq. lia.
    + rewrite !nth_lookup. now rewrite list_lookup_insert_ne by auto.
  - rewrite !(nth_lookup _ p). now rewrite list_lookup_insert_ne by auto.
Qed.

Lemma is_mat_cross_fill r c' f i m (cov : list (list R)) :
  is_mat r c' cov -> is_mat r c' (cross_fill f i m cov).
Proof. intros H. induction m as [| m IH]; simpl; [assumption |]. now do 2 apply is_mat_mset. Qed.

Lemma mget_cross_fill K f i m (cov : list (list R)) p q :
  is_mat K K cov -> (i < K)%nat -> (m <= i)%nat ->
  mget (cross_fill f i m cov) p q
  = if Nat.eqb p i && Nat.ltb q m then f q
    else if Nat.eqb q i && Nat.ltb p m then f p
    else mget cov p q.
Proof.
  intros Hcov Hi. induction m as [| m IH]; intros Hm; simpl.
  - now rewrite !andb_false_r.
  - rewrite (mget_mset K K), (mget_mset K K)
      by (try apply is_mat_mset; try apply is_mat_cross_fill; try assumption; lia).
    rewrite IH by lia.
    destruct (Nat.eqb_spec p i), (Nat.eqb_spec q i), (Nat.eqb_spec q m),
      (Nat.eqb_spec p m), (Nat.ltb_spec q m), (Nat.ltb_spec p m),
      (Nat.ltb_spec q (S m)), (Nat.ltb_spec p (S m));
      simpl; try reflexivity; try lia; subst; try lia; reflexivity.
Qed.

(** ** Symmetric arrays *)




Lemma is_mat_transpose p (A : list (list R)) :
  is_mat p p A -> is_mat p p (transpose A).
Proof.
  intros HA. unfold transpose, nrows. rewrite (proj1 HA).
  destruct (Nat.eq_dec p 0%nat) as [-> | Hp].
  - rewrite (is_mat_nil 0 A HA). apply (is_mat_mk_mat 0 0).
  - rewrite (ncols_is_mat p p A HA) by lia. apply is_mat_mk_mat.
Qed.

Lemma mget_transpose p (A : list (list R)) i j :
  is_mat p p A -> (i < p)%nat -> (j < p)%nat ->
  mget (transpose A) i j = mget A j i.
Proof.
  intros HA Hi Hj. unfold transpose, nrows. rewrite (proj1 HA).
  rewrite (ncols_is_mat p p A HA) by lia. now rewrite mget_mk_mat.
Qed.





Lemma det_2x2 a b c d : det [[a; b]; [c; d]] = a * d - b * c.
Proof. unfold det. simpl. unfold sum_upto, vget. simpl. ring. Qed.

(** The inverse of a 2×2 array is its inverse. *)
Lemma np_inv_2x2 a b c d :
  a * d - b * c <> 0 ->
  exists Ai, np_inv [[a; b]; [c; d]] = Ok Ai /\
             matmul [[a; b]; [c; d]] Ai = identity 2 /\
             matmul Ai [[a; b]; [c; d]] = identity 2.
Proof.
  intros Hd. unfold np_inv. rewrite det_2x2.
  destruct (Req_dec_T (a * d - b * c) 0); [contradiction |].
  eexists. split; [reflexivity |].
  unfold cofactor, det.
  split;
    cbv [matmul identity mk_mat nrows ncols sum_upto mget vget map seq length hd
         nth fold_right drop_nth take drop app det_rec Nat.add Nat.eqb pow];
    repeat f_equal; field; assumption.
Qed.

(** ** Products of square arrays *)

Lemma sum_upto_plus n f g :
  sum_upto n (fun i => f i + g i) = sum_upto n f + sum_upto n g.
Proof.
  induction n as [| n IH]; [unfold sum_upto; simpl; ring |].
  rewrite !sum_upto_S, IH. ring.
Qed.

Lemma sum_upto_scal_l n c f : sum_upto n (fun i => c * f i) = c * sum_upto n f.
Proof.
  induction n as [| n IH]; [unfold sum_upto; simpl; ring |].
  rewrite !sum_upto_S, IH. ring.
Qed.

Lemma sum_upto_swap n m (f : nat -> nat -> R) :
  sum_upto n (fun i => sum_upto m (fun j => f i j))
  = sum_upto m (fun j => sum_upto n (fun i => f i j)).
Proof.
  induction n as [| n IH].
  - transitivity 0; [reflexivity |].
    symmetry. apply sum_upto_zero. reflexivity.
  - rewrite sum_upto_S, IH, <- sum_upto_plus.
    apply sum_upto_ext. intros j _. now rewrite sum_upto_S.
Qed.

Lemma mget_matmul p (A B : list (list R)) i j :
  is_mat p p A -> is_mat p p B -> (i < p)%nat -> (j < p)%nat ->
  mget (matmul A B) i j = sum_upto p (fun l => mget A i l * mget B l j).
Proof.
  intros HA HB Hi Hj. unfold matmul, nrows. rewrite (proj1 HA).
  rewrite (ncols_is_mat p p A HA), (ncols_is_mat p p B HB) by lia.
  now rewrite mget_mk_mat.
Qed.

Lemma is_mat_matmul p (A B : list (list R)) :
  is_mat p p A -> is_mat p p B -> is_mat p p (matmul A B).
Proof.
  intros HA HB. unfold matmul, nrows. rewrite (proj1 HA).
  destruct (Nat.eq_dec p 0%nat) as [-> | Hp].
  - rewrite (is_mat_nil 0 B HB). apply (is_mat_mk_mat 0 0).
  - rewrite (ncols_is_mat p p B HB) by lia. apply is_mat_mk_mat.
Qed.

Lemma matmul_assoc p (A B C : list (list R)) :
  is_mat p p A -> is_mat p p B -> is_mat p p C ->
  matmul (matmul A B) C = matmul A (matmul B C).
Proof.
  intros HA HB HC.
  apply (mat_ext p p); try (repeat apply is_mat_matmul; assumption).
  intros i j Hi Hj.
  rewrite (mget_matmul p (matmul A B)) by (try apply is_mat_matmul; assumption).
  rewrite (mget_matmul p A) by (try apply is_mat_matmul; assumption).
  transitivity (sum_upto p (fun l =>
                  sum_upto p (fun m => mget A i m * mget B m l * mget C l j))).
  - apply sum_upto_ext. intros l Hl. rewrite (mget_matmul p) by assumption.
    rewrite Rmult_comm, <- sum_upto_scal_l. apply sum_upto_ext. intros; ring.
  - rewrite sum_upto_swap. apply sum_upto_ext. intros m Hm.
    rewrite (mget_matmul p) by assumption. rewrite <- sum_upto_scal_l.
    apply sum_upto_ext. intros; ring.
Qed.

Lemma transpose_matmul p (A B : list (list R)) :
  is_mat p p A -> is_mat p p B ->
  transpose (matmul A B) = matmul (transpose B) (transpose A).
Proof.
  intros HA HB.
  pose proof (is_mat_matmul p A B HA HB) as HAB.
  pose proof (is_mat_transpose p A HA) as HAt.
  pose proof (is_mat_transpose p B HB) as HBt.
  apply (mat_ext p p);
    [now apply is_mat_transpose | now apply is_mat_matmul |].
  intros i j Hi Hj.
  rewrite (mget_transpose p), !(mget_matmul p) by assumption.
  apply sum_upto_ext. intros l Hl.
  rewrite !(mget_transpose p) by assumption. ring.
Qed.

Lemma length_matvec p (A : list (list R)) (v : list R) :
  is_mat p p A -> length (matvec A v) = p.
Proof. intros HA. unfold matvec, nrows. now rewrite length_mk_vec, (proj1 HA). Qed.

Lemma vget_matvec p (A : list (list R)) (v : list R) i :
  is_mat p p A -> (i < p)%nat ->
  vget (matvec A v) i = sum_upto p (fun l => mget A i l * vget v l).
Proof.
  intros HA Hi. unfold matvec, nrows. rewrite (proj1 HA).
  rewrite (ncols_is_mat p p A HA) by lia. now rewrite vget_mk_vec.
Qed.

Lemma matvec_matmul p (A B : list (list R)) (v : list R) :
  is_mat p p A -> is_mat p p B ->
  matvec (matmul A B) v = matvec A (matvec B v).
Proof.
  intros HA HB. pose proof (is_mat_matmul p A B HA HB) as HAB.
  apply vec_ext; [now rewrite !(length_matvec p) |].
  rewrite (length_matvec p) by assumption. intros i Hi.
  rewrite !(vget_matvec p) by assumption.
  transitivity (sum_upto p (fun l =>
                  sum_upto p (fun m => mget A i m * mget B m l * vget v l))).
  - apply sum_upto_ext. intros l Hl. rewrite (mget_matmul p) by assumption.
    rewrite Rmult_comm, <- sum_upto_scal_l. apply sum_upto_ext. intros; ring.
  - rewrite sum_upto_swap. apply sum_upto_ext. intros m Hm.
    rewrite (vget_matvec p) by assumption. rewrite <- sum_upto_scal_l.
    apply sum_upto_ext. intros; ring.
Qed.

Lemma mpow_S p (G : list (list R)) n :
  is_mat p p G -> mpow G (S n) = matmul (mpow G n) G.
Proof.
  intros HG. destruct n as [| n]; [| reflexivity].
  simpl. unfold nrows. rewrite (proj1 HG). symmetry.
  now apply (matmul_identity_l p p).
Qed.

Lemma is_mat_mpow p (G : list (list R)) n :
  is_mat p p G -> is_mat p p (mpow G n).
Proof.
  intros HG. induction n as [| n IH].
  - simpl. unfold nrows. rewrite (proj1 HG). apply is_mat_mk_mat.
  - rewrite (mpow_S p) by assumption. now apply is_mat_matmul.
Qed.

(** The prior moments at horizon 1 are the snapshot's. *)
Lemma spec_horizon_one p sn discount :
  snapshot_shape p sn ->
  spec_a_k sn 1 = snap_a sn /\ spec_R_k sn discount 1 = snap_R sn.
Proof.
  intros (Hpa & HpR & HpG & HpW & HpF). unfold spec_a_k, spec_R_k.
  simpl Z.to_nat. simpl mpow.
  assert (Hn : nrows (snap_G sn) = p) by apply HpG.
  rewrite Hn, transpose_identity, (matmul_identity_l p p) by assumption.
  rewrite (matmul_identity_r p p), matvec_identity by assumption.
  split; [reflexivity |].
  destruct discount; [| reflexivity].
  now rewrite (madd_mscale_zero p p).
Qed.

(** Without discounting, the moments at horizon [k + 1] are those at
    horizon [k] of the snapshot one step later. *)
Lemma spec_evolve p sn k :
  snapshot_shape p sn -> (1 <= k)%Z ->
  spec_a_k sn (k + 1) = spec_a_k (evolve sn) k /\
  spec_R_k sn false (k + 1) = spec_R_k (evolve sn) false k.
Proof.
  intros (Hpa & HpR & HpG & HpW & HpF) Hk. unfold spec_a_k, spec_R_k, evolve.
  cbn [snap_a snap_R snap_G].
  replace (Z.to_nat (k + 1 - 1)) with (S (Z.to_nat (k - 1))) by lia.
  set (n := Z.to_nat (k - 1)).
  pose proof (is_mat_mpow p (snap_G sn) n HpG) as Hn.
  pose proof (is_mat_transpose p _ HpG) as HGt.
  pose proof (is_mat_transpose p _ Hn) as Hnt.
  rewrite (mpow_S p) by assumption. split.
  - now apply (matvec_matmul p).
  - rewrite (transpose_matmul p) by assumption.
    rewrite (matmul_assoc p (mpow (snap_G sn) n)) by assumption.
    rewrite (matmul_assoc p (mpow (snap_G sn) n))
      by (repeat apply is_mat_matmul; assumption).
    rewrite (matmul_assoc p (mpow (snap_G sn) n))
      by (repeat apply is_mat_matmul; assumption).
    f_equal.
    rewrite <- (matmul_assoc p (matmul (snap_G sn) (snap_R sn)))
      by (repeat apply is_mat_matmul; assumption).
    reflexivity.
Qed.

(** ** Sums with the zero vector, reflections *)

Lemma vadd_zeros (mean v : list R) :
  vadd mean (vadd (replicate (length mean) 0) v) = vadd mean v.
Proof.
  revert v. induction mean as [| m mean IH]; intros [| x v]; simpl;
    try reflexivity.
  unfold vadd in *. simpl. rewrite IH. f_equal. ring.
Qed.

Lemma map_zip_with {A B C D} (h : C -> D) (f : A -> B -> C) (l : list A)
    (k : list B) :
  map h (zip_with f l k) = zip_with (fun x y => h (f x y)) l k.
Proof.
  revert k. induction l as [| x l IH]; intros [| y k]; simpl; try reflexivity.
  now rewrite IH.
Qed.

Lemma zip_with_ext_all {A B C} (f g : A -> B -> C) (l : list A) (k : list B) :
  (forall x y, f x y = g x y) -> zip_with f l k = zip_with g l k.
Proof.
  intros H. revert k. induction l as [| x l IH]; intros [| y k]; simpl;
    try reflexivity.
  now rewrite IH, H.
Qed.


Lemma vsub_reflect (mean y : list R) :
  vsub (reflect mean y) mean = map Ropp (vsub y mean).
Proof.
  unfold vsub, reflect. revert y.
  induction mean as [| m mean IH]; intros [| x y]; simpl; try reflexivity.
  rewrite IH. f_equal. ring.
Qed.

Lemma vget_map_opp (d : list R) l : vget (map Ropp d) l = - vget d l.
Proof.
  unfold vget. revert l. induction d as [| a d IH]; intros [| l]; simpl;
    try ring; try reflexivity. apply IH.
Qed.

(** The quadratic form [d.T @ S @ d] is even in [d]. *)
Lemma quadratic_form_even (d : list R) (S : list (list R)) :
  dot (vecmat (map Ropp d) S) (map Ropp d) = dot (vecmat d S) d.
Proof.
  unfold dot, vecmat. rewrite !length_mk_vec, !length_map.
  apply sum_upto_ext. intros l Hl.
  rewrite !vget_mk_vec by assumption. rewrite !vget_map_opp.
  assert (H : sum_upto (length d) (fun q => vget (map Ropp d) q * mget S q l)
              = -1 * sum_upto (length d) (fun q => vget d q * mget S q l)).
  { rewrite <- sum_upto_scal_l. apply sum_upto_ext. intros q Hq.
    rewrite vget_map_opp. ring. }
  rewrite H. ring.
Qed.


(** ** Boolean masks *)

Lemma not_missing_compress (y : list npfloat) :
  not_missing (compress (not_missing y) y)
  = replicate (length (compress (not_missing y) y)) true.
Proof.
  unfold not_missing. induction y as [| x y IH]; simpl; [reflexivity |].
  destruct (np_isnan x) eqn:Hx; simpl; [exact IH |].
  now rewrite Hx, IH.
Qed.

Lemma compress_all_true {A} (l : list A) :
  compress (replicate (length l) true) l = l.
Proof. induction l as [| x l IH]; simpl; [reflexivity | now rewrite IH]. Qed.

Lemma nonzero_all_true i m : nonzero_from i (replicate m true) = seq i m.
Proof. revert i. induction m as [| m IH]; intros i; simpl; [reflexivity | now rewrite IH]. Qed.

Lemma nonzero_from_bound i (mask : list bool) :
  Forall (fun j => (j < i + length mask)%nat) (nonzero_from i mask).
Proof.
  revert i. induction mask as [| b mask IH]; intros i; simpl; [constructor |].
  assert (H : Forall (fun j => (j < i + S (length mask))%nat)
                     (nonzero_from (S i) mask)).
  { eapply Forall_impl; [apply (IH (S i)) |]. simpl. intros; lia. }
  destruct b; [constructor; [lia | exact H] | exact H].
Qed.

Lemma take_idx_all {A} (pre l : list A) :
  take_idx (pre ++ l) (seq (length pre) (length l)) = Ok l.
Proof.
  revert pre. induction l as [| x l IH]; intros pre; simpl; [reflexivity |].
  rewrite list_lookup_middle by reflexivity.
  replace (pre ++ x :: l) with ((pre ++ [x]) ++ l) by now rewrite <- app_assoc.
  replace (S (length pre)) with (length (pre ++ [x]))
    by (rewrite length_app; simpl; lia).
  now rewrite IH.
Qed.

Lemma take_idx_seq {A} (l : list A) : take_idx l (seq 0 (length l)) = Ok l.
Proof. exact (take_idx_all [] l). Qed.

Lemma take_idx_bounded {A} (l : list A) idx :
  Forall (fun j => (j < length l)%nat) idx ->
  exists xs, take_idx l idx = Ok xs /\ Forall (fun x => In x l) xs.
Proof.
  induction 1 as [| j idx Hj _ (xs & Hxs & Hin)]; simpl.
  - exists []. split; [reflexivity | constructor].
  - destruct (lookup_lt_is_Some_2 l j Hj) as [x Hx]. rewrite Hx, Hxs.
    exists (x :: xs). split; [reflexivity |]. constructor; [| assumption].
    apply list_elem_of_In, list_elem_of_lookup. eauto.
Qed.

Lemma map_res_id {A} (f : A -> res A) (l : list A) :
  Forall (fun x => f x = Ok x) l -> map_res f l = Ok l.
Proof.
  induction 1 as [| x l Hx _ IH]; simpl; [reflexivity |]. now rewrite Hx, IH.
Qed.

Lemma map_res_total {A B} (f : A -> res B) (l : list A) :
  Forall (fun x => exists y, f x = Ok y) l -> exists ys, map_res f l = Ok ys.
Proof.
  induction 1 as [| x l [y Hy] _ [ys IH]]; simpl; [now exists [] |].
  rewrite Hy, IH. now eexists.
Qed.

(** A mask of the array's size selects from a square array without error;
    the mask that is everywhere true selects the array itself. *)
Lemma ix_index_total n (A : list (list R)) mask :
  is_mat n n A -> length mask = n -> exists A', ix_index A mask = Ok A'.
Proof.
  intros [Hr Hc] Hl. unfold ix_index.
  pose proof (nonzero_from_bound 0 mask) as Hb. simpl in Hb. rewrite Hl in Hb.
  destruct (take_idx_bounded A (nonzero_from 0 mask)) as (rows & -> & Hin).
  { now rewrite Hr. }
  apply map_res_total. rewrite List.Forall_forall in *.
  intros row Hrow.
  destruct (take_idx_bounded row (nonzero_from 0 mask)) as (xs & Hxs & _).
  { rewrite (Hc row) by now apply Hin. apply List.Forall_forall, Hb. }
  now exists xs.
Qed.

Lemma ix_index_all_true n (A : list (list R)) :
  is_mat n n A -> ix_index A (replicate n true) = Ok A.
Proof.
  intros [Hr Hc]. subst n. unfold ix_index. rewrite nonzero_all_true.
  rewrite take_idx_seq.
  apply map_res_id. eapply Forall_impl; [exact Hc |]. simpl. intros row <-.
  apply take_idx_seq.
Qed.

Lemma bool_index_all_true {A} (l : list A) :
  bool_index l (replicate (length l) true) = Ok l.
Proof.
  unfold bool_index. now rewrite length_replicate, Nat.eqb_refl, compress_all_true.
Qed.

(** ** Running the primitives *)

Section Properties.

Context {param rng : Type}.
Implicit Types (mdl : Model param rng) (s : state rng) (h : list ndarray).

Lemma bind_ok {A B} (c : M rng A) (k : A -> M rng B) s x s' :
  c s = (Ok x, s') -> bind c k s = k x s'.
Proof. intros H. unfold bind. now rewrite H. Qed.

Lemma load_ok l v s : heap s !! l = Some v -> load l s = (Ok v, s).
Proof. intros H. unfold load. now rewrite H. Qed.

Lemma load_vec_ok l v s :
  heap s !! l = Some (NdVec v) -> load_vec l s = (Ok v, s).
Proof. intros H. unfold load_vec, bind, load. now rewrite H. Qed.

Lemma load_mat_ok l v s :
  heap s !! l = Some (NdMat v) -> load_mat l s = (Ok v, s).
Proof. intros H. unfold load_mat, bind, load. now rewrite H. Qed.

Lemma store_ok l v s :
  (l < length (heap s))%nat ->
  store l v s = (Ok tt, mkState (<[l := v]> (heap s)) (gen s)).
Proof.
  intros H. unfold store.
  destruct (lookup_lt_is_Some_2 _ _ H) as [w ->]. reflexivity.
Qed.

Lemma matrix_power_nonneg A n :
  (0 <= n)%Z -> matrix_power A n = Ok (mpow A (Z.to_nat n)).
Proof.
  intros Hn. unfold matrix_power.
  destruct (Z.ltb_spec n 0); [lia |]. now rewrite Zabs2Nat.abs_nat_nonneg.
Qed.

Lemma bind_ret {A B} (x : A) (k : A -> M rng B) s : bind (ret x) k s = k x s.
Proof. reflexivity. Qed.

Lemma bind_alloc {B} v (k : loc -> M rng B) s :
  bind (alloc v) k s = k (length (heap s)) (mkState (heap s ++ [v]) (gen s)).
Proof. reflexivity. Qed.

Lemma bind_bind {A B C} (c : M rng A) (k : A -> M rng B) (k' : B -> M rng C) s :
  bind (bind c k) k' s = bind c (fun x => bind (k x) k') s.
Proof. unfold bind. destruct (c s) as [[x | e] s']; reflexivity. Qed.

Lemma lookup_snoc_length {A} (l : list A) x : (l ++ [x]) !! length l = Some x.
Proof. now apply list_lookup_middle. Qed.

(** Lookups in a store that grew by allocation. *)
Ltac heap_lookup :=
  cbn [heap gen];
  first
    [ eassumption
    | apply lookup_snoc_length
    | apply lookup_app_l_Some; heap_lookup ].

Ltac run_load :=
  erewrite bind_ok;
  [| first [ apply load_mat_ok; solve [heap_lookup]
           | apply load_vec_ok; solve [heap_lookup]
           | apply load_ok; solve [heap_lookup] ] ].

Lemma forecast_aR_run_power mdl s sn k Gk :
  snapshot_at mdl (heap s) sn ->
  matrix_power (snap_G sn) (k - 1) = Ok Gk ->
  forecast_aR mdl k s =
    (Ok (length (heap s), S (length (heap s))),
     mkState
       (heap s ++
          [NdVec (matvec Gk (snap_a sn));
           NdMat (let Rk := matmul (matmul Gk (snap_R sn)) (transpose Gk) in
                  if discount_forecast mdl
                  then madd Rk (mscale (IZR (k - 1)) (snap_W sn)) else Rk)])
       (gen s)).
Proof.
  intros (Ha & HR & HG & HW & HF) Hk.
  unfold forecast_aR.
  run_load. rewrite Hk. simpl lift. rewrite bind_ret.
  run_load. rewrite bind_alloc. run_load. rewrite bind_alloc.
  cbn [heap gen]. rewrite length_app, Nat.add_1_r. cbn [length].
  destruct (discount_forecast mdl).
  - rewrite bind_bind. run_load. rewrite bind_bind.
    erewrite bind_ok;
      [| apply load_mat_ok; cbn [heap gen]; apply list_lookup_middle;
         now rewrite length_app, Nat.add_1_r ].
    erewrite bind_ok;
      [| apply store_ok; cbn [heap gen]; rewrite !length_app; simpl; lia ].
    unfold ret. cbn [heap gen]. do 2 f_equal.
    rewrite <- (Nat.add_0_r (S (length (heap s)))).
    replace (S (length (heap s)) + 0)%nat
      with (length (heap s ++ [NdVec (matvec Gk (snap_a sn))]) + 0)%nat
      by (rewrite length_app; simpl; lia).
    rewrite insert_app_r. simpl. now rewrite <- app_assoc.
  - rewrite bind_ret. unfold ret. now rewrite <- app_assoc.
Qed.

Lemma forecast_aR_run_raise mdl s sn k e :
  snapshot_at mdl (heap s) sn ->
  matrix_power (snap_G sn) (k - 1) = Raise e ->
  forecast_aR mdl k s = (Raise e, s).
Proof.
  intros (Ha & HR & HG & HW & HF) Hk.
  unfold forecast_aR. run_load. now rewrite Hk.
Qed.

Lemma forecast_aR_run mdl s sn k :
  snapshot_at mdl (heap s) sn -> (1 <= k)%Z ->
  forecast_aR mdl k s =
    (Ok (length (heap s), S (length (heap s))),
     mkState (heap s ++ [NdVec (spec_a_k sn k);
                         NdMat (spec_R_k sn (discount_forecast mdl) k)])
             (gen s)).
Proof.
  intros Hsn Hk. apply forecast_aR_run_power; [assumption |].
  apply matrix_power_nonneg. lia.
Qed.

Lemma lookup_alloc_fst {A} (h : list A) x y : (h ++ [x; y]) !! length h = Some x.
Proof. now apply list_lookup_middle. Qed.

Lemma lookup_alloc_snd {A} (h : list A) x y : (h ++ [x; y]) !! S (length h) = Some y.
Proof.
  rewrite (app_assoc _ [_] [_] : h ++ [_; _] = (h ++ [_]) ++ [_]).
  apply list_lookup_middle. rewrite length_app. simpl. lia.
Qed.


(** C5 (amended). [forecast_aR] makes no check of the horizon.  For
    [k >= 1] it returns for every snapshot.  For [k < 1] the power
    [G^(k-1)] is a power of the inverse of [G]: the call raises LinAlgError
    when [G] is singular and otherwise returns the moments built from
    [(G^-1)^(1-k)]. *)
Theorem forecast_aR_no_horizon_check mdl s sn k :
  snapshot_at mdl (heap s) sn ->
  ((1 <= k)%Z -> is_ok (fst (forecast_aR mdl k s))) /\
  ((k < 1)%Z -> det (snap_G sn) = 0 ->
     forecast_aR mdl k s = (Raise LinAlgError, s)) /\
  ((k < 1)%Z -> det (snap_G sn) <> 0 ->
     exists Gi la lR s',
       np_inv (snap_G sn) = Ok Gi /\
       forecast_aR mdl k s = (Ok (la, lR), s') /\
       heap s' !! la
         = Some (NdVec (matvec (mpow Gi (Z.to_nat (1 - k))) (snap_a sn))) /\
       heap s' !! lR
         = Some (NdMat
                   (let Gk := mpow Gi (Z.to_nat (1 - k)) in
                    let Rk := matmul (matmul Gk (snap_R sn)) (transpose Gk) in
                    if discount_forecast mdl
                    then madd Rk (mscale (IZR (k - 1)) (snap_W sn)) else Rk))).
Proof.
  intros Hsn. split; [| split].
  - intros Hk. now rewrite (forecast_aR_run mdl s sn k Hsn Hk).
  - intros Hk Hdet. apply (forecast_aR_run_raise mdl s sn k _ Hsn).
    unfold matrix_power, np_inv.
    destruct (Z.ltb_spec (k - 1) 0); [| lia].
    destruct (Req_dec_T (det (snap_G sn)) 0); [reflexivity | contradiction].
  - intros Hk Hdet.
    assert (Hpow : exists Gi, np_inv (snap_G sn) = Ok Gi /\
              matrix_power (snap_G sn) (k - 1) = Ok (mpow Gi (Z.to_nat (1 - k)))).
    { unfold matrix_power, np_inv.
      destruct (Z.ltb_spec (k - 1) 0); [| lia].
      destruct (Req_dec_T (det (snap_G sn)) 0); [contradiction |].
      eexists. split; [reflexivity |]. do 2 f_equal.
      rewrite Zabs2Nat.abs_nat_spec. f_equal. lia. }
    destruct Hpow as (Gi & HGi & Hpow).
    exists Gi. eexists _, _, _. split; [exact HGi |].
    split; [exact (forecast_aR_run_power mdl s sn k _ Hsn Hpow) |].
    cbn [heap gen]. split; [apply lookup_alloc_fst | apply lookup_alloc_snd].
Qed.

(** ** Frame rules *)

Lemma take_eq_length {A} n (h h' : list A) :
  (n <= length h)%nat -> take n h' = take n h -> (n <= length h')%nat.
Proof.
  intros Hn He. apply (f_equal length) in He.
  rewrite !length_take in He. lia.
Qed.

Lemma frame_ret {A} n (x : A) (Q : A -> Prop) : Q x -> frame n (ret (rng:=rng) x) Q.
Proof. intros HQ s Hs. split; [reflexivity |]. simpl. now intros y [= <-]. Qed.

Lemma frame_raise {A} n e (Q : A -> Prop) : frame n (raise (rng:=rng) e) Q.
Proof. intros s Hs. split; [reflexivity |]. simpl. intros; discriminate. Qed.

Lemma frame_lift {A} n (r : res A) (Q : A -> Prop) :
  (forall x, r = Ok x -> Q x) -> frame n (lift (rng:=rng) r) Q.
Proof.
  intros HQ. destruct r; [apply frame_ret; auto | apply frame_raise].
Qed.

Lemma frame_bind {A B} n (c : M rng A) (k : A -> M rng B) P Q :
  frame n c P -> (forall x, P x -> frame n (k x) Q) -> frame n (bind c k) Q.
Proof.
  intros Hc Hk s Hs. destruct (Hc s Hs) as [Ht HP]. unfold bind.
  destruct (c s) as [[x | e] s1]; simpl in *.
  - destruct (Hk x (HP x eq_refl) s1 (take_eq_length _ _ _ Hs Ht)) as [Ht' HQ].
    split; [congruence | assumption].
  - split; [assumption | intros; discriminate].
Qed.

Lemma frame_weaken {A} n (c : M rng A) (P Q : A -> Prop) :
  frame n c P -> (forall x, P x -> Q x) -> frame n c Q.
Proof. intros Hc HPQ s Hs. destruct (Hc s Hs). split; auto. Qed.

Lemma frame_alloc n v : frame n (alloc (rng:=rng) v) (fun l => (n <= l)%nat).
Proof.
  intros s Hs. simpl. split.
  - now rewrite take_app_le.
  - now intros x [= <-].
Qed.

Lemma frame_load n l : frame n (load (rng:=rng) l) (fun _ => True).
Proof.
  intros s Hs. unfold load. destruct (heap s !! l); simpl; auto.
Qed.

Lemma frame_load_vec n l : frame n (load_vec (rng:=rng) l) (fun _ => True).
Proof.
  eapply frame_bind; [apply frame_load |].
  intros [v | m] _; [now apply frame_ret | apply frame_raise].
Qed.

Lemma frame_load_mat n l : frame n (load_mat (rng:=rng) l) (fun _ => True).
Proof.
  eapply frame_bind; [apply frame_load |].
  intros [v | m] _; [apply frame_raise | now apply frame_ret].
Qed.

Lemma frame_store n l v :
  (n <= l)%nat -> frame n (store (rng:=rng) l v) (fun _ => True).
Proof.
  intros Hl s Hs. unfold store. destruct (heap s !! l); simpl; auto.
  split; [now apply take_insert_ge | auto].
Qed.

Lemma frame_draw {A} n (f : rng -> A * rng) : frame n (draw f) (fun _ => True).
Proof. intros s Hs. unfold draw. destruct (f (gen s)). simpl. auto. Qed.

Lemma frame_draw_res {A} n (f : rng -> res A * rng) :
  frame n (draw_res f) (fun _ => True).
Proof. intros s Hs. unfold draw_res. destruct (f (gen s)). simpl. auto. Qed.

Lemma frame_np_copy n l : frame n (np_copy (rng:=rng) l) (fun l' => (n <= l')%nat).
Proof.
  eapply frame_bind; [apply frame_load |]. intros v _. apply frame_alloc.
Qed.

Lemma frame_for_each {A S} n (xs : list A) (body : A -> S -> M rng S)
    (I : S -> Prop) acc :
  (forall x a, I a -> frame n (body x a) I) -> I acc ->
  frame n (for_each xs body acc) I.
Proof.
  intros Hbody. revert acc. induction xs as [| x xs IH]; intros acc Hacc; simpl.
  - now apply frame_ret.
  - eapply frame_bind; [apply Hbody; assumption |]. intros a Ha. now apply IH.
Qed.

Lemma frame_map_M {A B} n (f : A -> M rng B) (xs : list A) :
  (forall x, frame n (f x) (fun _ => True)) ->
  frame n (map_M f xs) (fun _ => True).
Proof.
  intros Hf. induction xs as [| x xs IH]; simpl.
  - now apply frame_ret.
  - eapply frame_bind; [apply Hf |]. intros y _.
    eapply frame_bind; [apply IH |]. intros ys _. now apply frame_ret.
Qed.

Create HintDb frame.

Ltac frame_prim :=
  first [ apply frame_load_vec | apply frame_load_mat | apply frame_load
        | apply frame_alloc | apply frame_np_copy
        | apply frame_store; lia
        | apply frame_draw | apply frame_draw_res
        | apply (frame_lift _ _ (fun _ => True)); auto
        | solve [eauto with frame] ].

Ltac frame_go :=
  repeat match goal with
    | H : _ /\ _ |- _ => destruct H
    | |- frame _ (bind (if ?b then _ else _) _) _ =>
        eapply frame_bind; [destruct b | cbv beta; intros ? ?]
    | |- frame _ (bind _ _) _ =>
        eapply frame_bind; [solve [frame_prim] | cbv beta; intros ? ?]
    | |- frame _ (ret _) _ => apply frame_ret
    | |- frame _ (raise _) _ => apply frame_raise
    | |- frame _ (if ?b then _ else _) _ => destruct b
    | |- frame _ (match ?x with _ => _ end) _ => destruct x
    | |- frame _ (let '(_, _) := ?x in _) _ => destruct x
    | |- frame _ _ _ => solve [frame_prim]
    | |- frame _ _ _ =>
        eapply frame_weaken; [solve [frame_prim] | cbv beta; intros; auto]
    end.

Lemma frame_forecast_aR n mdl k :
  frame n (forecast_aR mdl k) (fun w => (n <= fst w)%nat /\ (n <= snd w)%nat).
Proof. unfold forecast_aR. frame_go; simpl; auto. Qed.

Lemma frame_setitem_rows n lF idx col :
  (n <= lF)%nat -> frame n (setitem_rows (rng:=rng) lF idx col) (fun _ => True).
Proof. intros H. unfold setitem_rows. frame_go; auto. Qed.

Lemma frame_plug_in_X n mdl lF X :
  (n <= lF)%nat -> frame n (plug_in_X mdl lF X) (fun _ => True).
Proof.
  intros H. unfold plug_in_X. frame_go; auto.
  now apply frame_setitem_rows.
Qed.

Lemma frame_plug_in_row n mdl lF X i :
  (n <= lF)%nat -> frame n (plug_in_row mdl lF X i) (fun _ => True).
Proof.
  intros H. unfold plug_in_row. frame_go; auto.
  now apply frame_setitem_rows.
Qed.

#[local] Hint Resolve frame_forecast_aR frame_setitem_rows frame_plug_in_X
  frame_plug_in_row : frame.

Lemma frame_forecast_marginal n mdl k X nsamps mean_only smv :
  frame n (forecast_marginal mdl k X nsamps mean_only smv) (fun _ => True).
Proof. unfold forecast_marginal. frame_go; auto. Qed.

Lemma frame_forecast_state_mean_and_var n mdl k X :
  frame n (forecast_state_mean_and_var mdl k X) (fun _ => True).
Proof. unfold forecast_state_mean_and_var. frame_go; auto. Qed.

Lemma frame_forecast_marginal_dens_MC n mdl k X nsamps y :
  frame n (forecast_marginal_dens_MC mdl k X nsamps y) (fun _ => True).
Proof. unfold forecast_marginal_dens_MC. frame_go; auto. Qed.

Lemma frame_forecast_marginal_bindglm n mdl nn k X nsamps mean_only :
  frame n (forecast_marginal_bindglm mdl nn k X nsamps mean_only) (fun _ => True).
Proof. unfold forecast_marginal_bindglm. frame_go; auto. Qed.

Lemma frame_setitem1 n l i x :
  (n <= l)%nat -> frame n (setitem1 (rng:=rng) l i x) (fun _ => True).
Proof. intros H. unfold setitem1. frame_go; auto. Qed.

Lemma frame_setitem2 n l i j x :
  (n <= l)%nat -> frame n (setitem2 (rng:=rng) l i j x) (fun _ => True).
Proof. intros H. unfold setitem2. frame_go; auto. Qed.

Lemma frame_getitem2 n l i j : frame n (getitem2 (rng:=rng) l i j) (fun _ => True).
Proof. unfold getitem2. frame_go; auto. Qed.

Lemma frame_setcol n l j col :
  (n <= l)%nat -> frame n (setcol (rng:=rng) l j col) (fun _ => True).
Proof. intros H. unfold setcol. frame_go; auto. Qed.

#[local] Hint Resolve frame_setitem1 frame_setitem2 frame_getitem2
  frame_setcol : frame.

Lemma frame_forecast_path_update n mdl X lF lsamps ns i w :
  (n <= lF)%nat -> (n <= lsamps)%nat ->
  frame n (forecast_path_update mdl X lF lsamps ns i w) (fun _ => True).
Proof.
  intros HF Hs. destruct w as [[[p1 p2] la] lR].
  unfold forecast_path_update. frame_go; simpl; auto.
Qed.

Lemma frame_forecast_path_propagate n mdl m C :
  frame n (forecast_path_propagate mdl m C)
        (fun r => (n <= fst r)%nat /\ (n <= snd r)%nat).
Proof. unfold forecast_path_propagate. frame_go; simpl; auto. Qed.

Lemma frame_forecast_path_step n mdl X lF lsamps ns i w :
  (n <= lF)%nat -> (n <= lsamps)%nat ->
  (n <= snd (fst w))%nat /\ (n <= snd w)%nat ->
  frame n (forecast_path_step mdl X lF lsamps ns i w)
        (fun w' => (n <= snd (fst w'))%nat /\ (n <= snd w')%nat).
Proof.
  intros HF Hs Hw. unfold forecast_path_step.
  eapply frame_bind; [now apply frame_forecast_path_update |]. intros u _.
  eapply frame_bind; [apply frame_forecast_path_propagate |]. intros r Hr.
  now apply frame_ret.
Qed.

Lemma frame_working_copy n mdl :
  frame n (working_copy mdl)
        (fun w => (n <= snd (fst w))%nat /\ (n <= snd w)%nat).
Proof. unfold working_copy. frame_go; simpl; auto. Qed.

Lemma frame_forecast_path_sample n mdl k X lF lsamps ns :
  (n <= lF)%nat -> (n <= lsamps)%nat ->
  frame n (forecast_path_sample mdl k X lF lsamps ns) (fun _ => True).
Proof.
  intros HF Hs. unfold forecast_path_sample.
  eapply frame_bind; [apply frame_working_copy |]. intros w Hw.
  eapply frame_bind; [| intros; now apply frame_ret].
  apply (frame_for_each n _ _
           (fun w => (n <= snd (fst w))%nat /\ (n <= snd w)%nat)).
  - intros i w' Hw'. now apply frame_forecast_path_step.
  - assumption.
Qed.

Lemma frame_forecast_path n mdl k X nsamps :
  frame n (forecast_path mdl k X nsamps) (fun _ => True).
Proof.
  unfold forecast_path. frame_go; auto.
  eapply frame_bind; [| intros; apply frame_load_mat].
  apply (frame_for_each n _ _ (fun _ => True)); [| exact I].
  intros ns [] _. now apply frame_forecast_path_sample.
Qed.

Lemma frame_forecast_path_approx_cov n mdl lcov Flist Rlist i j u :
  (n <= lcov)%nat ->
  frame n (forecast_path_approx_cov mdl lcov Flist Rlist i j u) (fun _ => True).
Proof. intros H. unfold forecast_path_approx_cov. frame_go; auto. Qed.

Lemma frame_forecast_path_approx_step n mdl X lF lmu lcov i w :
  (n <= lF)%nat -> (n <= lmu)%nat -> (n <= lcov)%nat ->
  frame n (forecast_path_approx_step mdl X lF lmu lcov i w) (fun _ => True).
Proof.
  intros HF Hmu Hcov. destruct w as [Flist Rlist].
  unfold forecast_path_approx_step. frame_go; auto.
  eapply frame_bind; [| intros; now apply frame_ret].
  apply (frame_for_each n _ _ (fun _ => True)); [| exact I].
  intros j [] _. now apply frame_forecast_path_approx_cov.
Qed.

Lemma frame_forecast_path_approx_moments n mdl k X :
  frame n (forecast_path_approx_moments mdl k X) (fun _ => True).
Proof.
  unfold forecast_path_approx_moments. frame_go; auto.
  eapply frame_bind; [| intros; frame_go; auto].
  apply (frame_for_each n _ _ (fun _ => True)); [| exact I].
  intros i w _. now apply frame_forecast_path_approx_step.
Qed.

(** ** Stores that extend the caller's *)

Lemma lookup_extends h h' l (v : ndarray) :
  take (length h) h' = h -> h !! l = Some v -> h' !! l = Some v.
Proof.
  intros Ht Hl. rewrite <- Ht in Hl.
  apply lookup_take_Some in Hl. tauto.
Qed.

Lemma snapshot_at_extends mdl h h' sn :
  take (length h) h' = h -> snapshot_at mdl h sn -> snapshot_at mdl h' sn.
Proof.
  intros Ht (Ha & HR & HG & HW & HF).
  repeat split; eapply lookup_extends; eassumption.
Qed.

(** ** Running the steps of forecast_path_approx *)

Lemma np_copy_run l v s :
  heap s !! l = Some v ->
  np_copy l s = (Ok (length (heap s)), mkState (heap s ++ [v]) (gen s)).
Proof. intros H. unfold np_copy. run_load. reflexivity. Qed.

Lemma setitem1_run l (v : list R) i x s :
  heap s !! l = Some (NdVec v) -> (i < length v)%nat ->
  setitem1 l i x s
  = (Ok tt, mkState (<[l := NdVec (<[i := x]> v)]> (heap s)) (gen s)).
Proof.
  intros Hl Hi. unfold setitem1. run_load.
  destruct (Nat.ltb_spec i (length v)); [| lia].
  apply store_ok. now apply lookup_lt_Some in Hl.
Qed.

Lemma setitem2_run r c l (A : list (list R)) i j x s :
  heap s !! l = Some (NdMat A) -> is_mat r c A -> (i < r)%nat -> (j < c)%nat ->
  setitem2 l i j x s
  = (Ok tt, mkState (<[l := NdMat (mset A i j x)]> (heap s)) (gen s)).
Proof.
  intros Hl [Hr Hc] Hi Hj. unfold setitem2. run_load.
  assert (Hrow : A !! i = Some (nth i A [])).
  { destruct (nth_lookup_or_length A i []) as [H | H]; [exact H | lia]. }
  rewrite Hrow.
  assert (Hlen : length (nth i A []) = c).
  { rewrite List.Forall_forall in Hc. apply Hc, nth_In. lia. }
  destruct (Nat.ltb_spec j (length (nth i A []))); [| lia].
  apply store_ok. now apply lookup_lt_Some in Hl.
Qed.

Lemma forallb_ltb (idx : list nat) n :
  Forall (fun j => (j < n)%nat) idx -> forallb (fun i => Nat.ltb i n) idx = true.
Proof.
  induction 1 as [| j idx Hj _ IH]; simpl; [reflexivity |].
  rewrite IH. destruct (Nat.ltb_spec j n); [reflexivity | lia].
Qed.

Lemma setitem_rows_run lF (Fv : list R) idx (col : list R) s :
  heap s !! lF = Some (NdVec Fv) ->
  Forall (fun j => (j < length Fv)%nat) idx -> length idx = length col ->
  setitem_rows lF idx col s
  = (Ok tt, mkState (<[lF := NdVec (set_rows Fv idx col)]> (heap s)) (gen s)).
Proof.
  intros Hl Hidx Hlen. unfold setitem_rows. run_load.
  rewrite forallb_ltb by assumption.
  assert (Hcol : match col with [x] => replicate (length idx) x | _ => col end = col).
  { destruct col as [| x [| y col]]; try reflexivity. now rewrite Hlen. }
  rewrite Hcol, Hlen, Nat.eqb_refl.
  apply store_ok. now apply lookup_lt_Some in Hl.
Qed.

Lemma agree_off_nil_eq (F F' : list R) : agree_off [] F F' -> F = F'.
Proof. intros [_ H]. apply list_eq. intros p. apply H. intros []. Qed.

(** The regressors of row [i] plugged into a working copy of [F] that
    differs from the snapshot's at most at the rows [iregn]. *)
Lemma plug_in_row_run mdl sn K X lF (Fcur : list R) i s :
  regressors_ok mdl sn K X -> (i < K)%nat ->
  heap s !! lF = Some (NdVec Fcur) -> agree_off (iregn mdl) Fcur (snap_F sn) ->
  exists s',
    plug_in_row mdl lF X i s = (Ok tt, s') /\
    heap s' = <[lF := NdVec (F_at mdl sn X i)]> (heap s) /\ gen s' = gen s.
Proof.
  intros (Hlen & Hidx & HX) Hi Hl Hag. unfold plug_in_row, F_at.
  destruct (Nat.ltb_spec 0 (nregn mdl)) as [Hpos | Hzero].
  - destruct (HX Hpos) as (A & -> & Hrows).
    destruct (Hrows i Hi) as (x & Hx & Hxl).
    simpl getrow. rewrite Hx. simpl lift. rewrite bind_ret.
    unfold reshape. rewrite Hxl, Nat.eqb_refl. simpl lift. rewrite bind_ret.
    rewrite (setitem_rows_run lF Fcur) by
      (try assumption; try congruence; now rewrite (proj1 Hag)).
    eexists. split; [reflexivity |]. cbn [heap gen]. split; [| reflexivity].
    rewrite (nth_lookup_Some _ _ _ _ Hx).
    now rewrite (set_rows_agree Fcur (snap_F sn)) by (try assumption; lia).
  - exists s. split; [reflexivity |]. split; [| reflexivity].
    assert (Hnil : iregn mdl = []) by (destruct (iregn mdl); [reflexivity | simpl in *; lia]).
    rewrite Hnil in Hag. apply agree_off_nil_eq in Hag. subst Fcur.
    symmetry. now apply list_insert_id.
Qed.

Lemma approx_cov_run mdl lcov Flist Rlist i j K s
    (G Rj cov : list (list R)) (Fj Fi : list R) fj fi rj :
  heap s !! mod_G mdl = Some (NdMat G) ->
  Rlist !! j = Some (Some rj) -> heap s !! rj = Some (NdMat Rj) ->
  Flist !! j = Some (Some fj) -> heap s !! fj = Some (NdVec Fj) ->
  Flist !! i = Some (Some fi) -> heap s !! fi = Some (NdVec Fi) ->
  heap s !! lcov = Some (NdMat cov) -> is_mat K K cov ->
  (i < K)%nat -> (j < i)%nat ->
  forecast_path_approx_cov mdl lcov Flist Rlist i j tt s
  = (Ok tt,
     mkState
       (<[lcov := NdMat (let c := dot (vecmat Fj (matmul (mpow G (i - j)) Rj)) Fi in
                         mset (mset cov j i c) i j c)]> (heap s))
       (gen s)).
Proof.
  intros HG HRl Hrj HFj Hfj HFi Hfi Hcov Hshape Hi Hj.
  unfold forecast_path_approx_cov.
  run_load. rewrite matrix_power_nonneg by lia. simpl lift. rewrite bind_ret.
  replace (Z.to_nat (Z.of_nat i - Z.of_nat j)) with (i - j)%nat by lia.
  unfold getref. rewrite HRl. simpl lift. rewrite bind_ret. run_load.
  rewrite HFj. simpl lift. rewrite bind_ret. run_load.
  rewrite HFi. simpl lift. rewrite bind_ret. run_load.
  erewrite bind_ok; [| apply (setitem2_run K K _ cov); try eassumption; lia].
  erewrite (setitem2_run K K);
    [| cbn [heap gen]; apply list_lookup_insert_eq; now apply lookup_lt_Some in Hcov
     | now apply is_mat_mset | lia | lia].
  cbn [heap gen]. now rewrite list_insert_insert_eq.
Qed.

Lemma bind_ext {A B} (c : M rng A) (k k' : A -> M rng B) s :
  (forall x s1, k x s1 = k' x s1) -> bind c k s = bind c k' s.
Proof.
  intros H. unfold bind. destruct (c s) as [[x | e] s1]; [apply H | reflexivity].
Qed.

Lemma for_each_app {A S} (xs ys : list A) (body : A -> S -> M rng S) acc s :
  for_each (xs ++ ys) body acc s
  = bind (for_each xs body acc) (fun acc' => for_each ys body acc') s.
Proof.
  revert acc s. induction xs as [| x xs IH]; intros acc s; simpl; [reflexivity |].
  rewrite bind_bind. apply bind_ext. intros a s1. apply IH.
Qed.

Lemma approx_cov_loop mdl lcov Flist Rlist i K (c : nat -> R)
    (G : list (list R)) fi (Fi : list R) m s (cov : list (list R)) :
  heap s !! mod_G mdl = Some (NdMat G) -> mod_G mdl <> lcov ->
  Flist !! i = Some (Some fi) -> heap s !! fi = Some (NdVec Fi) -> fi <> lcov ->
  (forall j, (j < i)%nat ->
     exists fj rj (Fj : list R) (Rj : list (list R)),
       Flist !! j = Some (Some fj) /\ Rlist !! j = Some (Some rj) /\
       fj <> lcov /\ rj <> lcov /\
       heap s !! fj = Some (NdVec Fj) /\ heap s !! rj = Some (NdMat Rj) /\
       c j = dot (vecmat Fj (matmul (mpow G (i - j)) Rj)) Fi) ->
  heap s !! lcov = Some (NdMat cov) -> is_mat K K cov ->
  (i < K)%nat -> (m <= i)%nat ->
  exists s',
    for_each (seq 0 m) (forecast_path_approx_cov mdl lcov Flist Rlist i) tt s
      = (Ok tt, s') /\
    heap s' = <[lcov := NdMat (cross_fill c i m cov)]> (heap s) /\
    gen s' = gen s.
Proof.
  intros HG HGne HFi Hfi Hfine Hprev Hcov Hshape Hi.
  induction m as [| m IH]; intros Hm.
  - exists s. split; [reflexivity |]. split; [| reflexivity].
    symmetry. now apply list_insert_id.
  - destruct (IH ltac:(lia)) as (s1 & Hrun & Hheap & Hgen).
    destruct (Hprev m ltac:(lia)) as (fj & rj & Fj & Rj & HFj & HRj & Hfjne & Hrjne
                                      & Hfj & Hrj & Hc).
    rewrite seq_S, for_each_app. simpl "+".
    rewrite (bind_ok _ _ _ _ _ Hrun). simpl for_each.
    assert (Hlt : (lcov < length (heap s))%nat) by now apply lookup_lt_Some in Hcov.
    erewrite bind_ok;
      [| apply (approx_cov_run mdl lcov Flist Rlist i m K s1 G Rj
                          (cross_fill c i m cov) Fj Fi fj fi rj);
         rewrite ?Hheap, ?list_lookup_insert_ne by auto;
         try eassumption; try lia;
         [ now apply list_lookup_insert_eq | now apply is_mat_cross_fill ] ].
    eexists. split; [reflexivity |]. cbn [heap gen]. split; [| assumption].
    rewrite Hheap, list_insert_insert_eq. simpl. now rewrite Hc.
Qed.

Ltac len_lia := rewrite ?length_insert, ?length_app; simpl; lia.

Lemma approx_step_run mdl sn X K h0 i w s :
  snapshot_at mdl h0 sn -> regressors_ok mdl sn K X -> (i < K)%nat ->
  approx_inv mdl sn X K h0 i w s ->
  exists w' s',
    forecast_path_approx_step mdl X (S (S (length h0))) (length h0)
                              (S (length h0)) i w s = (Ok w', s') /\
    approx_inv mdl sn X K h0 (S i) w' s'.
Proof.
  intros Hsn0 HX Hi (Htake & (mu & Hmu & Hmul & Hmuv) & (cov & Hcov & Hcovs & Hcovv)
                     & (Fcur & HF & Hag) & HlF & HlR & Hprev).
  destruct w as [Flist Rlist]. simpl in HlF, HlR, Hprev.
  set (n0 := length h0) in *.
  pose proof (snapshot_at_extends mdl h0 (heap s) sn Htake Hsn0) as Hsn.
  assert (Hn : (S (S n0) < length (heap s))%nat) by now apply lookup_lt_Some in HF.
  assert (Hlocs : (mod_G mdl < n0)%nat).
  { destruct Hsn0 as (_ & _ & HG & _). now apply lookup_lt_Some in HG. }
  unfold forecast_path_approx_step.
  rewrite (bind_ok _ _ _ _ _ (forecast_aR_run mdl s sn (Z.of_nat i + 1) Hsn ltac:(lia))).
  set (av := spec_a_k sn (Z.of_nat i + 1)).
  set (Rv := spec_R_k sn (discount_forecast mdl) (Z.of_nat i + 1)).
  destruct (plug_in_row_run mdl sn K X (S (S n0)) Fcur i
              (mkState (heap s ++ [NdVec av; NdMat Rv]) (gen s)) HX Hi
              ltac:(cbn [heap]; now apply lookup_app_l_Some) Hag)
    as (s2 & Hrun2 & Hheap2 & Hgen2).
  cbn [heap gen] in Hheap2, Hgen2.
  rewrite (bind_ok _ _ _ _ _ Hrun2).
  set (Fi := F_at mdl sn X i) in *.
  assert (HF2 : heap s2 !! S (S n0) = Some (NdVec Fi)).
  { rewrite Hheap2. apply list_lookup_insert_eq. len_lia. }
  rewrite (bind_ok _ _ _ _ _ (np_copy_run _ _ _ HF2)).
  erewrite bind_ok; [| apply load_vec_ok; cbn [heap]; apply lookup_app_l_Some; exact HF2].
  erewrite bind_ok;
    [| apply (load_vec_ok _ av); cbn [heap]; apply lookup_app_l_Some;
       rewrite Hheap2, list_lookup_insert_ne by lia; apply lookup_alloc_fst].
  erewrite bind_ok;
    [| apply (load_mat_ok _ Rv); cbn [heap]; apply lookup_app_l_Some;
       rewrite Hheap2, list_lookup_insert_ne by lia; apply lookup_alloc_snd].
  assert (Hmom : lambda_moments mdl sn X i = get_mean_and_var mdl Fi av Rv)
    by reflexivity.
  destruct (get_mean_and_var mdl Fi av Rv) as [ft qt].
  assert (Hlen2 : length (heap s2) = S (S (length (heap s))))
    by (rewrite Hheap2; len_lia).
  assert (Hold : forall l v, heap s !! l = Some v -> l <> S (S n0) ->
                   (heap s2 ++ [NdVec Fi]) !! l = Some v).
  { intros l v Hl Hne. apply lookup_app_l_Some.
    rewrite Hheap2, list_lookup_insert_ne by auto. now apply lookup_app_l_Some. }
  rewrite (bind_ok _ _ _ _ _
             (setitem1_run n0 mu i ft
                (mkState (heap s2 ++ [NdVec Fi]) (gen s2))
                (Hold _ _ Hmu ltac:(lia)) ltac:(lia))).
  cbn [heap gen].
  set (h4 := <[n0 := NdVec (<[i := ft]> mu)]> (heap s2 ++ [NdVec Fi])).
  assert (Hlen4 : length h4 = S (S (S (length (heap s)))))
    by (unfold h4; rewrite length_insert, length_app, Hlen2; simpl; lia).
  assert (Hcov4 : h4 !! S n0 = Some (NdMat cov)).
  { unfold h4. rewrite list_lookup_insert_ne by lia. apply Hold; [assumption | lia]. }
  rewrite (bind_ok _ _ _ _ _
             (setitem2_run K K (S n0) cov i i qt (mkState h4 (gen s2))
                Hcov4 Hcovs Hi Hi)).
  cbn [heap gen].
  set (cov1 := mset cov i i qt).
  set (h5 := <[S n0 := NdMat cov1]> h4).
  assert (Hold5 : forall l v, heap s !! l = Some v -> (S (S n0) < l)%nat \/ (l < n0)%nat ->
                    h5 !! l = Some v).
  { intros l v Hl Hne. unfold h5, h4.
    rewrite !list_lookup_insert_ne by lia. apply Hold; [assumption | lia]. }
  assert (Hnew : h5 !! length (heap s2) = Some (NdVec Fi)).
  { unfold h5, h4. rewrite !list_lookup_insert_ne by lia. apply lookup_snoc_length. }
  assert (HnewR : h5 !! S (length (heap s)) = Some (NdMat Rv)).
  { unfold h5, h4. rewrite !list_lookup_insert_ne by lia.
    apply lookup_app_l_Some. rewrite Hheap2, list_lookup_insert_ne by lia.
    apply lookup_alloc_snd. }
  destruct (approx_cov_loop mdl (S n0)
              (<[i := Some (length (heap s2))]> Flist)
              (<[i := Some (S (length (heap s)))]> Rlist)
              i K (fun j => lambda_cross mdl sn X j i) (snap_G sn)
              (length (heap s2)) Fi i (mkState h5 (gen s2)) cov1)
    as (s6 & Hrun6 & Hheap6 & Hgen6); cbn [heap gen]; try lia.
  - apply Hold5; [apply Hsn | lia].
  - apply list_lookup_insert_eq. lia.
  - exact Hnew.
  - intros j Hj. destruct (Hprev j Hj) as (fj & rj & HFj & HRj & Hfj & Hrj & Hhf & Hhr).
    exists fj, rj, (F_at mdl sn X j),
      (spec_R_k sn (discount_forecast mdl) (Z.of_nat j + 1)).
    rewrite !list_lookup_insert_ne by lia.
    repeat split; try assumption; try lia.
    + apply Hold5; [assumption | lia].
    + apply Hold5; [assumption | lia].
  - unfold h5. apply list_lookup_insert_eq. lia.
  - unfold cov1. now apply is_mat_mset.
  - rewrite (bind_ok _ _ _ _ _ Hrun6). unfold ret.
    eexists _, _. split; [reflexivity |].
    cbn [heap gen] in Hheap6, Hgen6.
    assert (Hh6 : heap s6 = <[S n0 := NdMat (cross_fill (fun j => lambda_cross mdl sn X j i)
                                                     i i cov1)]> h4).
    { rewrite Hheap6. unfold h5. apply list_insert_insert_eq. }
    set (cov2 := cross_fill (fun j => lambda_cross mdl sn X j i) i i cov1) in *.
    assert (Hold6 : forall l v, h5 !! l = Some v -> l <> S n0 -> heap s6 !! l = Some v).
    { intros l v Hl Hne. rewrite Hheap6. now rewrite list_lookup_insert_ne by auto. }
    unfold approx_inv. cbv zeta. change (length h0) with n0. cbn [fst snd].
    split; [| split; [| split; [| split; [| split; [| split]]]]].
    + rewrite Hh6. unfold h4. rewrite !take_insert_ge by lia.
      rewrite take_app_le by lia. rewrite Hheap2, take_insert_ge by lia.
      rewrite take_app_le; [exact Htake |].
      apply lookup_lt_Some in Hmu. lia.
    + exists (<[i := ft]> mu). split; [| split].
      * apply Hold6; [| lia]. unfold h5. rewrite list_lookup_insert_ne by lia.
        unfold h4. apply list_lookup_insert_eq. len_lia.
      * now rewrite length_insert.
      * intros j Hj. unfold vget. rewrite nth_lookup.
        destruct (Nat.eq_dec j i) as [-> | Hne].
        -- rewrite list_lookup_insert_eq by lia. simpl. now rewrite Hmom.
        -- rewrite list_lookup_insert_ne by auto. rewrite <- nth_lookup.
           apply Hmuv. lia.
    + exists cov2. split; [| split].
      * rewrite Hheap6. apply list_lookup_insert_eq. unfold h5. len_lia.
      * unfold cov2, cov1. now apply is_mat_cross_fill, is_mat_mset.
      * intros p q Hp Hq. unfold cov2.
        rewrite (mget_cross_fill K) by (try apply is_mat_mset; auto).
        unfold cov1. rewrite (mget_mset K K) by assumption.
        unfold spec_lambda_cov. rewrite mget_mk_mat by lia.
        destruct (Nat.eqb_spec p i), (Nat.eqb_spec q i), (Nat.eqb_spec p q),
          (Nat.ltb_spec q i), (Nat.ltb_spec p i), (Nat.ltb_spec p q);
          simpl; try subst p; try subst q; try lia; try reflexivity.
        -- now rewrite Hmom.
        -- rewrite Hcovv by lia. unfold spec_lambda_cov.
           rewrite mget_mk_mat by lia. now rewrite Nat.eqb_refl.
        -- rewrite Hcovv by lia. unfold spec_lambda_cov.
           rewrite mget_mk_mat by lia.
           destruct (Nat.eqb_spec p q), (Nat.ltb_spec p q); try lia; reflexivity.
        -- rewrite Hcovv by lia. unfold spec_lambda_cov.
           rewrite mget_mk_mat by lia.
           destruct (Nat.eqb_spec p q), (Nat.ltb_spec p q); try lia; reflexivity.
    + exists Fi. split.
      * apply Hold6; [| lia]. unfold h5, h4. rewrite !list_lookup_insert_ne by lia.
        now apply lookup_app_l_Some.
      * unfold Fi, F_at. destruct (Nat.ltb 0 (nregn mdl)); [| apply agree_off_refl].
        destruct X; [apply agree_off_set_rows | apply agree_off_refl].
    + now rewrite length_insert.
    + now rewrite length_insert.
    + intros j Hj. destruct (Nat.eq_dec j i) as [-> | Hne].
      * exists (length (heap s2)), (S (length (heap s))).
        rewrite !list_lookup_insert_eq by lia.
        repeat split; try lia.
        -- apply Hold6; [exact Hnew | lia].
        -- apply Hold6; [exact HnewR | lia].
      * destruct (Hprev j ltac:(lia)) as (fj & rj & HFj & HRj & Hfj & Hrj & Hhf & Hhr).
        exists fj, rj. rewrite !list_lookup_insert_ne by auto.
        repeat split; try assumption.
        -- apply Hold6; [| lia]. apply Hold5; [assumption | lia].
        -- apply Hold6; [| lia]. apply Hold5; [assumption | lia].
Qed.

Lemma approx_loop_run mdl sn X K h0 m w s :
  snapshot_at mdl h0 sn -> regressors_ok mdl sn K X -> (m <= K)%nat ->
  approx_inv mdl sn X K h0 0 w s ->
  exists w' s',
    for_each (seq 0 m)
             (forecast_path_approx_step mdl X (S (S (length h0))) (length h0)
                                        (S (length h0))) w s = (Ok w', s') /\
    approx_inv mdl sn X K h0 m w' s'.
Proof.
  intros Hsn HX Hm Hinv. induction m as [| m IH].
  - exists w, s. split; [reflexivity | assumption].
  - destruct (IH ltac:(lia)) as (w1 & s1 & Hrun1 & Hinv1).
    destruct (approx_step_run mdl sn X K h0 m w1 s1 Hsn HX ltac:(lia) Hinv1)
      as (w2 & s2 & Hrun2 & Hinv2).
    exists w2, s2. split; [| assumption].
    rewrite seq_S, for_each_app, (bind_ok _ _ _ _ _ Hrun1). simpl.
    now rewrite (bind_ok _ _ _ _ _ Hrun2).
Qed.

Lemma is_mat_zeros r c : is_mat r c (replicate r (replicate c 0)).
Proof.
  split; [apply length_replicate |].
  apply List.Forall_forall. intros row Hrow.
  apply list_elem_of_In, elem_of_replicate in Hrow as [-> _].
  apply length_replicate.
Qed.

(** The joint moments built by lines 103-134, for regressors that fit. *)
Lemma forecast_path_approx_moments_run mdl sn X k s :
  snapshot_at mdl (heap s) sn -> (0 <= k)%Z ->
  regressors_ok mdl sn (Z.to_nat k) X ->
  exists s',
    forecast_path_approx_moments mdl k X s
    = (Ok (spec_lambda_mu mdl sn X (Z.to_nat k),
           spec_lambda_cov mdl sn X (Z.to_nat k)), s').
Proof.
  intros Hsn Hk HX. set (K := Z.to_nat k) in *.
  unfold forecast_path_approx_moments, np_zeros1, np_zeros2.
  destruct (Z.ltb_spec k 0); [lia |]. simpl orb. cbv iota.
  simpl lift. rewrite bind_ret, bind_alloc, bind_ret, bind_alloc.
  cbn [heap gen].
  set (h2 := (heap s ++ [NdVec (replicate K 0)])
               ++ [NdMat (replicate K (replicate K 0))]).
  assert (HF : h2 !! mod_F mdl = Some (NdVec (snap_F sn))).
  { unfold h2. do 2 apply lookup_app_l_Some. apply Hsn. }
  rewrite (bind_ok _ _ _ _ _ (np_copy_run _ _ (mkState h2 (gen s)) HF)).
  cbn [heap gen].
  assert (Hl2 : length h2 = S (S (length (heap s)))) by (unfold h2; len_lia).
  rewrite Hl2.
  destruct (approx_loop_run mdl sn X K (heap s) K
              (replicate K None, replicate K None)
              (mkState (h2 ++ [NdVec (snap_F sn)]) (gen s)) Hsn HX (le_n _))
    as ([Flist Rlist] & s1 & Hrun & Hinv).
  { unfold approx_inv. cbn [heap gen fst snd].
    split; [| split; [| split; [| split; [| split; [| split]]]]].
    - unfold h2. rewrite <- !app_assoc. apply take_app_length.
    - exists (replicate K 0). split; [| split].
      + unfold h2. rewrite <- !app_assoc. now apply list_lookup_middle.
      + apply length_replicate.
      + intros j Hj. lia.
    - exists (replicate K (replicate K 0)). split; [| split].
      + apply lookup_app_l_Some. unfold h2. apply list_lookup_middle. len_lia.
      + apply is_mat_zeros.
      + intros p q Hp. lia.
    - exists (snap_F sn). split; [| apply agree_off_refl].
      apply list_lookup_middle. lia.
    - apply length_replicate.
    - apply length_replicate.
    - intros j Hj. lia. }
  unfold range. change (Z.to_nat k) with K.
  rewrite !(length_app (heap s)). simpl length. rewrite !Nat.add_1_r.
  rewrite (bind_ok _ _ _ _ _ Hrun).
  destruct Hinv as (_ & (mu & Hmu & Hmul & Hmuv) & (cov & Hcov & Hcovs & Hcovv) & _).
  rewrite (bind_ok _ _ _ _ _ (load_vec_ok _ _ _ Hmu)).
  rewrite (bind_ok _ _ _ _ _ (load_mat_ok _ _ _ Hcov)).
  exists s1. unfold ret. do 3 f_equal.
  - apply vec_ext; [unfold spec_lambda_mu; now rewrite length_mk_vec |].
    intros j Hj. rewrite Hmuv by lia. unfold spec_lambda_mu.
    now rewrite vget_mk_vec by lia.
  - apply (mat_ext K K); [assumption | apply is_mat_mk_mat |].
    intros p q Hp Hq. now apply Hcovv.
Qed.

(** ** Running the marginal forecaster and the propagation step *)

Lemma plug_in_X_run mdl sn X lF i (x : option (list R)) s :
  regressors_ok mdl sn (S i) X -> x = row_regressors X i ->
  heap s !! lF = Some (NdVec (snap_F sn)) ->
  exists s',
    plug_in_X mdl lF x s = (Ok tt, s') /\
    heap s' = <[lF := NdVec (F_at mdl sn X i)]> (heap s) /\ gen s' = gen s.
Proof.
  intros (Hlen & Hidx & HX) -> Hl. unfold plug_in_X, F_at.
  destruct (Nat.ltb_spec 0 (nregn mdl)) as [Hpos | Hzero].
  - destruct (HX Hpos) as (A & -> & Hrows).
    destruct (Hrows i ltac:(lia)) as (r & Hr & Hrl).
    simpl row_regressors. rewrite Hr. simpl lift. rewrite bind_ret.
    unfold reshape. rewrite Hrl, Nat.eqb_refl. simpl lift. rewrite bind_ret.
    rewrite (setitem_rows_run lF (snap_F sn)) by (try assumption; congruence).
    eexists. split; [reflexivity |]. cbn [heap gen]. split; [| reflexivity].
    now rewrite (nth_lookup_Some _ _ _ _ Hr).
  - exists s. split; [reflexivity |]. split; [| reflexivity].
    symmetry. now apply list_insert_id.
Qed.

Lemma forecast_state_mean_and_var_run mdl sn X i s :
  snapshot_at mdl (heap s) sn -> regressors_ok mdl sn (S i) X ->
  exists s',
    forecast_state_mean_and_var mdl (Z.of_nat i + 1) (row_regressors X i) s
    = (Ok (lambda_moments mdl sn X i), s').
Proof.
  intros Hsn HX. unfold forecast_state_mean_and_var.
  rewrite (bind_ok _ _ _ _ _ (np_copy_run _ _ s (proj2 (proj2 (proj2 (proj2 Hsn)))))).
  destruct (plug_in_X_run mdl sn X (length (heap s)) i (row_regressors X i)
              (mkState (heap s ++ [NdVec (snap_F sn)]) (gen s)) HX eq_refl
              ltac:(cbn [heap]; apply lookup_snoc_length))
    as (s2 & Hrun2 & Hheap2 & Hgen2).
  cbn [heap gen] in Hheap2, Hgen2.
  rewrite (bind_ok _ _ _ _ _ Hrun2).
  assert (Htake : take (length (heap s)) (heap s2) = heap s).
  { rewrite Hheap2, take_insert_ge by lia. apply take_app_length. }
  pose proof (snapshot_at_extends mdl _ _ sn Htake Hsn) as Hsn2.
  rewrite (bind_ok _ _ _ _ _
             (forecast_aR_run mdl s2 sn (Z.of_nat i + 1) Hsn2 ltac:(lia))).
  assert (Hlen2 : length (heap s2) = S (length (heap s)))
    by (rewrite Hheap2; len_lia).
  erewrite bind_ok;
    [| apply (load_vec_ok _ (F_at mdl sn X i)); cbn [heap];
       apply lookup_app_l_Some; rewrite Hheap2;
       apply list_lookup_insert_eq; len_lia].
  erewrite bind_ok; [| apply load_vec_ok; cbn [heap]; apply lookup_alloc_fst].
  erewrite bind_ok; [| apply load_mat_ok; cbn [heap]; apply lookup_alloc_snd].
  eexists. reflexivity.
Qed.

Lemma forecast_path_propagate_run mdl sn m C s :
  snapshot_at mdl (heap s) sn ->
  exists la lR s',
    forecast_path_propagate mdl m C s = (Ok (la, lR), s') /\
    heap s' !! la = Some (NdVec (matvec (snap_G sn) m)) /\
    heap s' !! lR
    = Some (NdMat
              (let R1 := matmul (matmul (snap_G sn) C) (transpose (snap_G sn)) in
               let R2 := mmap (fun x => x / 2) (madd R1 (transpose R1)) in
               if discount_forecast mdl then madd R2 (snap_W sn) else R2)).
Proof.
  intros (Ha & HR & HG & HW & HF). unfold forecast_path_propagate.
  run_load. rewrite !bind_alloc. cbn [heap gen].
  erewrite bind_ok; [| apply load_mat_ok; cbn [heap]; apply lookup_snoc_length].
  rewrite bind_alloc. cbn [heap gen].
  set (R1 := matmul (matmul (snap_G sn) C) (transpose (snap_G sn))).
  set (R2 := mmap (fun x => x / 2) (madd R1 (transpose R1))).
  set (h3 := ((heap s ++ [NdVec (matvec (snap_G sn) m)]) ++ [NdMat R1]) ++ [NdMat R2]).
  assert (Hla : h3 !! length (heap s) = Some (NdVec (matvec (snap_G sn) m))).
  { unfold h3. rewrite <- !app_assoc. now apply list_lookup_middle. }
  destruct (discount_forecast mdl).
  - rewrite bind_bind.
    erewrite bind_ok; [| apply load_mat_ok; cbn [heap]; apply lookup_snoc_length].
    rewrite bind_bind.
    erewrite bind_ok;
      [| apply load_mat_ok; cbn [heap]; unfold h3; do 3 apply lookup_app_l_Some;
         exact HW].
    rewrite bind_alloc. unfold ret. eexists _, _, _. split; [reflexivity |].
    cbn [heap gen]. split; [now apply lookup_app_l_Some | apply lookup_snoc_length].
  - rewrite bind_ret. unfold ret. eexists _, _, _. split; [reflexivity |].
    cbn [heap gen]. split; [exact Hla | apply lookup_snoc_length].
Qed.


(** C3. For regressors that fit the model, the joint moments built by
    [forecast_path_approx] over the horizon [k] carry, at the [i]-th
    diagonal entry of [lambda_cov] ([i] from 1 to [k]), the variance [qt]
    that [forecast_state_mean_and_var] returns at horizon [i] with the
    regressors of step [i] (and at the [i]-th entry of [lambda_mu] its mean
    [ft]). *)
Theorem lambda_cov_diag_is_marginal_qt mdl sn X k s :
  snapshot_at mdl (heap s) sn -> (0 <= k)%Z ->
  regressors_ok mdl sn (Z.to_nat k) X ->
  exists lambda_mu lambda_cov s',
    forecast_path_approx_moments mdl k X s = (Ok (lambda_mu, lambda_cov), s') /\
    forall i, (1 <= i <= Z.to_nat k)%nat ->
      exists ft qt si,
        forecast_state_mean_and_var mdl (Z.of_nat i) (row_regressors X (i - 1)) s
        = (Ok (ft, qt), si) /\
        mget lambda_cov (i - 1) (i - 1) = qt /\
        vget lambda_mu (i - 1) = ft.
Proof.
  intros Hsn Hk HX.
  destruct (forecast_path_approx_moments_run mdl sn X k s Hsn Hk HX) as (s' & Hrun).
  eexists _, _, _. split; [exact Hrun |].
  intros i Hi.
  assert (HXi : regressors_ok mdl sn (S (i - 1)) X).
  { destruct HX as (H1 & H2 & H3). repeat split; try assumption.
    intros Hpos. destruct (H3 Hpos) as (A & HA & Hrows).
    exists A. split; [assumption |]. intros j Hj. apply Hrows. lia. }
  destruct (forecast_state_mean_and_var_run mdl sn X (i - 1) s Hsn HXi) as (si & Hsi).
  replace (Z.of_nat (i - 1) + 1)%Z with (Z.of_nat i) in Hsi by lia.
  destruct (lambda_moments mdl sn X (i - 1)) as [ft qt] eqn:Hm.
  exists ft, qt, si. split; [exact Hsi |]. split.
  - unfold spec_lambda_cov. rewrite mget_mk_mat by lia.
    now rewrite Nat.eqb_refl, Hm.
  - unfold spec_lambda_mu. rewrite vget_mk_vec by lia. now rewrite Hm.
Qed.


Section WithLibrary.

Variable lib : Library rng.

Lemma frame_multivariate_t n mean scale nu nsamps :
  frame n (multivariate_t lib mean scale nu nsamps) (fun _ => True).
Proof. unfold multivariate_t. frame_go; auto. Qed.

#[local] Hint Resolve frame_multivariate_t : frame.

Lemma frame_joint_draw n lambda_mu lambda_cov nsamps t_dist nu :
  frame n (joint_draw lib lambda_mu lambda_cov nsamps t_dist nu) (fun _ => True).
Proof. unfold joint_draw. frame_go; auto. Qed.

#[local] Hint Resolve frame_joint_draw : frame.

Lemma frame_forecast_path_approx_sim n mdl k lambda_mu lambda_cov nsamps t_dist nu :
  frame n (forecast_path_approx_sim lib mdl k lambda_mu lambda_cov nsamps t_dist nu)
        (fun _ => True).
Proof.
  unfold forecast_path_approx_sim. frame_go; auto.
  eapply frame_bind; [| intros; now apply frame_ret].
  apply frame_map_M. intros prior. apply frame_draw.
Qed.

Lemma frame_forecast_path_approx_dens_MC n mdl y lambda_mu lambda_cov t_dist nu nsamps :
  frame n (forecast_path_approx_dens_MC lib mdl y lambda_mu lambda_cov t_dist nu nsamps)
        (fun _ => True).
Proof. unfold forecast_path_approx_dens_MC. frame_go; auto. Qed.

#[local] Hint Resolve frame_forecast_path_approx_moments
  frame_forecast_path_approx_sim frame_forecast_path_approx_dens_MC : frame.

Lemma frame_forecast_path_approx n mdl k X nsamps t_dist y nu :
  frame n (forecast_path_approx lib mdl k X nsamps t_dist y nu) (fun _ => True).
Proof. unfold forecast_path_approx. frame_go; auto. Qed.

Lemma frame_forecast_joint_approx_sim n (mod_list : list (Model param rng))
    lambda_mu lambda_cov nsamps t_dist nu :
  frame n (forecast_joint_approx_sim lib mod_list lambda_mu lambda_cov nsamps t_dist nu)
        (fun _ => True).
Proof.
  unfold forecast_joint_approx_sim. frame_go; auto.
  eapply frame_bind; [| intros; now apply frame_ret].
  apply frame_map_M. intros prior. unfold with_mod.
  destruct (mod_after_loop mod_list); [apply frame_draw | apply frame_raise].
Qed.

Lemma frame_forecast_joint_approx_dens_MC n (mod_list : list (Model param rng))
    y lambda_mu lambda_cov t_dist nu nsamps :
  frame n (forecast_joint_approx_dens_MC lib mod_list y lambda_mu lambda_cov
                                         t_dist nu nsamps)
        (fun _ => True).
Proof. unfold forecast_joint_approx_dens_MC. frame_go; auto. Qed.

Lemma frame_column_draw n mean cov :
  frame n (column_draw lib mean cov) (fun _ => True).
Proof. unfold column_draw. frame_go; auto. Qed.

#[local] Hint Resolve frame_column_draw : frame.

Lemma frame_forecast_path_normaldlm_step n mdl X lF lsamps nsamps i w :
  (n <= lF)%nat -> (n <= lsamps)%nat ->
  frame n (forecast_path_normaldlm_step lib mdl X lF lsamps nsamps i w)
        (fun _ => True).
Proof.
  intros HF Hs. destruct w as [v thetas].
  unfold forecast_path_normaldlm_step. frame_go; auto.
  eapply frame_bind; [| intros; now apply frame_ret].
  apply frame_map_M. intros tv. frame_go; auto.
Qed.

Lemma frame_forecast_path_normaldlm n mdl k X nsamps :
  frame n (forecast_path_normaldlm lib mdl k X nsamps) (fun _ => True).
Proof.
  unfold forecast_path_normaldlm. frame_go; auto.
  eapply frame_bind; [apply frame_map_M; intros; apply frame_column_draw |].
  intros thetas _.
  eapply frame_bind; [| intros; apply frame_load_mat].
  apply (frame_for_each n _ _ (fun _ => True)); [| exact I].
  intros i w _. now apply frame_forecast_path_normaldlm_step.
Qed.

(** ** The caller's store after a call *)

Lemma frame_store_unchanged {A} (c : M rng A) Q s :
  frame (length (heap s)) c Q ->
  take (length (heap s)) (heap (snd (c s))) = heap s.
Proof.
  intros H. destruct (H s (le_n _)) as [Ht _]. now rewrite Ht, take_ge.
Qed.

Lemma state_after_store (c : call param rng) s :
  take (length (heap s)) (heap (state_after lib c s)) = heap s.
Proof.
  destruct c; simpl; eapply frame_store_unchanged.
  - apply frame_forecast_aR.
  - apply frame_forecast_marginal.
  - apply frame_forecast_path.
  - apply frame_forecast_path_approx.
  - apply frame_forecast_marginal_bindglm.
  - apply frame_forecast_path_normaldlm.
  - apply frame_forecast_path_approx_sim.
  - apply frame_forecast_path_approx_dens_MC.
  - apply frame_forecast_joint_approx_sim.
  - apply frame_forecast_joint_approx_dens_MC.
  - apply frame_forecast_state_mean_and_var.
  - apply frame_forecast_marginal_dens_MC.
Qed.

Lemma working_copy_run mdl s sn :
  snapshot_at mdl (heap s) sn ->
  working_copy mdl s =
    (Ok (param1 mdl, param2 mdl, length (heap s), S (length (heap s))),
     mkState (heap s ++ [NdVec (snap_a sn); NdMat (snap_R sn)]) (gen s)).
Proof.
  intros (Ha & HR & HG & HW & HF). unfold working_copy, np_copy.
  rewrite bind_bind. run_load. rewrite bind_alloc.
  rewrite bind_bind. run_load. rewrite bind_alloc.
  unfold ret. cbn [heap gen]. rewrite length_app, Nat.add_1_r.
  now rewrite <- app_assoc.
Qed.

(** C7. No forecasting call changes an array object of the caller: after
    any call, returned or raised, the store the caller had is a prefix of the
    store, so a snapshot [a, R, G, W, F] found before the call is found
    unchanged after it ([param1] and [param2] are only ever rebound to
    locals).  In [forecast_path] the working [a] and [R] of every sample are
    copies holding the snapshot's values in two array objects that did not
    exist before, so shared with nothing, and each step of the inner loop
    hands the next step working arrays outside the caller's store. *)
Theorem forecast_calls_leave_snapshot (c : call param rng) mdl s sn :
  snapshot_at mdl (heap s) sn ->
  take (length (heap s)) (heap (state_after lib c s)) = heap s /\
  snapshot_at mdl (heap (state_after lib c s)) sn /\
  (forall s1, take (length (heap s)) (heap s1) = heap s ->
     exists la lR s2,
       working_copy mdl s1 = (Ok (param1 mdl, param2 mdl, la, lR), s2) /\
       heap s1 !! la = None /\ heap s1 !! lR = None /\ la <> lR /\
       heap s2 !! la = Some (NdVec (snap_a sn)) /\
       heap s2 !! lR = Some (NdMat (snap_R sn))) /\
  (forall X lF lsamps n i p1 p2 la lR,
     (length (heap s) <= lF)%nat -> (length (heap s) <= lsamps)%nat ->
     (length (heap s) <= la)%nat -> (length (heap s) <= lR)%nat ->
     frame (length (heap s))
           (forecast_path_step mdl X lF lsamps n i (p1, p2, la, lR))
           (fun w => (length (heap s) <= snd (fst w))%nat /\
                     (length (heap s) <= snd w)%nat)).
Proof.
  intros Hsn. pose proof (state_after_store c s) as Hst.
  split; [exact Hst |]. split; [now apply (snapshot_at_extends mdl (heap s)) |].
  split.
  - intros s1 Hs1.
    pose proof (snapshot_at_extends mdl _ _ sn Hs1 Hsn) as Hsn1.
    eexists _, _, _. split; [exact (working_copy_run mdl s1 sn Hsn1) |]. cbn [heap gen].
    repeat split; try lia.
    + apply lookup_ge_None. lia.
    + apply lookup_ge_None. lia.
    + now apply list_lookup_middle.
    + rewrite (app_assoc _ [_] [_] : heap s1 ++ [_; _] = (heap s1 ++ [_]) ++ [_]).
      apply list_lookup_middle. rewrite length_app. simpl. lia.
  - intros X lF lsamps n i p1 p2 la lR HF Hs Ha HR.
    apply frame_forecast_path_step; simpl; auto.
Qed.

(** ** The two branches of the Student-t density *)

(** C9. On an input of dimension 1 whose 1×1 scale is not zero, the scalar
    branch taken by [multivariate_t_density] returns the array that the
    matrix formula of the branch [dim > 1] gives on the same input. *)
Theorem multivariate_t_density_dim1 (y mean : vec) (scale : mat) (nu : R) :
  length y = 1%nat -> length mean = 1%nat -> is_mat 1 1 scale ->
  mget scale 0 0 <> 0 ->
  multivariate_t_density lib y mean scale nu
  = mvt_density_matrix lib y mean scale nu.
Proof.
  intros Hy Hm [Hr Hc] Hs.
  destruct y as [| y0 [| ? ?]]; try discriminate.
  destruct mean as [| m0 [| ? ?]]; try discriminate.
  destruct scale as [| row [| ? ?]]; try discriminate.
  inversion Hc as [| ? ? Hrow _]; subst.
  destruct row as [| x [| ? ?]]; try discriminate.
  unfold mget in Hs. simpl in Hs.
  unfold multivariate_t_density, mvt_density_matrix, mvt_density_scalar.
  simpl Nat.ltb. cbv iota. rewrite np_inv_1x1, det_1x1 by assumption.
  simpl. do 4 f_equal.
  unfold dot, vecmat, sum_upto, mk_vec, mget, vget. simpl.
  f_equal. f_equal. unfold Rdiv. rewrite Rinv_mult. ring.
Qed.

(** ** The conjugate match of the copula samplers *)

Lemma conj_params_of_matched n mdl (lambda_mu : vec) (lambda_cov : mat) :
  length lambda_mu = n -> is_mat n n lambda_cov ->
  conj_params_of mdl lambda_mu lambda_cov = matched_params mdl lambda_mu lambda_cov.
Proof.
  intros Hmu Hcov. unfold conj_params_of, matched_params.
  rewrite (diag_square n) by assumption.
  rewrite (vec_as_map lambda_mu) at 1. rewrite Hmu.
  apply zip_with_map_map.
Qed.

Lemma joint_draw_t_marginals n lambda_mu lambda_cov nsamps nu s js genlist s' :
  length lambda_mu = n -> is_mat n n lambda_cov ->
  joint_draw lib lambda_mu lambda_cov nsamps true nu s = (Ok (js, genlist), s') ->
  genlist = reduced_t_marginals lib lambda_mu lambda_cov nu.
Proof.
  intros Hmu Hcov. unfold joint_draw, py_div, bind.
  destruct (Req_dec_T nu 0) as [Hnu | Hnu]; [discriminate |].
  cbn [lift ret].
  destruct (multivariate_t lib lambda_mu _ nu nsamps s) as [[Zs | e] s1];
    [| discriminate].
  unfold ret. intros [= _ <- _]. unfold reduced_t_marginals.
  rewrite (diag_square n) by now apply is_mat_mmap.
  rewrite (vec_as_map lambda_mu) at 1. rewrite Hmu, zip_with_map_map.
  apply map_ext_in. intros i Hi. apply in_seq in Hi.
  rewrite (mget_mmap n n) by (try assumption; lia). reflexivity.
Qed.

(** C10. In [forecast_path_approx_sim] and [forecast_path_approx_dens_MC]
    the conjugate parameters of margin [i] are matched to the unscaled pair
    [(lambda_mu[i], lambda_cov[i,i])] whatever [t_dist] is (in the density,
    of the arrays left by the missing-value mask), while under [t_dist] the
    marginals of the joint draw are on the reduced scale
    [lambda_cov[i,i] * (nu-2)/nu]. *)
Theorem conjugate_match_unscaled mdl k n (lambda_mu : vec) (lambda_cov : mat)
    nsamps t_dist nu y s :
  length lambda_mu = n -> is_mat n n lambda_cov ->
  forecast_path_approx_sim lib mdl k lambda_mu lambda_cov nsamps t_dist nu s
  = bind (joint_draw lib lambda_mu lambda_cov nsamps t_dist nu)
         (fun jg =>
            let priorlist :=
              priorlist_of mdl (matched_params mdl lambda_mu lambda_cov)
                           (unif_rvs_of (snd jg) (fst jg)) in
            bind (map_M (fun prior =>
                           draw (simulate_from_sampling_model mdl prior nsamps))
                        priorlist)
                 (fun cols => ret (transpose cols))) s
  /\ (forall mu' cov',
        bool_index lambda_mu (map (fun x => negb (np_isnan x)) y) = Ok mu' ->
        ix_index lambda_cov (map (fun x => negb (np_isnan x)) y) = Ok cov' ->
        forecast_path_approx_dens_MC lib mdl y lambda_mu lambda_cov t_dist nu nsamps s
        = bind (joint_draw lib mu' cov' nsamps t_dist nu)
               (fun jg =>
                  let priorlist :=
                    priorlist_of mdl (matched_params mdl mu' cov')
                                 (unif_rvs_of (snd jg) (fst jg)) in
                  ret (log_mean_density
                         (zip_with (fun yi prior => sampling_density mdl yi prior)
                                   (compress (map (fun x => negb (np_isnan x)) y) y)
                                   priorlist))) s)
  /\ (forall js genlist s',
        joint_draw lib lambda_mu lambda_cov nsamps true nu s = (Ok (js, genlist), s') ->
        genlist = reduced_t_marginals lib lambda_mu lambda_cov nu).
Proof.
  intros Hmu Hcov. split; [| split].
  - unfold forecast_path_approx_sim.
    rewrite (conj_params_of_matched n) by assumption.
    unfold bind. destruct (joint_draw _ _ _ _ _ _ s) as [[[js genlist] | e] s1];
      reflexivity.
  - intros mu' cov' Hm Hc. unfold forecast_path_approx_dens_MC.
    rewrite Hm, Hc. simpl lift. rewrite !bind_ret.
    destruct (bool_index_ok _ _ _ Hm) as [_ Hlen].
    rewrite (conj_params_of_matched (length mu'))
      by (try reflexivity; rewrite Hlen; now apply (is_mat_ix_index lambda_cov)).
    unfold bind. destruct (joint_draw _ _ _ _ _ _ s) as [[[js genlist] | e] s1];
      reflexivity.
  - intros js genlist s' H. now apply (joint_draw_t_marginals n _ _ nsamps nu s js _ s').
Qed.

(** ** The Monte Carlo log density *)

(** C6. For [k > 0] margins with the densities of [n > 0] samples each, none
    negative: line 268 regroups the densities by sample, the tuple of sample
    [j] holding the density of [j] at every margin [i]; the joint density of
    sample [j], accumulated as [exp(sum(log(dens)))], is the product of these
    over the margins; the value returned is the log of the mean of the [n]
    products, and minus infinity when every product is zero.  Both density
    functions return this value, never an exception, once the mask and the
    joint draw (and, in the multi-series one, the per-model stages) have gone
    through with these densities. *)
Theorem log_mean_density_is_log_of_mean_product (density_list : list (list R))
    k n :
  is_mat k n density_list -> (0 < k)%nat -> (0 < n)%nat ->
  Forall (Forall (fun d => 0 <= d)) density_list ->
  zip_star density_list = mk_mat n k (fun j i => mget density_list i j)
  /\ map path_density (zip_star density_list)
     = map (fun j => Fin (sample_product density_list k j)) (seq 0 n)
  /\ log_mean_density density_list
     = np_log (sum_upto n (sample_product density_list k) / INR n)
  /\ ((forall j, (j < n)%nat -> sample_product density_list k j = 0) ->
      log_mean_density density_list = NInf)
  /\ (forall mdl y lambda_mu lambda_cov t_dist nu nsamps s mu' cov' js genlist s1,
        bool_index lambda_mu (map (fun x => negb (np_isnan x)) y) = Ok mu' ->
        ix_index lambda_cov (map (fun x => negb (np_isnan x)) y) = Ok cov' ->
        joint_draw lib mu' cov' nsamps t_dist nu s = (Ok (js, genlist), s1) ->
        zip_with (fun yi prior => sampling_density mdl yi prior)
          (compress (map (fun x => negb (np_isnan x)) y) y)
          (priorlist_of mdl (conj_params_of mdl mu' cov') (unif_rvs_of genlist js))
        = density_list ->
        forecast_path_approx_dens_MC lib mdl y lambda_mu lambda_cov t_dist nu nsamps s
        = (Ok (np_log (sum_upto n (sample_product density_list k) / INR n)), s1))
  /\ (forall (mod_list : list (Model param rng)) y lambda_mu lambda_cov t_dist nu
             nsamps s mu' cov' js genlist s1 cps priors,
        bool_index lambda_mu (map (fun x => negb (np_isnan x)) y) = Ok mu' ->
        ix_index lambda_cov (map (fun x => negb (np_isnan x)) y) = Ok cov' ->
        joint_draw lib mu' cov' nsamps t_dist nu s = (Ok (js, genlist), s1) ->
        joint_conj_params mod_list mu' cov' = Ok cps ->
        joint_priorlist (mod_after_loop mod_list) cps (unif_rvs_of genlist js)
          = Ok priors ->
        joint_density_list (mod_after_loop mod_list)
          (compress (map (fun x => negb (np_isnan x)) y) y) priors
          = Ok density_list ->
        forecast_joint_approx_dens_MC lib mod_list y lambda_mu lambda_cov t_dist
                                      nu nsamps s
        = (Ok (np_log (sum_upto n (sample_product density_list k) / INR n)), s1)).
Proof.
  intros Hshape Hk Hn Hd. pose proof (Forall_zip_star _ _ Hd) as Hz.
  pose proof (zip_star_rect density_list k n Hshape Hk) as Hrect.
  assert (Hpath : map path_density (zip_star density_list)
                  = map Fin (map (sample_product density_list k) (seq 0 n))).
  { rewrite (map_path_density _ Hz), Hrect. unfold mk_mat.
    now rewrite !map_map. }
  assert (Hmean : log_mean_density density_list
            = np_log (sum_upto n (sample_product density_list k) / INR n)).
  { unfold log_mean_density. rewrite Hpath, npf_mean_Fin.
    - now rewrite length_map, length_seq.
    - destruct n; [lia | discriminate]. }
  split; [exact Hrect |]. split; [now rewrite Hpath, map_map |].
  split; [exact Hmean |]. split; [| split].
  - intros Hzero. rewrite Hmean. unfold sum_upto. rewrite sum_zero.
    + unfold Rdiv. rewrite Rmult_0_l. apply np_log_zero.
    + apply List.Forall_forall. intros x Hx.
      apply in_map_iff in Hx as (j & <- & Hj). apply in_seq in Hj.
      apply Hzero. lia.
  - intros mdl y lambda_mu lambda_cov t_dist nu nsamps s mu' cov' js genlist s1
           Hm Hc Hj HD.
    unfold forecast_path_approx_dens_MC. rewrite Hm, Hc. simpl lift.
    rewrite !bind_ret. rewrite (bind_ok _ _ _ _ _ Hj). rewrite HD.
    unfold ret. now rewrite Hmean.
  - intros mod_list y lambda_mu lambda_cov t_dist nu nsamps s mu' cov' js
           genlist s1 cps priors Hm Hc Hj Hcp Hp HD.
    unfold forecast_joint_approx_dens_MC. rewrite Hm, Hc. simpl lift.
    rewrite !bind_ret. rewrite (bind_ok _ _ _ _ _ Hj).
    rewrite Hcp. simpl lift. rewrite bind_ret.
    rewrite Hp. simpl lift. rewrite bind_ret.
    rewrite HD. simpl lift. rewrite bind_ret. unfold ret. now rewrite Hmean.
Qed.

(** ** The model read by the multi-series stages *)

(** Whatever the index, the inverse cdf is that of the one model bound to the
    name [mod] after the loop. *)
Lemma joint_priorlist_of_bound_model (mdl : Model param rng) cps us :
  joint_priorlist (Some mdl) cps us = Ok (priorlist_of mdl cps us).
Proof.
  revert us. induction cps as [| cp cps IH]; intros [| u us]; simpl;
    try reflexivity.
  rewrite IH. reflexivity.
Qed.

Lemma joint_density_list_of_bound_model (mdl : Model param rng) y priors :
  joint_density_list (Some mdl) y priors
  = Ok (zip_with (fun yi prior => sampling_density mdl yi prior) y priors).
Proof.
  revert priors. induction y as [| yi y IH]; intros [| pr priors]; simpl;
    try reflexivity.
  rewrite IH. reflexivity.
Qed.

(** ** The density of a path with every observation missing *)








(** * Further properties of the forecast functions *)

(** ** Computations that make no draw *)

Lemma nodraw_ret {A} (x : A) : nodraw (ret (rng:=rng) x).
Proof. intros s. reflexivity. Qed.

Lemma nodraw_raise {A} e : nodraw (raise (rng:=rng) (A:=A) e).
Proof. intros s. reflexivity. Qed.

Lemma nodraw_lift {A} (r : res A) : nodraw (lift (rng:=rng) r).
Proof. destruct r; [apply nodraw_ret | apply nodraw_raise]. Qed.

Lemma nodraw_bind {A B} (c : M rng A) (k : A -> M rng B) :
  nodraw c -> (forall x, nodraw (k x)) -> nodraw (bind c k).
Proof.
  intros Hc Hk s. unfold bind. specialize (Hc s).
  destruct (c s) as [[x | e] s1]; simpl in *; [| assumption].
  now rewrite Hk.
Qed.

Lemma nodraw_alloc v : nodraw (alloc (rng:=rng) v).
Proof. intros s. reflexivity. Qed.

Lemma nodraw_load l : nodraw (load (rng:=rng) l).
Proof. intros s. unfold load. now destruct (heap s !! l). Qed.

Lemma nodraw_store l v : nodraw (store (rng:=rng) l v).
Proof. intros s. unfold store. now destruct (heap s !! l). Qed.

Lemma nodraw_load_vec l : nodraw (load_vec (rng:=rng) l).
Proof.
  apply nodraw_bind; [apply nodraw_load |].
  intros [v | m]; [apply nodraw_ret | apply nodraw_raise].
Qed.

Lemma nodraw_load_mat l : nodraw (load_mat (rng:=rng) l).
Proof.
  apply nodraw_bind; [apply nodraw_load |].
  intros [v | m]; [apply nodraw_raise | apply nodraw_ret].
Qed.

Lemma nodraw_np_copy l : nodraw (np_copy (rng:=rng) l).
Proof. apply nodraw_bind; [apply nodraw_load | intros; apply nodraw_alloc]. Qed.

Lemma nodraw_for_each {A S} (xs : list A) (body : A -> S -> M rng S) acc :
  (forall x a, nodraw (body x a)) -> nodraw (for_each xs body acc).
Proof.
  intros Hbody. revert acc. induction xs as [| x xs IH]; intros acc; simpl.
  - apply nodraw_ret.
  - apply nodraw_bind; [apply Hbody | apply IH].
Qed.

Create HintDb nodraw.

#[local] Hint Resolve nodraw_alloc nodraw_load nodraw_store nodraw_load_vec
  nodraw_load_mat nodraw_np_copy nodraw_lift nodraw_ret nodraw_raise : nodraw.

Ltac nodraw_go :=
  repeat match goal with
    | |- nodraw (bind _ _) => apply nodraw_bind; [| intros ?]
    | |- nodraw (ret _) => apply nodraw_ret
    | |- nodraw (raise _) => apply nodraw_raise
    | |- nodraw (lift _) => apply nodraw_lift
    | |- nodraw (if ?b then _ else _) => destruct b
    | |- nodraw (match ?x with _ => _ end) => destruct x
    | |- nodraw (let '(_, _) := ?x in _) => destruct x
    | |- nodraw _ => solve [eauto with nodraw]
    end.

Lemma nodraw_forecast_aR mdl k : nodraw (forecast_aR mdl k).
Proof. unfold forecast_aR. nodraw_go. Qed.

Lemma nodraw_setitem_rows lF idx col : nodraw (setitem_rows (rng:=rng) lF idx col).
Proof. unfold setitem_rows. nodraw_go. Qed.

Lemma nodraw_plug_in_X mdl lF X : nodraw (plug_in_X mdl lF X).
Proof. unfold plug_in_X. nodraw_go. apply nodraw_setitem_rows. Qed.

Lemma nodraw_plug_in_row mdl lF X i : nodraw (plug_in_row mdl lF X i).
Proof. unfold plug_in_row. nodraw_go. apply nodraw_setitem_rows. Qed.

Lemma nodraw_setitem1 l i x : nodraw (setitem1 (rng:=rng) l i x).
Proof. unfold setitem1. nodraw_go. Qed.

Lemma nodraw_setitem2 l i j x : nodraw (setitem2 (rng:=rng) l i j x).
Proof. unfold setitem2. nodraw_go. Qed.

#[local] Hint Resolve nodraw_forecast_aR nodraw_setitem_rows nodraw_plug_in_X
  nodraw_plug_in_row nodraw_setitem1 nodraw_setitem2 : nodraw.

Lemma nodraw_forecast_state_mean_and_var mdl k X :
  nodraw (forecast_state_mean_and_var mdl k X).
Proof. unfold forecast_state_mean_and_var. nodraw_go. Qed.

Lemma nodraw_forecast_path_propagate mdl m C :
  nodraw (forecast_path_propagate mdl m C).
Proof. unfold forecast_path_propagate. nodraw_go. Qed.

Lemma nodraw_forecast_path_approx_cov mdl lcov Flist Rlist i j u :
  nodraw (forecast_path_approx_cov mdl lcov Flist Rlist i j u).
Proof. unfold forecast_path_approx_cov. nodraw_go. Qed.

Lemma nodraw_forecast_path_approx_step mdl X lF lmu lcov i w :
  nodraw (forecast_path_approx_step mdl X lF lmu lcov i w).
Proof.
  destruct w as [Flist Rlist]. unfold forecast_path_approx_step. nodraw_go.
  apply nodraw_for_each. intros. apply nodraw_forecast_path_approx_cov.
Qed.

Lemma nodraw_forecast_path_approx_moments mdl k X :
  nodraw (forecast_path_approx_moments mdl k X).
Proof.
  unfold forecast_path_approx_moments. nodraw_go.
  apply nodraw_for_each. intros. apply nodraw_forecast_path_approx_step.
Qed.

(** X1. The moment computations make no random draw: [forecast_aR],
    [forecast_state_mean_and_var], [forecast_marginal] asked for the state
    moments or for the mean only, [forecast_marginal_bindglm] asked for the
    mean only, and the moment loop of [forecast_path_approx] leave the
    generator in the state they found it in, whether they return or raise. *)
Theorem moments_make_no_draw mdl k (x : option vec) (X : option mat) nsamps n
    mean_only s :
  gen (snd (forecast_aR mdl k s)) = gen s /\
  gen (snd (forecast_state_mean_and_var mdl k x s)) = gen s /\
  gen (snd (forecast_marginal mdl k x nsamps mean_only true s)) = gen s /\
  gen (snd (forecast_marginal mdl k x nsamps true false s)) = gen s /\
  gen (snd (forecast_marginal_bindglm mdl n k x nsamps true s)) = gen s /\
  gen (snd (forecast_path_approx_moments mdl k X s)) = gen s.
Proof.
  repeat split.
  - apply nodraw_forecast_aR.
  - apply nodraw_forecast_state_mean_and_var.
  - revert s. change (nodraw (forecast_marginal mdl k x nsamps mean_only true)).
    unfold forecast_marginal. nodraw_go.
  - revert s. change (nodraw (forecast_marginal mdl k x nsamps true false)).
    unfold forecast_marginal. nodraw_go.
  - revert s. change (nodraw (forecast_marginal_bindglm mdl n k x nsamps true)).
    unfold forecast_marginal_bindglm. nodraw_go.
  - apply nodraw_forecast_path_approx_moments.
Qed.

(** ** The prior moments, step by step *)

(** X2. Without discounting the horizons compose: [forecast_aR] at horizon
    [k + 1] returns arrays holding the same values as [forecast_aR] at
    horizon [k] run on the snapshot one evolution step later, where [a] and
    [R] are [G a] and [G R G^T]. *)
Theorem forecast_aR_composes mdl mdl1 s s1 sn p k :
  snapshot_at mdl (heap s) sn -> snapshot_shape p sn ->
  snapshot_at mdl1 (heap s1) (evolve sn) ->
  discount_forecast mdl = false -> discount_forecast mdl1 = false ->
  (1 <= k)%Z ->
  exists la lR s' la1 lR1 s1' av Rv,
    forecast_aR mdl (k + 1) s = (Ok (la, lR), s') /\
    forecast_aR mdl1 k s1 = (Ok (la1, lR1), s1') /\
    heap s' !! la = Some (NdVec av) /\ heap s1' !! la1 = Some (NdVec av) /\
    heap s' !! lR = Some (NdMat Rv) /\ heap s1' !! lR1 = Some (NdMat Rv).
Proof.
  intros Hsn Hshape Hsn1 Hd Hd1 Hk.
  destruct (spec_evolve p sn k Hshape Hk) as [Ha HR].
  eexists _, _, _, _, _, _, _, _.
  split; [apply (forecast_aR_run mdl s sn (k + 1) Hsn); lia |].
  split; [apply (forecast_aR_run mdl1 s1 (evolve sn) k Hsn1 Hk) |].
  cbn [heap gen]. rewrite Hd, Hd1, Ha, HR.
  repeat split; first [apply lookup_alloc_fst | apply lookup_alloc_snd].
Qed.

(** ** The entry points of the marginal forecast *)

(** X3. In [forecast_marginal] the flag [state_mean_var] wins over
    [mean_only]: with it set, the call returns the pair [(ft, qt)] that
    [forecast_state_mean_and_var] returns on the same arguments, raises what
    it raises, and leaves the same store and generator. *)
Theorem forecast_marginal_state_mean_var mdl k X nsamps mean_only s :
  forecast_marginal mdl k X nsamps mean_only true s
  = match forecast_state_mean_and_var mdl k X s with
    | (Ok (ft, qt), s') => (Ok (StateMeanVar ft qt), s')
    | (Raise e, s') => (Raise e, s')
    end.
Proof.
  unfold forecast_marginal, forecast_state_mean_and_var, bind.
  destruct (np_copy (mod_F mdl) s) as [[lF | e] s1]; [| reflexivity].
  destruct (plug_in_X mdl lF X s1) as [[[] | e] s2]; [| reflexivity].
  destruct (forecast_aR mdl k s2) as [[[la lR] | e] s3]; [| reflexivity].
  destruct (load_vec lF s3) as [[Fv | e] s4]; [| reflexivity].
  destruct (load_vec la s4) as [[av | e] s5]; [| reflexivity].
  destruct (load_mat lR s5) as [[Rv | e] s6]; [| reflexivity].
  unfold ret. destruct (get_mean_and_var mdl Fv av Rv). reflexivity.
Qed.

(** ** Horizons below zero *)

(** X4. The path forecasters allocate their result with [np.zeros] before
    anything else: for a negative [k], [forecast_path],
    [forecast_path_approx] and [forecast_path_normaldlm] raise ValueError
    with the store and the generator untouched. *)
Theorem negative_horizon_raises mdl k X nsamps t_dist y nu s :
  (k < 0)%Z ->
  forecast_path mdl k X nsamps s = (Raise ValueError, s) /\
  forecast_path_approx lib mdl k X nsamps t_dist y nu s = (Raise ValueError, s) /\
  forecast_path_normaldlm lib mdl k X nsamps s = (Raise ValueError, s).
Proof.
  intros Hk. apply Z.ltb_lt in Hk.
  unfold forecast_path, forecast_path_approx, forecast_path_approx_moments,
    forecast_path_normaldlm, np_zeros1, np_zeros2.
  rewrite Hk, orb_true_r. repeat split; reflexivity.
Qed.

(** ** The Student-t sampler and density *)

(** X5. [multivariate_t] draws its gamma and normal variates without
    looking at the mean beyond its length: the samples at [mean] are the
    samples at the zero vector shifted by [mean], and the generator ends in
    the same state. *)
Theorem multivariate_t_shifts_by_mean (mean : vec) (scale : mat) nu nsamps s :
  multivariate_t lib mean scale nu nsamps s
  = match multivariate_t lib (replicate (length mean) 0) scale nu nsamps s with
    | (Ok Z, s') => (Ok (map (vadd mean) Z), s')
    | (Raise e, s') => (Raise e, s')
    end.
Proof.
  unfold multivariate_t, py_div, bind, draw, draw_res.
  rewrite length_replicate.
  destruct (Req_dec_T nu 0) as [Hnu | Hnu]; [reflexivity |]. cbn [lift ret].
  destruct (random_gamma lib (nu / 2) (2 / nu) nsamps (gen s)) as [g g1].
  cbn [heap gen].
  destruct (random_multivariate_normal lib (replicate (length mean) 0) scale
              nsamps g1) as [[Z | e] g2]; [| reflexivity].
  unfold ret. do 2 f_equal. rewrite map_zip_with.
  apply zip_with_ext_all. intros zrow gs. symmetry. apply vadd_zeros.
Qed.


(** X7. The density is symmetric about the mean: at [2 * mean - y] it
    takes the value it takes at [y], in both branches, and raises when and
    what it raises at [y]. *)
Theorem multivariate_t_density_symmetric (y mean : vec) (scale : mat) nu :
  length y = length mean ->
  multivariate_t_density lib (reflect mean y) mean scale nu
  = multivariate_t_density lib y mean scale nu.
Proof.
  intros Hl.
  assert (Hlen : length (reflect mean y) = length y)
    by (unfold reflect; rewrite length_zip_with; lia).
  unfold multivariate_t_density, mvt_density_matrix, mvt_density_scalar.
  rewrite Hlen, vsub_reflect.
  destruct (Nat.ltb 1 (length y)).
  - destruct (np_inv scale) as [Si | e]; [| reflexivity].
    now rewrite quadratic_form_even.
  - destruct (vsub y mean) as [| d ds]; simpl; [reflexivity |].
    f_equal. unfold mmap. apply map_ext. intros row. apply map_ext. intros x.
    replace (- d * (- d * 1)) with (d * (d * 1)) by ring. reflexivity.
Qed.

(** X8. In the branch [dim > 1] a singular scale makes
    [np.linalg.inv] raise LinAlgError; a scale that is not singular gives a
    1×1 array. *)
Theorem multivariate_t_density_singular (y mean : vec) (scale : mat) nu :
  (1 < length y)%nat ->
  (det scale = 0 ->
   multivariate_t_density lib y mean scale nu = Raise LinAlgError) /\
  (det scale <> 0 ->
   exists d, multivariate_t_density lib y mean scale nu = Ok [[d]]).
Proof.
  intros Hy. unfold multivariate_t_density.
  destruct (Nat.ltb_spec 1 (length y)); [| lia].
  unfold mvt_density_matrix, np_inv.
  split; intros Hdet; destruct (Req_dec_T (det scale) 0); try contradiction.
  - reflexivity.
  - now eexists.
Qed.

(** ** The missing-value mask of the density functions *)

(** X9. An observation vector [y] whose length differs from that of
    [lambda_mu] makes the boolean mask fail: both density functions raise
    IndexError before any draw. *)
Theorem density_length_mismatch_raises mdl (mod_list : list (Model param rng))
    y (lambda_mu : vec) (lambda_cov : mat) t_dist nu nsamps s :
  length y <> length lambda_mu ->
  forecast_path_approx_dens_MC lib mdl y lambda_mu lambda_cov t_dist nu nsamps s
  = (Raise IndexError, s) /\
  forecast_joint_approx_dens_MC lib mod_list y lambda_mu lambda_cov t_dist nu
                                nsamps s
  = (Raise IndexError, s).
Proof.
  intros Hl.
  unfold forecast_path_approx_dens_MC, forecast_joint_approx_dens_MC, bool_index.
  rewrite length_map.
  destruct (Nat.eqb_spec (length y) (length lambda_mu)); [contradiction |].
  split; reflexivity.
Qed.

(** X10. Missing observations are dropped together with their margins: for
    [y] as long as [lambda_mu] and a square [lambda_cov] of that size, the
    mask selects from both without error, and each density function returns
    on [(y, lambda_mu, lambda_cov)] what it returns on the observed entries
    of [y] with the selected sub-vector and sub-matrix. *)
Theorem density_drops_missing mdl (mod_list : list (Model param rng)) y
    (lambda_mu : vec) (lambda_cov : mat) t_dist nu nsamps s :
  length y = length lambda_mu ->
  is_mat (length lambda_mu) (length lambda_mu) lambda_cov ->
  exists mu' cov',
    bool_index lambda_mu (not_missing y) = Ok mu' /\
    ix_index lambda_cov (not_missing y) = Ok cov' /\
    forecast_path_approx_dens_MC lib mdl y lambda_mu lambda_cov t_dist nu nsamps s
    = forecast_path_approx_dens_MC lib mdl (compress (not_missing y) y) mu' cov'
                                   t_dist nu nsamps s /\
    forecast_joint_approx_dens_MC lib mod_list y lambda_mu lambda_cov t_dist nu
                                  nsamps s
    = forecast_joint_approx_dens_MC lib mod_list (compress (not_missing y) y)
                                    mu' cov' t_dist nu nsamps s.
Proof.
  intros Hl Hcov.
  assert (Hml : length (not_missing y) = length lambda_mu)
    by (unfold not_missing; now rewrite length_map).
  destruct (ix_index_total _ lambda_cov (not_missing y) Hcov Hml) as [cov' Hc].
  assert (Hm : bool_index lambda_mu (not_missing y)
               = Ok (compress (not_missing y) lambda_mu))
    by (unfold bool_index; now rewrite Hml, Nat.eqb_refl).
  exists (compress (not_missing y) lambda_mu), cov'.
  split; [exact Hm |]. split; [exact Hc |].
  set (y' := compress (not_missing y) y).
  set (mu' := compress (not_missing y) lambda_mu).
  assert (Hly : length y' = length (nonzero_from 0 (not_missing y))).
  { apply length_compress. unfold not_missing. now rewrite length_map. }
  assert (Hlm : length mu' = length (nonzero_from 0 (not_missing y)))
    by now apply length_compress.
  assert (Hmask : not_missing y' = replicate (length mu') true)
    by (unfold y'; rewrite not_missing_compress; fold y'; congruence).
  assert (Hm' : bool_index mu' (not_missing y') = Ok mu')
    by (rewrite Hmask; apply bool_index_all_true).
  assert (Hc' : ix_index cov' (not_missing y') = Ok cov').
  { rewrite Hmask. apply ix_index_all_true. rewrite Hlm.
    now apply (is_mat_ix_index lambda_cov). }
  assert (Hy' : compress (not_missing y') y' = y').
  { rewrite Hmask, Hlm, <- Hly. apply compress_all_true. }
  unfold forecast_path_approx_dens_MC, forecast_joint_approx_dens_MC.
  fold (not_missing y) (not_missing y'). fold y'.
  rewrite Hm, Hc, Hm', Hc', Hy'. split; reflexivity.
Qed.

(** ** Running the marginal forecasters *)

Lemma plug_in_X_fits mdl sn x lF s :
  regressor_fits mdl sn x -> heap s !! lF = Some (NdVec (snap_F sn)) ->
  plug_in_X mdl lF x s
  = (Ok tt, mkState (<[lF := NdVec (F_with mdl sn x)]> (heap s)) (gen s)).
Proof.
  intros (Hlen & Hidx & Hx) Hl. unfold plug_in_X, F_with.
  destruct (Nat.ltb_spec 0 (nregn mdl)) as [Hpos | Hzero].
  - destruct (Hx Hpos) as (v & -> & Hv). simpl lift. rewrite bind_ret.
    unfold reshape. rewrite Hv, Nat.eqb_refl. simpl lift. rewrite bind_ret.
    apply (setitem_rows_run lF (snap_F sn)); [assumption | assumption | congruence].
  - unfold ret. rewrite list_insert_id by assumption. now destruct s.
Qed.

(** Lines 19-27 (and 147-155, 392-400, 409-417): the copy of [F] with the
    regressors, the prior moments and the three reads, followed by any
    continuation. *)
Lemma marginal_prefix_run {B} mdl sn x k
    (cont : list R -> list R -> list (list R) -> M rng B) s :
  snapshot_at mdl (heap s) sn -> regressor_fits mdl sn x -> (1 <= k)%Z ->
  bind (np_copy (mod_F mdl)) (fun lF =>
    bind (plug_in_X mdl lF x) (fun _ =>
      bind (forecast_aR mdl k) (fun '(la, lR) =>
        bind (load_vec lF) (fun Fv =>
          bind (load_vec la) (fun av =>
            bind (load_mat lR) (fun Rv => cont Fv av Rv)))))) s
  = cont (F_with mdl sn x) (spec_a_k sn k)
         (spec_R_k sn (discount_forecast mdl) k)
         (mkState (heap s ++ [NdVec (F_with mdl sn x); NdVec (spec_a_k sn k);
                              NdMat (spec_R_k sn (discount_forecast mdl) k)])
                  (gen s)).
Proof.
  intros Hsn Hx Hk.
  rewrite (bind_ok _ _ _ _ _
             (np_copy_run _ _ s (proj2 (proj2 (proj2 (proj2 Hsn)))))).
  rewrite (bind_ok _ _ _ _ _
             (plug_in_X_fits mdl sn x (length (heap s))
                (mkState (heap s ++ [NdVec (snap_F sn)]) (gen s)) Hx
                ltac:(cbn [heap]; apply lookup_snoc_length))).
  cbn [heap gen].
  rewrite insert_app_r_alt, Nat.sub_diag by lia. cbn [insert list_insert].
  set (Fx := F_with mdl sn x).
  assert (Hsn2 : snapshot_at mdl (heap s ++ [NdVec Fx]) sn).
  { eapply snapshot_at_extends; [| exact Hsn]. apply take_app_length. }
  rewrite (bind_ok _ _ _ _ _
             (forecast_aR_run mdl (mkState (heap s ++ [NdVec Fx]) (gen s)) sn k
                Hsn2 Hk)).
  cbn [heap gen].
  erewrite bind_ok;
    [| apply (load_vec_ok _ Fx); cbn [heap]; apply lookup_app_l_Some;
       apply lookup_snoc_length].
  erewrite bind_ok; [| apply load_vec_ok; cbn [heap]; apply lookup_alloc_fst].
  erewrite bind_ok; [| apply load_mat_ok; cbn [heap]; apply lookup_alloc_snd].
  now rewrite <- app_assoc.
Qed.

Lemma marginal_prefix_raise {B} mdl sn x k e
    (cont : list R -> list R -> list (list R) -> M rng B) s :
  snapshot_at mdl (heap s) sn -> regressor_fits mdl sn x ->
  matrix_power (snap_G sn) (k - 1) = Raise e ->
  bind (np_copy (mod_F mdl)) (fun lF =>
    bind (plug_in_X mdl lF x) (fun _ =>
      bind (forecast_aR mdl k) (fun '(la, lR) =>
        bind (load_vec lF) (fun Fv =>
          bind (load_vec la) (fun av =>
            bind (load_mat lR) (fun Rv => cont Fv av Rv)))))) s
  = (Raise e, mkState (heap s ++ [NdVec (F_with mdl sn x)]) (gen s)).
Proof.
  intros Hsn Hx Hk.
  rewrite (bind_ok _ _ _ _ _
             (np_copy_run _ _ s (proj2 (proj2 (proj2 (proj2 Hsn)))))).
  rewrite (bind_ok _ _ _ _ _
             (plug_in_X_fits mdl sn x (length (heap s))
                (mkState (heap s ++ [NdVec (snap_F sn)]) (gen s)) Hx
                ltac:(cbn [heap]; apply lookup_snoc_length))).
  cbn [heap gen].
  rewrite insert_app_r_alt, Nat.sub_diag by lia. cbn [insert list_insert].
  set (Fx := F_with mdl sn x).
  assert (Hsn2 : snapshot_at mdl (heap s ++ [NdVec Fx]) sn).
  { eapply snapshot_at_extends; [| exact Hsn]. apply take_app_length. }
  unfold bind at 1.
  now rewrite (forecast_aR_run_raise mdl (mkState (heap s ++ [NdVec Fx]) (gen s))
                 sn k e Hsn2 Hk).
Qed.

(** The prefix stops where the regressors are refused. *)
Lemma marginal_prefix_refused {B} mdl x k e v
    (cont : list R -> list R -> list (list R) -> M rng B) s :
  heap s !! mod_F mdl = Some v ->
  (forall lF s1, plug_in_X mdl lF x s1 = (Raise e, s1)) ->
  bind (np_copy (mod_F mdl)) (fun lF =>
    bind (plug_in_X mdl lF x) (fun _ =>
      bind (forecast_aR mdl k) (fun '(la, lR) =>
        bind (load_vec lF) (fun Fv =>
          bind (load_vec la) (fun av =>
            bind (load_mat lR) (fun Rv => cont Fv av Rv)))))) s
  = (Raise e, mkState (heap s ++ [v]) (gen s)).
Proof.
  intros HF Hx. rewrite (bind_ok _ _ _ _ _ (np_copy_run _ _ s HF)).
  unfold bind at 1. now rewrite Hx.
Qed.

(** The regressors that [plug_in_X] and [plug_in_row] refuse. *)
Lemma plug_in_X_none mdl lF s :
  (0 < nregn mdl)%nat -> plug_in_X mdl lF None s = (Raise AttributeError, s).
Proof.
  intros Hpos. unfold plug_in_X.
  destruct (Nat.ltb_spec 0 (nregn mdl)); [reflexivity | lia].
Qed.

Lemma plug_in_X_wrong_size mdl lF (v : list R) s :
  (0 < nregn mdl)%nat -> length v <> nregn mdl ->
  plug_in_X mdl lF (Some v) s = (Raise ValueError, s).
Proof.
  intros Hpos Hv. unfold plug_in_X.
  destruct (Nat.ltb_spec 0 (nregn mdl)); [| lia].
  simpl lift. rewrite bind_ret. unfold reshape.
  destruct (Nat.eqb_spec (length v) (nregn mdl)); [contradiction | reflexivity].
Qed.

Lemma plug_in_row_none mdl lF i s :
  (0 < nregn mdl)%nat -> plug_in_row mdl lF None i s = (Raise TypeError, s).
Proof.
  intros Hpos. unfold plug_in_row.
  destruct (Nat.ltb_spec 0 (nregn mdl)); [reflexivity | lia].
Qed.

Lemma plug_in_row_wrong_size mdl lF (A : list (list R)) (r : list R) i s :
  (0 < nregn mdl)%nat -> A !! i = Some r -> length r <> nregn mdl ->
  plug_in_row mdl lF (Some A) i s = (Raise ValueError, s).
Proof.
  intros Hpos Hr Hl. unfold plug_in_row, getrow.
  destruct (Nat.ltb_spec 0 (nregn mdl)); [| lia]. rewrite Hr.
  simpl lift. rewrite bind_ret. unfold reshape.
  destruct (Nat.eqb_spec (length r) (nregn mdl)); [contradiction | reflexivity].
Qed.

Lemma plug_in_row_no_row mdl lF (A : list (list R)) i s :
  (0 < nregn mdl)%nat -> A !! i = None ->
  plug_in_row mdl lF (Some A) i s = (Raise IndexError, s).
Proof.
  intros Hpos Hr. unfold plug_in_row, getrow.
  destruct (Nat.ltb_spec 0 (nregn mdl)); [| lia]. now rewrite Hr.
Qed.

Lemma bind_raise_fst {A B} (c : M rng A) (k : A -> M rng B) e s :
  fst (c s) = Raise e -> fst (bind c k s) = Raise e.
Proof.
  unfold bind. destruct (c s) as [[x | e'] s1]; simpl; intros H;
    [discriminate | now inversion H].
Qed.

(** The first pass of the loops of [forecast_path] and
    [forecast_path_approx] stops where row 0 of [X] is refused. *)
Lemma forecast_path_refused mdl sn k X nsamps e s :
  snapshot_at mdl (heap s) sn -> (1 <= k)%Z -> (0 < nsamps)%nat ->
  (forall lF s1, plug_in_row mdl lF X 0 s1 = (Raise e, s1)) ->
  fst (forecast_path mdl k X nsamps s) = Raise e.
Proof.
  intros Hsn Hk Hn Hrow. unfold forecast_path, np_zeros2.
  destruct (Z.ltb_spec (Z.of_nat nsamps) 0); [lia |].
  destruct (Z.ltb_spec k 0); [lia |]. simpl orb. cbv iota.
  simpl lift. rewrite bind_ret, bind_alloc. cbn [heap gen].
  set (z := replicate _ _).
  assert (HF : (heap s ++ [NdMat z]) !! mod_F mdl = Some (NdVec (snap_F sn))).
  { apply lookup_app_l_Some. apply Hsn. }
  rewrite (bind_ok _ _ _ _ _
             (np_copy_run _ _ (mkState (heap s ++ [NdMat z]) (gen s)) HF)).
  cbn [heap gen]. apply bind_raise_fst.
  destruct nsamps as [| ns]; [lia |]. simpl seq. simpl for_each.
  apply bind_raise_fst. unfold forecast_path_sample.
  set (h2 := (heap s ++ [NdMat z]) ++ [NdVec (snap_F sn)]).
  assert (Hsn2 : snapshot_at mdl h2 sn).
  { eapply snapshot_at_extends; [| exact Hsn]. unfold h2.
    rewrite <- app_assoc. apply take_app_length. }
  rewrite (bind_ok _ _ _ _ _ (working_copy_run mdl (mkState h2 (gen s)) sn Hsn2)).
  apply bind_raise_fst.
  unfold range. destruct (Z.to_nat k) as [| m] eqn:Hm; [lia |].
  simpl seq. simpl for_each. apply bind_raise_fst.
  unfold forecast_path_step. apply bind_raise_fst.
  unfold forecast_path_update. unfold bind at 1. now rewrite Hrow.
Qed.

Lemma forecast_path_approx_refused mdl sn k X nsamps t_dist y nu e s :
  snapshot_at mdl (heap s) sn -> (1 <= k)%Z ->
  (forall lF s1, plug_in_row mdl lF X 0 s1 = (Raise e, s1)) ->
  fst (forecast_path_approx lib mdl k X nsamps t_dist y nu s) = Raise e.
Proof.
  intros Hsn Hk Hrow. unfold forecast_path_approx. apply bind_raise_fst.
  unfold forecast_path_approx_moments, np_zeros1, np_zeros2.
  destruct (Z.ltb_spec k 0); [lia |]. simpl orb. cbv iota.
  simpl lift. rewrite bind_ret, bind_alloc, bind_ret, bind_alloc.
  cbn [heap gen].
  set (h2 := (heap s ++ _) ++ _).
  assert (Hext : take (length (heap s)) h2 = heap s).
  { unfold h2. rewrite <- app_assoc. apply take_app_length. }
  assert (HF : h2 !! mod_F mdl = Some (NdVec (snap_F sn))).
  { eapply lookup_extends; [exact Hext | apply Hsn]. }
  rewrite (bind_ok _ _ _ _ _ (np_copy_run _ _ (mkState h2 (gen s)) HF)).
  cbn [heap gen]. apply bind_raise_fst.
  unfold range. destruct (Z.to_nat k) as [| m] eqn:Hm; [lia |].
  simpl seq. simpl for_each. apply bind_raise_fst.
  unfold forecast_path_approx_step.
  assert (Hsn3 : snapshot_at mdl (h2 ++ [NdVec (snap_F sn)]) sn).
  { eapply snapshot_at_extends; [| exact Hsn].
    rewrite take_app_le; [exact Hext |].
    apply (f_equal length) in Hext. rewrite length_take in Hext. lia. }
  rewrite (bind_ok _ _ _ _ _
             (forecast_aR_run mdl (mkState (h2 ++ [NdVec (snap_F sn)]) (gen s)) sn
                (Z.of_nat 0 + 1) Hsn3 ltac:(lia))).
  unfold bind at 1. now rewrite Hrow.
Qed.

Lemma draw_run {A} (f : rng -> A * rng) s :
  draw f s = (Ok (fst (f (gen s))), mkState (heap s) (snd (f (gen s)))).
Proof. unfold draw. now destruct (f (gen s)). Qed.

(** X11. [forecast_state_mean_and_var] in closed form: on a store holding
    the snapshot, for regressors that fit and a horizon [k >= 1], it returns
    [get_mean_and_var] of the design vector with the regressors at the rows
    [iregn], of [G^(k-1) a] and of [R_k], and it leaves three new arrays
    after the caller's store. *)
Theorem forecast_state_mean_and_var_closed_form mdl sn x k s :
  snapshot_at mdl (heap s) sn -> regressor_fits mdl sn x -> (1 <= k)%Z ->
  forecast_state_mean_and_var mdl k x s
  = (Ok (get_mean_and_var mdl (F_with mdl sn x) (spec_a_k sn k)
                          (spec_R_k sn (discount_forecast mdl) k)),
     mkState (heap s ++ [NdVec (F_with mdl sn x); NdVec (spec_a_k sn k);
                         NdMat (spec_R_k sn (discount_forecast mdl) k)])
             (gen s)).
Proof.
  intros Hsn Hx Hk. unfold forecast_state_mean_and_var.
  etransitivity; [apply (marginal_prefix_run mdl sn x k); assumption |].
  reflexivity.
Qed.

(** X12. [forecast_marginal] in closed form, for regressors that fit and a
    horizon [k >= 1]: the conjugate parameters are matched to the moments of
    the linear predictor at horizon [k]; with [mean_only] the result is
    [get_mean] of them and no draw is made; otherwise it is the one draw
    [simulate(param1, param2, nsamps)], taken from the caller's generator
    state. *)
Theorem forecast_marginal_closed_form mdl sn x k nsamps s :
  snapshot_at mdl (heap s) sn -> regressor_fits mdl sn x -> (1 <= k)%Z ->
  let p := marginal_params mdl sn x k in
  (exists s',
     forecast_marginal mdl k x nsamps true false s
     = (Ok (MeanOnly (get_mean mdl (fst p) (snd p))), s') /\
     gen s' = gen s) /\
  (exists s',
     forecast_marginal mdl k x nsamps false false s
     = (Ok (Samples (fst (simulate mdl (fst p) (snd p) nsamps (gen s)))), s') /\
     gen s' = snd (simulate mdl (fst p) (snd p) nsamps (gen s))).
Proof.
  intros Hsn Hx Hk p.
  set (h' := heap s ++ [NdVec (F_with mdl sn x); NdVec (spec_a_k sn k);
                        NdMat (spec_R_k sn (discount_forecast mdl) k)]).
  split.
  - exists (mkState h' (gen s)). split; [| reflexivity].
    unfold forecast_marginal.
    etransitivity; [apply (marginal_prefix_run mdl sn x k); assumption |].
    subst p. unfold marginal_params, marginal_moments.
    destruct (get_mean_and_var _ _ _ _) as [ft qt].
    cbn [fst snd]. destruct (get_conjugate_params _ _ _ _ _) as [p1 p2].
    reflexivity.
  - exists (mkState h' (snd (simulate mdl (fst p) (snd p) nsamps (gen s)))).
    split; [| reflexivity]. unfold forecast_marginal.
    etransitivity; [apply (marginal_prefix_run mdl sn x k); assumption |].
    subst p. unfold marginal_params, marginal_moments.
    destruct (get_mean_and_var _ _ _ _) as [ft qt].
    cbn [fst snd]. destruct (get_conjugate_params _ _ _ _ _) as [p1 p2].
    cbn [fst snd]. rewrite (bind_ok _ _ _ _ _ (draw_run _ _)). reflexivity.
Qed.

Lemma forecast_marginal_bindglm_mean_run mdl sn x n k nsamps s :
  snapshot_at mdl (heap s) sn -> regressor_fits mdl sn x -> (1 <= k)%Z ->
  forecast_marginal_bindglm mdl n k x nsamps true s
  = (Ok (MeanOnly (bin_get_mean mdl n (fst (marginal_params mdl sn x k))
                                (snd (marginal_params mdl sn x k)))),
     mkState (heap s ++ [NdVec (F_with mdl sn x); NdVec (spec_a_k sn k);
                         NdMat (spec_R_k sn (discount_forecast mdl) k)])
             (gen s)).
Proof.
  intros Hsn Hx Hk. unfold forecast_marginal_bindglm.
  etransitivity; [apply (marginal_prefix_run mdl sn x k); assumption |].
  unfold marginal_params, marginal_moments.
  destruct (get_mean_and_var _ _ _ _) as [ft qt].
  cbn [fst snd]. destruct (get_conjugate_params _ _ _ _ _) as [p1 p2].
  reflexivity.
Qed.

(** X13. [forecast_marginal_bindglm] in closed form, for regressors that fit
    and a horizon [k >= 1]: with [mean_only] the result is the family's
    [get_mean(n, param1, param2)] at the conjugate parameters matched to the
    moments of horizon [k], and no draw is made; otherwise it is the one
    draw [simulate(n, param1, param2, nsamps)]. *)
Theorem forecast_marginal_bindglm_closed_form mdl sn x n k nsamps s :
  snapshot_at mdl (heap s) sn -> regressor_fits mdl sn x -> (1 <= k)%Z ->
  let p := marginal_params mdl sn x k in
  (exists s',
     forecast_marginal_bindglm mdl n k x nsamps true s
     = (Ok (MeanOnly (bin_get_mean mdl n (fst p) (snd p))), s') /\
     gen s' = gen s) /\
  (exists s',
     forecast_marginal_bindglm mdl n k x nsamps false s
     = (Ok (Samples (fst (bin_simulate mdl n (fst p) (snd p) nsamps (gen s)))), s') /\
     gen s' = snd (bin_simulate mdl n (fst p) (snd p) nsamps (gen s))).
Proof.
  intros Hsn Hx Hk p.
  set (h' := heap s ++ [NdVec (F_with mdl sn x); NdVec (spec_a_k sn k);
                        NdMat (spec_R_k sn (discount_forecast mdl) k)]).
  split.
  - exists (mkState h' (gen s)). split; [| reflexivity].
    now apply forecast_marginal_bindglm_mean_run.
  - exists (mkState h' (snd (bin_simulate mdl n (fst p) (snd p) nsamps (gen s)))).
    split; [| reflexivity]. unfold forecast_marginal_bindglm.
    etransitivity; [apply (marginal_prefix_run mdl sn x k); assumption |].
    subst p. unfold marginal_params, marginal_moments.
    destruct (get_mean_and_var _ _ _ _) as [ft qt].
    cbn [fst snd]. destruct (get_conjugate_params _ _ _ _ _) as [p1 p2].
    cbn [fst snd]. rewrite (bind_ok _ _ _ _ _ (draw_run _ _)). reflexivity.
Qed.

Lemma npf_log_mean_Fin (dens : list R) :
  npf_log (npf_mean (map Fin dens))
  = match dens with
    | [] => NaN
    | _ :: _ => np_log (fold_right Rplus 0 dens / INR (length dens))
    end.
Proof.
  destruct dens as [| d dens].
  - unfold npf_mean, npf_sum. simpl.
    destruct (Req_dec_T 0 0); [reflexivity | contradiction].
  - now rewrite npf_mean_Fin.
Qed.

(** X14. [forecast_marginal_dens_MC] in closed form, for regressors that fit
    and a horizon [k >= 1]: one draw [simulate_from_prior(param1, param2,
    nsamps)] at the conjugate parameters matched to the moments of horizon
    [k], and the log of the mean of [sampling_density(y, .)] over the drawn
    values; NaN when no value is drawn. *)
Theorem forecast_marginal_dens_MC_closed_form mdl sn x k nsamps y s :
  snapshot_at mdl (heap s) sn -> regressor_fits mdl sn x -> (1 <= k)%Z ->
  let p := marginal_params mdl sn x k in
  let prior_samps := simulate_from_prior mdl (fst p) (snd p) nsamps (gen s) in
  let dens := sampling_density mdl y (fst prior_samps) in
  exists s',
    forecast_marginal_dens_MC mdl k x nsamps y s
    = (Ok match dens with
          | [] => NaN
          | _ :: _ => np_log (fold_right Rplus 0 dens / INR (length dens))
          end, s') /\
    gen s' = snd prior_samps.
Proof.
  intros Hsn Hx Hk p prior_samps dens.
  exists (mkState (heap s ++ [NdVec (F_with mdl sn x); NdVec (spec_a_k sn k);
                              NdMat (spec_R_k sn (discount_forecast mdl) k)])
                  (snd prior_samps)).
  split; [| reflexivity]. unfold forecast_marginal_dens_MC.
  etransitivity; [apply (marginal_prefix_run mdl sn x k); assumption |].
  subst dens prior_samps p. unfold marginal_params, marginal_moments.
  destruct (get_mean_and_var _ _ _ _) as [ft qt].
  cbn [fst snd]. destruct (get_conjugate_params _ _ _ _ _) as [p1 p2].
  cbn [fst snd]. rewrite (bind_ok _ _ _ _ _ (draw_run _ _)).
  unfold ret. cbn [heap gen]. now rewrite npf_log_mean_Fin.
Qed.

(** ** The regressors *)

(** X15. A model without regression terms ([nregn = 0]) ignores [X]: every
    forecaster that takes [X] returns the same result, store and generator
    for any two values of it. *)
Theorem regressors_ignored_without_regression mdl k (x x' : option vec)
    (X X' : option mat) nsamps mean_only state_mean_var n y t_dist yy nu s :
  nregn mdl = 0%nat ->
  forecast_marginal mdl k x nsamps mean_only state_mean_var s
  = forecast_marginal mdl k x' nsamps mean_only state_mean_var s /\
  forecast_state_mean_and_var mdl k x s = forecast_state_mean_and_var mdl k x' s /\
  forecast_marginal_bindglm mdl n k x nsamps mean_only s
  = forecast_marginal_bindglm mdl n k x' nsamps mean_only s /\
  forecast_marginal_dens_MC mdl k x nsamps y s
  = forecast_marginal_dens_MC mdl k x' nsamps y s /\
  forecast_path mdl k X nsamps s = forecast_path mdl k X' nsamps s /\
  forecast_path_approx lib mdl k X nsamps t_dist yy nu s
  = forecast_path_approx lib mdl k X' nsamps t_dist yy nu s /\
  forecast_path_normaldlm lib mdl k X nsamps s
  = forecast_path_normaldlm lib mdl k X' nsamps s.
Proof.
  intros H.
  unfold forecast_marginal, forecast_state_mean_and_var,
    forecast_marginal_bindglm, forecast_marginal_dens_MC, forecast_path,
    forecast_path_sample, forecast_path_step, forecast_path_update,
    forecast_path_approx, forecast_path_approx_moments,
    forecast_path_approx_step, forecast_path_normaldlm,
    forecast_path_normaldlm_step, plug_in_X, plug_in_row.
  rewrite H. repeat split; reflexivity.
Qed.

(** X16. A model with regression terms needs its regressors: with [X]
    left at None the marginal forecasters raise AttributeError at
    [X.reshape], and the path forecasters, asked for at least one step (and
    one sample), raise TypeError at [X[i,:]]. *)
Theorem missing_regressors_raise mdl sn k nsamps mean_only state_mean_var n y
    t_dist yy nu s :
  snapshot_at mdl (heap s) sn -> (0 < nregn mdl)%nat ->
  fst (forecast_marginal mdl k None nsamps mean_only state_mean_var s)
  = Raise AttributeError /\
  fst (forecast_state_mean_and_var mdl k None s) = Raise AttributeError /\
  fst (forecast_marginal_bindglm mdl n k None nsamps mean_only s)
  = Raise AttributeError /\
  fst (forecast_marginal_dens_MC mdl k None nsamps y s) = Raise AttributeError /\
  ((1 <= k)%Z -> (0 < nsamps)%nat ->
   fst (forecast_path mdl k None nsamps s) = Raise TypeError) /\
  ((1 <= k)%Z ->
   fst (forecast_path_approx lib mdl k None nsamps t_dist yy nu s)
   = Raise TypeError).
Proof.
  intros Hsn Hpos.
  assert (HF : heap s !! mod_F mdl = Some (NdVec (snap_F sn))) by apply Hsn.
  assert (Hx : forall lF s1,
             plug_in_X mdl lF None s1 = (Raise AttributeError, s1))
    by (intros; now apply plug_in_X_none).
  assert (Hrow : forall lF s1,
             plug_in_row mdl lF None 0 s1 = (Raise TypeError, s1))
    by (intros; now apply plug_in_row_none).
  unfold forecast_marginal, forecast_state_mean_and_var,
    forecast_marginal_bindglm, forecast_marginal_dens_MC.
  rewrite !(marginal_prefix_refused mdl None k AttributeError _ _ s HF Hx).
  repeat split.
  - intros Hk Hn. now apply (forecast_path_refused mdl sn).
  - intros Hk. now apply (forecast_path_approx_refused mdl sn).
Qed.

(** X17. Regressors of the wrong size are refused by [reshape]: for a
    model with regression terms, a vector [x] whose length is not [nregn]
    makes the marginal forecasters raise ValueError, and a first row of [X]
    whose length is not [nregn] makes the path forecasters, asked for at
    least one step (and one sample), raise ValueError. *)
Theorem wrong_size_regressors_raise mdl sn k (x : vec) (A : mat) (r : vec)
    nsamps mean_only state_mean_var n y t_dist yy nu s :
  snapshot_at mdl (heap s) sn -> (0 < nregn mdl)%nat ->
  (length x <> nregn mdl ->
   fst (forecast_marginal mdl k (Some x) nsamps mean_only state_mean_var s)
   = Raise ValueError /\
   fst (forecast_state_mean_and_var mdl k (Some x) s) = Raise ValueError /\
   fst (forecast_marginal_bindglm mdl n k (Some x) nsamps mean_only s)
   = Raise ValueError /\
   fst (forecast_marginal_dens_MC mdl k (Some x) nsamps y s) = Raise ValueError) /\
  (A !! 0%nat = Some r -> length r <> nregn mdl -> (1 <= k)%Z ->
   ((0 < nsamps)%nat ->
    fst (forecast_path mdl k (Some A) nsamps s) = Raise ValueError) /\
   fst (forecast_path_approx lib mdl k (Some A) nsamps t_dist yy nu s)
   = Raise ValueError).
Proof.
  intros Hsn Hpos.
  assert (HF : heap s !! mod_F mdl = Some (NdVec (snap_F sn))) by apply Hsn.
  split.
  - intros Hl.
    assert (Hx : forall lF s1,
               plug_in_X mdl lF (Some x) s1 = (Raise ValueError, s1))
      by (intros; now apply plug_in_X_wrong_size).
    unfold forecast_marginal, forecast_state_mean_and_var,
      forecast_marginal_bindglm, forecast_marginal_dens_MC.
    rewrite !(marginal_prefix_refused mdl (Some x) k ValueError _ _ s HF Hx).
    repeat split.
  - intros Hr Hl Hk.
    assert (Hrow : forall lF s1,
               plug_in_row mdl lF (Some A) 0 s1 = (Raise ValueError, s1))
      by (intros; now apply (plug_in_row_wrong_size mdl lF A r)).
    split.
    + intros Hn. now apply (forecast_path_refused mdl sn).
    + now apply (forecast_path_approx_refused mdl sn).
Qed.

Lemma matrix_power_singular (G : list (list R)) n :
  (n < 0)%Z -> det G = 0 -> matrix_power G n = Raise LinAlgError.
Proof.
  intros Hn Hdet. unfold matrix_power, np_inv.
  destruct (Z.ltb_spec n 0); [| lia].
  destruct (Req_dec_T (det G) 0); [reflexivity | contradiction].
Qed.

(** X18. The marginal forecasters make no check of the horizon either: for
    [k < 1] and a singular [G], the LinAlgError of [forecast_aR] reaches the
    caller of [forecast_marginal], [forecast_state_mean_and_var],
    [forecast_marginal_bindglm] and [forecast_marginal_dens_MC], after the
    regressors have been accepted. *)
Theorem marginal_forecasters_raise_LinAlgError mdl sn x k nsamps mean_only
    state_mean_var n y s :
  snapshot_at mdl (heap s) sn -> regressor_fits mdl sn x ->
  (k < 1)%Z -> det (snap_G sn) = 0 ->
  fst (forecast_marginal mdl k x nsamps mean_only state_mean_var s)
  = Raise LinAlgError /\
  fst (forecast_state_mean_and_var mdl k x s) = Raise LinAlgError /\
  fst (forecast_marginal_bindglm mdl n k x nsamps mean_only s)
  = Raise LinAlgError /\
  fst (forecast_marginal_dens_MC mdl k x nsamps y s) = Raise LinAlgError.
Proof.
  intros Hsn Hx Hk Hdet.
  pose proof (matrix_power_singular (snap_G sn) (k - 1) ltac:(lia) Hdet) as Hp.
  unfold forecast_marginal, forecast_state_mean_and_var,
    forecast_marginal_bindglm, forecast_marginal_dens_MC.
  rewrite !(marginal_prefix_raise mdl sn x k LinAlgError _ s Hsn Hx Hp).
  repeat split.
Qed.

(** ** Paths of no step and of one step *)

Lemma forecast_path_sample_zero mdl sn X lF lsamps n s :
  snapshot_at mdl (heap s) sn ->
  forecast_path_sample mdl 0 X lF lsamps n s
  = (Ok tt, mkState (heap s ++ [NdVec (snap_a sn); NdMat (snap_R sn)]) (gen s)).
Proof.
  intros Hsn. unfold forecast_path_sample.
  now rewrite (bind_ok _ _ _ _ _ (working_copy_run mdl s sn Hsn)).
Qed.

Lemma take_shorter {A} (h l2 h' : list A) :
  take (length (h ++ l2)) h' = h ++ l2 -> take (length h) h' = h.
Proof.
  intros Ht.
  transitivity (take (length h) (take (length (h ++ l2)) h')).
  - rewrite take_take. f_equal. rewrite length_app. lia.
  - rewrite Ht. apply take_app_length.
Qed.

Lemma forecast_path_zero_loop mdl sn X lF lsamps ns start s :
  snapshot_at mdl (heap s) sn ->
  exists s',
    for_each (seq start ns)
             (fun n (_ : unit) => forecast_path_sample mdl 0 X lF lsamps n) tt s
    = (Ok tt, s') /\
    take (length (heap s)) (heap s') = heap s /\ gen s' = gen s.
Proof.
  revert start s. induction ns as [| ns IH]; intros start s Hsn.
  - exists s. split; [reflexivity |]. split; [now apply take_ge | reflexivity].
  - simpl seq. simpl for_each.
    rewrite (bind_ok _ _ _ _ _
               (forecast_path_sample_zero mdl sn X lF lsamps start s Hsn)).
    destruct (IH (S start)
                (mkState (heap s ++ [NdVec (snap_a sn); NdMat (snap_R sn)]) (gen s)))
      as (s' & Hrun & Ht & Hg).
    { eapply snapshot_at_extends; [| exact Hsn]. apply take_app_length. }
    exists s'. split; [exact Hrun |]. split; [| exact Hg].
    cbn [heap] in Ht. now apply take_shorter in Ht.
Qed.

(** X19. A path of no step: for [k = 0], [forecast_path] returns an array
    of [nsamps] empty rows, whatever [X] is, and makes no draw. *)
Theorem forecast_path_zero_steps mdl sn X nsamps s :
  snapshot_at mdl (heap s) sn ->
  exists s',
    forecast_path mdl 0 X nsamps s = (Ok (replicate nsamps []), s') /\
    gen s' = gen s.
Proof.
  intros Hsn. unfold forecast_path, np_zeros2.
  destruct (Z.ltb_spec (Z.of_nat nsamps) 0); [lia |].
  simpl orb. cbv iota. rewrite Nat2Z.id. simpl Z.to_nat. simpl (replicate 0 0).
  simpl lift. rewrite bind_ret, bind_alloc. cbn [heap gen].
  set (z := replicate nsamps []).
  assert (HF : (heap s ++ [NdMat z]) !! mod_F mdl = Some (NdVec (snap_F sn))).
  { apply lookup_app_l_Some. apply Hsn. }
  rewrite (bind_ok _ _ _ _ _
             (np_copy_run _ _ (mkState (heap s ++ [NdMat z]) (gen s)) HF)).
  cbn [heap gen].
  set (h2 := (heap s ++ [NdMat z]) ++ [NdVec (snap_F sn)]).
  assert (Hsn2 : snapshot_at mdl h2 sn).
  { eapply snapshot_at_extends; [| exact Hsn]. unfold h2.
    rewrite <- app_assoc. apply take_app_length. }
  destruct (forecast_path_zero_loop mdl sn X (length (heap s ++ [NdMat z]))
              (length (heap s)) nsamps 0 (mkState h2 (gen s)) Hsn2)
    as (s' & Hrun & Ht & Hg).
  rewrite (bind_ok _ _ _ _ _ Hrun). exists s'. split; [| exact Hg].
  apply load_mat_ok. eapply lookup_extends; [exact Ht |].
  cbn [heap]. unfold h2. apply lookup_app_l_Some. apply lookup_snoc_length.
Qed.

Lemma getitem2_run l (A : list (list R)) i j (row : list R) x s :
  heap s !! l = Some (NdMat A) -> A !! i = Some row -> row !! j = Some x ->
  getitem2 l i j s = (Ok x, s).
Proof.
  intros Hl Hi Hj. unfold getitem2. run_load. now rewrite Hi, Hj.
Qed.

Lemma lookup_mset r c (A : list (list R)) i j x :
  is_mat r c A -> (i < r)%nat -> (j < c)%nat ->
  exists row, mset A i j x !! i = Some row /\ row !! j = Some x.
Proof.
  intros [Hr Hc] Hi Hj. unfold mset. eexists. split.
  - apply list_lookup_insert_eq. lia.
  - apply list_lookup_insert_eq.
    rewrite List.Forall_forall in Hc. rewrite (Hc (nth i A [])); [lia |].
    apply nth_In. lia.
Qed.

(** Lines 63-81 run on a store holding the working arrays. *)
Lemma forecast_path_update_run mdl sn K X lF lsamps la lR n i p1 p2
    (Fcur av : list R) (Rv S : list (list R)) r c y g' s :
  regressors_ok mdl sn K X -> (i < K)%nat ->
  heap s !! lF = Some (NdVec Fcur) -> agree_off (iregn mdl) Fcur (snap_F sn) ->
  heap s !! la = Some (NdVec av) -> heap s !! lR = Some (NdMat Rv) ->
  heap s !! lsamps = Some (NdMat S) -> is_mat r c S ->
  (n < r)%nat -> (i < c)%nat ->
  la <> lF -> lR <> lF -> lsamps <> lF ->
  simulate mdl
    (fst (get_conjugate_params mdl
            (fst (get_mean_and_var mdl (F_at mdl sn X i) av Rv))
            (snd (get_mean_and_var mdl (F_at mdl sn X i) av Rv)) p1 p2))
    (snd (get_conjugate_params mdl
            (fst (get_mean_and_var mdl (F_at mdl sn X i) av Rv))
            (snd (get_mean_and_var mdl (F_at mdl sn X i) av Rv)) p1 p2))
    1 (gen s) = ([y], g') ->
  exists u,
    forecast_path_update mdl X lF lsamps n i (p1, p2, la, lR) s
    = (Ok u,
       mkState (<[lsamps := NdMat (mset S n i y)]>
                  (<[lF := NdVec (F_at mdl sn X i)]> (heap s))) g').
Proof.
  intros HX Hi HF Hag Ha HR HS Hshape Hn Hc Hnea HneR HneS Hsim.
  destruct (get_mean_and_var mdl (F_at mdl sn X i) av Rv) as [ft qt] eqn:Hm.
  cbn [fst snd] in Hsim.
  destruct (get_conjugate_params mdl ft qt p1 p2) as [q1 q2] eqn:Hq.
  cbn [fst snd] in Hsim.
  destruct (update_conjugate_params mdl y q1 q2) as [[[p1' p2'] fs] qs] eqn:Hu.
  destruct (plug_in_row_run mdl sn K X lF Fcur i s HX Hi HF Hag)
    as (s1 & Hrun1 & Hheap1 & Hgen1).
  destruct (lookup_mset r c S n i y Hshape Hn Hc) as (row & Hrow & Hy).
  assert (HlF : (lF < length (heap s))%nat) by now apply lookup_lt_Some in HF.
  assert (HlS : (lsamps < length (heap s))%nat) by now apply lookup_lt_Some in HS.
  eexists. unfold forecast_path_update.
  rewrite (bind_ok _ _ _ _ _ Hrun1).
  erewrite bind_ok;
    [| apply load_vec_ok; rewrite Hheap1; now apply list_lookup_insert_eq].
  erewrite bind_ok;
    [| apply load_vec_ok; rewrite Hheap1, list_lookup_insert_ne by auto;
       exact Ha].
  erewrite bind_ok;
    [| apply load_mat_ok; rewrite Hheap1, list_lookup_insert_ne by auto;
       exact HR].
  rewrite Hm, Hq.
  rewrite (bind_ok _ _ _ _ _ (draw_run _ _)). rewrite Hgen1, Hsim.
  cbn [fst snd]. simpl lift. rewrite bind_ret.
  erewrite bind_ok;
    [| apply (setitem2_run r c _ S); cbn [heap];
       [rewrite Hheap1, list_lookup_insert_ne by auto; exact HS
       | assumption | assumption | assumption]].
  cbn [heap gen].
  erewrite bind_ok;
    [| eapply getitem2_run;
       [cbn [heap]; apply list_lookup_insert_eq; rewrite Hheap1, length_insert;
        exact HlS
       | exact Hrow | exact Hy]].
  rewrite Hu. unfold ret. rewrite Hheap1. reflexivity.
Qed.

Lemma regressors_ok_fits mdl sn X i :
  regressors_ok mdl sn (S i) X ->
  regressor_fits mdl sn (row_regressors X i) /\
  F_with mdl sn (row_regressors X i) = F_at mdl sn X i.
Proof.
  intros (Hlen & Hidx & HX). unfold regressor_fits, F_with, F_at.
  destruct (Nat.ltb_spec 0 (nregn mdl)) as [Hpos | Hzero].
  - destruct (HX Hpos) as (A & -> & Hrows).
    destruct (Hrows i ltac:(lia)) as (r & Hr & Hrl).
    simpl row_regressors. rewrite Hr, (nth_lookup_Some _ _ _ _ Hr).
    repeat split; try assumption. intros _. now exists r.
  - repeat split; try assumption. intros; lia.
Qed.

Lemma forecast_marginal_samples_run mdl sn x k nsamps s :
  snapshot_at mdl (heap s) sn -> regressor_fits mdl sn x -> (1 <= k)%Z ->
  forecast_marginal mdl k x nsamps false false s
  = (Ok (Samples (fst (simulate mdl (fst (marginal_params mdl sn x k))
                                (snd (marginal_params mdl sn x k)) nsamps (gen s)))),
     mkState (heap s ++ [NdVec (F_with mdl sn x); NdVec (spec_a_k sn k);
                         NdMat (spec_R_k sn (discount_forecast mdl) k)])
             (snd (simulate mdl (fst (marginal_params mdl sn x k))
                            (snd (marginal_params mdl sn x k)) nsamps (gen s)))).
Proof.
  intros Hsn Hx Hk. unfold forecast_marginal.
  etransitivity; [apply (marginal_prefix_run mdl sn x k); assumption |].
  unfold marginal_params, marginal_moments.
  destruct (get_mean_and_var _ _ _ _) as [ft qt].
  cbn [fst snd]. destruct (get_conjugate_params _ _ _ _ _) as [p1 p2].
  cbn [fst snd]. now rewrite (bind_ok _ _ _ _ _ (draw_run _ _)).
Qed.

(** X20. One step of one path is the marginal forecast: for a snapshot of
    dimension [p] and regressors that fit, when the family's [simulate]
    gives the single value [y] for the parameters matched at horizon 1,
    [forecast_path] with [k = 1] and [nsamps = 1] returns [[y]], the draw
    that [forecast_marginal] returns at horizon 1 with the first row of [X],
    and both leave the generator in the same state. *)
Theorem forecast_path_one_step_is_marginal mdl sn p X s y g' :
  snapshot_at mdl (heap s) sn -> snapshot_shape p sn ->
  regressors_ok mdl sn 1 X ->
  simulate mdl (fst (marginal_params mdl sn (row_regressors X 0) 1))
           (snd (marginal_params mdl sn (row_regressors X 0) 1)) 1 (gen s)
  = ([y], g') ->
  exists s1 s2,
    forecast_marginal mdl 1 (row_regressors X 0) 1 false false s
    = (Ok (Samples [y]), s1) /\
    forecast_path mdl 1 X 1 s = (Ok [[y]], s2) /\
    gen s1 = g' /\ gen s2 = g'.
Proof.
  intros Hsn Hshape HX Hsim.
  destruct (regressors_ok_fits mdl sn X 0 HX) as [Hfit HFeq].
  destruct (spec_horizon_one p sn (discount_forecast mdl) Hshape) as [Ha1 HR1].
  pose proof (forecast_marginal_samples_run mdl sn _ 1 1 s Hsn Hfit ltac:(lia))
    as Hmarg.
  rewrite Hsim in Hmarg. cbn [fst snd] in Hmarg.
  unfold marginal_params, marginal_moments in Hsim.
  rewrite HFeq, Ha1, HR1 in Hsim.
  (* the path *)
  set (n0 := length (heap s)).
  set (h3 := heap s ++ [NdMat [[0]]; NdVec (snap_F sn); NdVec (snap_a sn);
                        NdMat (snap_R sn)]).
  assert (Hext3 : take n0 h3 = heap s) by apply take_app_length.
  assert (Hsamps : h3 !! n0 = Some (NdMat [[0]]))
    by (unfold h3; now apply list_lookup_middle).
  assert (HlF : h3 !! S n0 = Some (NdVec (snap_F sn))).
  { unfold h3. change (heap s ++ [?a; ?b; ?c; ?d])
      with (heap s ++ [a] ++ b :: [c; d]).
    rewrite app_assoc. apply list_lookup_middle. rewrite length_app. simpl. lia. }
  assert (Hla : h3 !! S (S n0) = Some (NdVec (snap_a sn))).
  { unfold h3. change (heap s ++ [?a; ?b; ?c; ?d])
      with (heap s ++ [a; b] ++ c :: [d]).
    rewrite app_assoc. apply list_lookup_middle. rewrite length_app. simpl. lia. }
  assert (HlR : h3 !! S (S (S n0)) = Some (NdMat (snap_R sn))).
  { unfold h3. change (heap s ++ [?a; ?b; ?c; ?d])
      with (heap s ++ [a; b; c] ++ [d]).
    rewrite app_assoc. apply list_lookup_middle. rewrite length_app. simpl. lia. }
  destruct (forecast_path_update_run mdl sn 1 X (S n0) n0 (S (S n0))
              (S (S (S n0))) 0 0 (param1 mdl) (param2 mdl) (snap_F sn)
              (snap_a sn) (snap_R sn) [[0]] 1 1 y g' (mkState h3 (gen s)))
    as (u & Hupd); cbn [heap gen]; try assumption; try lia.
  { apply agree_off_refl. }
  { split; [reflexivity | repeat constructor]. }
  set (s5 := mkState (<[n0 := NdMat (mset [[0]] 0 0 y)]>
                        (<[S n0 := NdVec (F_at mdl sn X 0)]> h3)) g') in Hupd.
  assert (Hext5 : take n0 (heap s5) = heap s).
  { cbn [heap s5]. rewrite !take_insert_ge by lia. exact Hext3. }
  pose proof (snapshot_at_extends mdl _ _ sn Hext5 Hsn) as Hsn5.
  destruct (forecast_path_propagate_run mdl sn (snd (fst u)) (snd u) s5 Hsn5)
    as (la' & lR' & s6 & Hprop & _ & _).
  pose proof (frame_store_unchanged _ _ s5
                (frame_forecast_path_propagate (length (heap s5)) mdl
                   (snd (fst u)) (snd u))) as Hfr.
  pose proof (nodraw_forecast_path_propagate mdl (snd (fst u)) (snd u) s5) as Hnd.
  rewrite Hprop in Hfr, Hnd. cbn [snd] in Hfr, Hnd.
  eexists _, s6. split; [exact Hmarg |]. split; [| split; [reflexivity | exact Hnd]].
  unfold forecast_path, np_zeros2. simpl Z.ltb. simpl orb. cbv iota.
  simpl Z.to_nat. simpl replicate. simpl lift.
  rewrite bind_ret, bind_alloc. cbn [heap gen].
  assert (HF1 : (heap s ++ [NdMat [[0]]]) !! mod_F mdl = Some (NdVec (snap_F sn))).
  { apply lookup_app_l_Some. apply Hsn. }
  rewrite (bind_ok _ _ _ _ _
             (np_copy_run _ _ (mkState (heap s ++ [NdMat [[0]]]) (gen s)) HF1)).
  cbn [heap gen]. simpl seq. simpl for_each. rewrite bind_bind.
  unfold forecast_path_sample.
  assert (Hsn2 : snapshot_at mdl ((heap s ++ [NdMat [[0]]]) ++ [NdVec (snap_F sn)]) sn).
  { eapply snapshot_at_extends; [| exact Hsn].
    rewrite <- app_assoc. apply take_app_length. }
  rewrite !bind_bind.
  rewrite (bind_ok _ _ _ _ _
             (working_copy_run mdl
                (mkState ((heap s ++ [NdMat [[0]]]) ++ [NdVec (snap_F sn)]) (gen s))
                sn Hsn2)).
  cbn [heap gen]. rewrite !length_app. simpl length. rewrite !Nat.add_1_r.
  fold n0.
  replace (((heap s ++ [NdMat [[0]]]) ++ [NdVec (snap_F sn)])
             ++ [NdVec (snap_a sn); NdMat (snap_R sn)]) with h3
    by (unfold h3; now rewrite <- !app_assoc).
  unfold range. simpl Z.to_nat. simpl seq. simpl for_each.
  unfold forecast_path_step. rewrite !bind_bind.
  rewrite (bind_ok _ _ _ _ _ Hupd). rewrite !bind_bind.
  rewrite (bind_ok _ _ _ _ _ Hprop). rewrite !bind_ret.
  apply load_mat_ok. eapply lookup_extends; [exact Hfr |].
  cbn [heap s5]. apply list_lookup_insert_eq.
  rewrite length_insert. now apply lookup_lt_Some in Hsamps.
Qed.

(** ** The multi-series functions and the number of models *)

Lemma joint_conj_param_raises (lambda_mu : list R) (lambda_cov : list (list R))
    (im : nat * Model param rng) e :
  joint_conj_param lambda_mu lambda_cov im = Raise e -> e = IndexError.
Proof.
  destruct im as [i m]. unfold joint_conj_param.
  destruct (lambda_mu !! i); [| now intros [= <-]].
  destruct (lambda_cov !! i) as [row |]; [| now intros [= <-]].
  destruct (row !! i); [discriminate | now intros [= <-]].
Qed.

Lemma joint_conj_params_short (l : list (Model param rng)) (lambda_mu : list R)
    (lambda_cov : list (list R)) start :
  (start <= length lambda_mu)%nat -> (length lambda_mu < start + length l)%nat ->
  map_res (joint_conj_param lambda_mu lambda_cov) (combine (seq start (length l)) l)
  = Raise IndexError.
Proof.
  revert start. induction l as [| m l IH]; intros start Hs Hl;
    [simpl in Hl; lia |].
  cbn [length seq combine map_res]. cbn [length] in Hl.
  destruct (joint_conj_param lambda_mu lambda_cov (start, m)) as [cp | e] eqn:Hcp.
  - rewrite IH; [reflexivity | | lia].
    unfold joint_conj_param in Hcp.
    destruct (lambda_mu !! start) eqn:Hmu; [| discriminate].
    apply lookup_lt_Some in Hmu. lia.
  - now rewrite (joint_conj_param_raises _ _ _ _ Hcp).
Qed.

(** X21. The number of models is not checked against the number of
    margins.  Once the joint draw has returned, [forecast_joint_approx_sim]
    returns an empty array for an empty list of models, and raises
    IndexError, at [lambda_mu[i]], for a list longer than [lambda_mu]. *)
Theorem joint_sim_model_count (mod_list : list (Model param rng))
    (lambda_mu : vec) (lambda_cov : mat) nsamps t_dist nu s js genlist s1 :
  joint_draw lib lambda_mu lambda_cov nsamps t_dist nu s = (Ok (js, genlist), s1) ->
  forecast_joint_approx_sim lib (@nil (Model param rng)) lambda_mu lambda_cov
                            nsamps t_dist nu s
  = (Ok [], s1) /\
  ((length lambda_mu < length mod_list)%nat ->
   forecast_joint_approx_sim lib mod_list lambda_mu lambda_cov nsamps t_dist nu s
   = (Raise IndexError, s1)).
Proof.
  intros Hj. unfold forecast_joint_approx_sim. rewrite !(bind_ok _ _ _ _ _ Hj).
  split; [reflexivity |].
  intros Hl. unfold joint_conj_params, enumerate.
  rewrite (joint_conj_params_short mod_list lambda_mu lambda_cov 0) by lia.
  reflexivity.
Qed.

Lemma joint_conj_params_replicate mdl (lambda_mu : list R)
    (lambda_cov : list (list R)) n m start :
  length lambda_mu = n -> is_mat n n lambda_cov -> (start + m <= n)%nat ->
  map_res (joint_conj_param lambda_mu lambda_cov)
          (combine (seq start m) (replicate m mdl))
  = Ok (map (fun i => get_conjugate_params mdl (vget lambda_mu i)
                        (mget lambda_cov i i) (param1 mdl) (param2 mdl))
            (seq start m)).
Proof.
  intros Hmu [Hr Hc]. revert start.
  induction m as [| m IH]; intros start Hs; simpl; [reflexivity |].
  rewrite IH by lia.
  destruct (nth_lookup_or_length lambda_mu start 0) as [Hf | Hf]; [| lia].
  destruct (nth_lookup_or_length lambda_cov start []) as [Hrow | Hrow]; [| lia].
  destruct (nth_lookup_or_length (nth start lambda_cov []) start 0) as [Hq | Hq].
  - unfold vget, mget. now rewrite Hf, Hrow, Hq.
  - rewrite List.Forall_forall in Hc.
    rewrite (Hc (nth start lambda_cov [])) in Hq; [lia | apply nth_In; lia].
Qed.

Lemma joint_conj_params_one_model mdl (lambda_mu : list R)
    (lambda_cov : list (list R)) n :
  length lambda_mu = n -> is_mat n n lambda_cov ->
  joint_conj_params (replicate n mdl) lambda_mu lambda_cov
  = Ok (conj_params_of mdl lambda_mu lambda_cov).
Proof.
  intros Hmu Hcov. unfold joint_conj_params, enumerate.
  rewrite length_replicate.
  rewrite (joint_conj_params_replicate mdl lambda_mu lambda_cov n n 0)
    by (try assumption; lia).
  rewrite (conj_params_of_matched n) by assumption.
  unfold matched_params. now rewrite Hmu.
Qed.

Lemma mod_after_loop_replicate mdl n :
  mod_after_loop (replicate (S n) mdl) = Some mdl.
Proof.
  unfold mod_after_loop. induction n as [| n IH]; [reflexivity |].
  simpl in *. exact IH.
Qed.

(** X22. For a list of copies of one model, one per margin, the
    multi-series functions are the single-series ones:
    [forecast_joint_approx_sim] returns what [forecast_path_approx_sim]
    returns for that model, and [forecast_joint_approx_dens_MC], given one
    copy per observed entry of [y], what [forecast_path_approx_dens_MC]
    returns. *)
Theorem joint_of_one_model_is_path mdl n (lambda_mu : vec) (lambda_cov : mat)
    nsamps t_dist nu k s :
  length lambda_mu = n -> is_mat n n lambda_cov ->
  forecast_joint_approx_sim lib (replicate n mdl) lambda_mu lambda_cov nsamps
                            t_dist nu s
  = forecast_path_approx_sim lib mdl k lambda_mu lambda_cov nsamps t_dist nu s /\
  (forall y, length y = n ->
     forecast_joint_approx_dens_MC lib
       (replicate (length (compress (not_missing y) y)) mdl) y lambda_mu
       lambda_cov t_dist nu nsamps s
     = forecast_path_approx_dens_MC lib mdl y lambda_mu lambda_cov t_dist nu
                                    nsamps s).
Proof.
  intros Hmu Hcov. split.
  - unfold forecast_joint_approx_sim, forecast_path_approx_sim.
    apply bind_ext. intros [js genlist] s1.
    rewrite (joint_conj_params_one_model mdl lambda_mu lambda_cov n Hmu Hcov).
    simpl lift. rewrite bind_ret.
    destruct n as [| n].
    + destruct lambda_mu; [| discriminate]. reflexivity.
    + rewrite mod_after_loop_replicate, joint_priorlist_of_bound_model.
      reflexivity.
  - intros y Hy.
    unfold forecast_joint_approx_dens_MC, forecast_path_approx_dens_MC.
    fold (not_missing y).
    destruct (bool_index lambda_mu (not_missing y)) as [mu' | e] eqn:Hm;
      [| reflexivity].
    destruct (ix_index lambda_cov (not_missing y)) as [cov' | e] eqn:Hc;
      [| reflexivity].
    simpl lift. rewrite !bind_ret. apply bind_ext. intros [js genlist] s1.
    destruct (bool_index_ok _ _ _ Hm) as [_ Hlm].
    assert (Hly : length (compress (not_missing y) y)
                  = length (nonzero_from 0 (not_missing y))).
    { apply length_compress. unfold not_missing. now rewrite length_map. }
    remember (length (compress (not_missing y) y)) as m eqn:Em.
    rewrite (joint_conj_params_one_model mdl mu' cov' m)
      by (try congruence; rewrite Hly; now apply (is_mat_ix_index lambda_cov)).
    simpl lift. rewrite bind_ret.
    destruct m as [| m'].
    + destruct mu'; [| simpl in *; lia].
      destruct (compress (not_missing y) y); [| discriminate]. reflexivity.
    + rewrite mod_after_loop_replicate, joint_priorlist_of_bound_model.
      simpl lift. rewrite bind_ret.
      rewrite joint_density_list_of_bound_model. reflexivity.
Qed.

(** ** The two uses of the joint moments *)

(** X23. [forecast_path_approx] is its moment loop followed by one of the
    two copula functions: for regressors that fit and [k >= 0], the loop
    builds [lambda_mu] and [lambda_cov] without a draw, and the call returns
    the sample paths of [forecast_path_approx_sim] on them when [y] is None,
    the log density of [forecast_path_approx_dens_MC] on them when [y] is
    given, starting from the caller's generator state. *)
Theorem forecast_path_approx_dispatch mdl sn X k nsamps t_dist nu s :
  snapshot_at mdl (heap s) sn -> (0 <= k)%Z ->
  regressors_ok mdl sn (Z.to_nat k) X ->
  exists lambda_mu lambda_cov s1,
    forecast_path_approx_moments mdl k X s = (Ok (lambda_mu, lambda_cov), s1) /\
    gen s1 = gen s /\
    forecast_path_approx lib mdl k X nsamps t_dist None nu s
    = match forecast_path_approx_sim lib mdl k lambda_mu lambda_cov nsamps
              t_dist nu s1 with
      | (Ok samps, s2) => (Ok (SamplePaths samps), s2)
      | (Raise e, s2) => (Raise e, s2)
      end /\
    forall y,
      forecast_path_approx lib mdl k X nsamps t_dist (Some y) nu s
      = match forecast_path_approx_dens_MC lib mdl y lambda_mu lambda_cov
                t_dist nu nsamps s1 with
        | (Ok d, s2) => (Ok (LogDensity d), s2)
        | (Raise e, s2) => (Raise e, s2)
        end.
Proof.
  intros Hsn Hk HX.
  destruct (forecast_path_approx_moments_run mdl sn X k s Hsn Hk HX) as (s1 & Hrun).
  pose proof (nodraw_forecast_path_approx_moments mdl k X s) as Hnd.
  rewrite Hrun in Hnd. cbn [snd] in Hnd.
  eexists _, _, s1. split; [exact Hrun |]. split; [exact Hnd |].
  unfold forecast_path_approx. split; [| intros y];
    rewrite (bind_ok _ _ _ _ _ Hrun); unfold bind, ret.
  - now destruct (forecast_path_approx_sim _ _ _ _ _ _ _ _ s1) as [[samps | e] s2].
  - now destruct (forecast_path_approx_dens_MC _ _ _ _ _ _ _ _ s1) as [[d | e] s2].
Qed.

(** ** The loops of forecast_path *)

Lemma take_through {A} n (h h1 h2 : list A) :
  take n h1 = h -> (n <= length h1)%nat -> take (length h1) h2 = h1 ->
  take n h2 = h.
Proof.
  intros H1 Hn H2. rewrite <- H1, <- H2 at 1.
  rewrite take_take. f_equal. lia.
Qed.

Lemma agree_off_F_at mdl sn X i : agree_off (iregn mdl) (F_at mdl sn X i) (snap_F sn).
Proof.
  unfold F_at. destruct (Nat.ltb 0 (nregn mdl)); [| apply agree_off_refl].
  destruct X; [apply agree_off_set_rows | apply agree_off_refl].
Qed.

Lemma forecast_path_step_run mdl sn K X h0 n i w r c s :
  snapshot_at mdl h0 sn -> regressors_ok mdl sn K X -> simulates_one mdl ->
  (i < K)%nat -> (n < r)%nat -> (i < c)%nat ->
  path_inv mdl sn h0 r c w s ->
  exists w' s',
    forecast_path_step mdl X (S (length h0)) (length h0) n i w s = (Ok w', s') /\
    path_inv mdl sn h0 r c w' s'.
Proof.
  intros Hsn0 HX Hsim Hi Hn Hc
    ((Htake & (Sm & HS & Hshape) & (Fcur & HF & Hag)) & Hla & HlR & (av & Ha)
     & (Rv & HR)).
  destruct w as [[[p1 p2] la] lR]. cbn [fst snd] in *.
  set (n0 := length h0) in *.
  destruct (Hsim
              (fst (get_conjugate_params mdl
                      (fst (get_mean_and_var mdl (F_at mdl sn X i) av Rv))
                      (snd (get_mean_and_var mdl (F_at mdl sn X i) av Rv)) p1 p2))
              (snd (get_conjugate_params mdl
                      (fst (get_mean_and_var mdl (F_at mdl sn X i) av Rv))
                      (snd (get_mean_and_var mdl (F_at mdl sn X i) av Rv)) p1 p2))
              (gen s)) as (y & g' & Hy).
  destruct (forecast_path_update_run mdl sn K X (S n0) n0 la lR n i p1 p2 Fcur
              av Rv Sm r c y g' s HX Hi HF Hag Ha HR HS Hshape Hn Hc
              ltac:(lia) ltac:(lia) ltac:(lia) Hy) as (u & Hupd).
  set (s5 := mkState (<[n0 := NdMat (mset Sm n i y)]>
                        (<[S n0 := NdVec (F_at mdl sn X i)]> (heap s))) g')
    in Hupd.
  assert (HlenF : (S n0 < length (heap s))%nat) by now apply lookup_lt_Some in HF.
  assert (Hlen5 : length (heap s5) = length (heap s))
    by (cbn [heap s5]; now rewrite !length_insert).
  assert (Hext5 : take n0 (heap s5) = h0).
  { cbn [heap s5]. rewrite !take_insert_ge by lia. exact Htake. }
  pose proof (snapshot_at_extends mdl _ _ sn Hext5 Hsn0) as Hsn5.
  destruct (forecast_path_propagate_run mdl sn (snd (fst u)) (snd u) s5 Hsn5)
    as (la' & lR' & s6 & Hprop & Hla' & HlR').
  destruct (frame_forecast_path_propagate (length (heap s5)) mdl (snd (fst u))
              (snd u) s5 (le_n _)) as [Hfr Hpost].
  rewrite Hprop in Hfr, Hpost. cbn [fst snd] in Hfr, Hpost.
  destruct (Hpost _ eq_refl) as [Hge1 Hge2]. cbn [fst snd] in Hge1, Hge2.
  rewrite (take_ge (heap s5)) in Hfr by lia.
  exists (fst (fst (fst u)), snd (fst (fst u)), la', lR'), s6. split.
  - unfold forecast_path_step.
    now rewrite (bind_ok _ _ _ _ _ Hupd), (bind_ok _ _ _ _ _ Hprop).
  - unfold path_inv, path_store_inv. cbn [fst snd]. fold n0.
    split; [split; [| split] | split; [| split; [| split]]].
    + apply (take_through n0 h0 (heap s5)); [assumption | lia | assumption].
    + exists (mset Sm n i y). split; [| now apply is_mat_mset].
      eapply lookup_extends; [exact Hfr |]. cbn [heap s5].
      apply list_lookup_insert_eq. rewrite length_insert. lia.
    + exists (F_at mdl sn X i). split; [| apply agree_off_F_at].
      eapply lookup_extends; [exact Hfr |]. cbn [heap s5].
      rewrite list_lookup_insert_ne by lia. now apply list_lookup_insert_eq.
    + lia.
    + lia.
    + eauto.
    + eauto.
Qed.

Lemma forecast_path_steps_run mdl sn K X h0 n m w r c s :
  snapshot_at mdl h0 sn -> regressors_ok mdl sn K X -> simulates_one mdl ->
  (m <= K)%nat -> (n < r)%nat -> (m <= c)%nat ->
  path_inv mdl sn h0 r c w s ->
  exists w' s',
    for_each (seq 0 m) (forecast_path_step mdl X (S (length h0)) (length h0) n) w s
    = (Ok w', s') /\
    path_inv mdl sn h0 r c w' s'.
Proof.
  intros Hsn HX Hsim Hm Hn Hc Hinv. induction m as [| m IH].
  - exists w, s. split; [reflexivity | assumption].
  - destruct (IH ltac:(lia) ltac:(lia)) as (w1 & s1 & Hrun1 & Hinv1).
    destruct (forecast_path_step_run mdl sn K X h0 n m w1 r c s1 Hsn HX Hsim
                ltac:(lia) Hn ltac:(lia) Hinv1) as (w2 & s2 & Hrun2 & Hinv2).
    exists w2, s2. split; [| assumption].
    rewrite seq_S, for_each_app, (bind_ok _ _ _ _ _ Hrun1). simpl.
    now rewrite (bind_ok _ _ _ _ _ Hrun2).
Qed.

Lemma forecast_path_sample_run mdl sn X h0 k n r s :
  snapshot_at mdl h0 sn -> (0 <= k)%Z ->
  regressors_ok mdl sn (Z.to_nat k) X -> simulates_one mdl -> (n < r)%nat ->
  path_store_inv mdl sn h0 r (Z.to_nat k) s ->
  exists s',
    forecast_path_sample mdl k X (S (length h0)) (length h0) n s = (Ok tt, s') /\
    path_store_inv mdl sn h0 r (Z.to_nat k) s'.
Proof.
  intros Hsn0 Hk HX Hsim Hn Hinv.
  pose proof Hinv as (Htake & (Sm & HS & Hshape) & (Fcur & HF & Hag)).
  pose proof (snapshot_at_extends mdl _ _ sn Htake Hsn0) as Hsn.
  assert (HlenF : (S (length h0) < length (heap s))%nat)
    by now apply lookup_lt_Some in HF.
  unfold forecast_path_sample.
  rewrite (bind_ok _ _ _ _ _ (working_copy_run mdl s sn Hsn)).
  destruct (forecast_path_steps_run mdl sn (Z.to_nat k) X h0 n (Z.to_nat k)
              (param1 mdl, param2 mdl, length (heap s), S (length (heap s)))
              r (Z.to_nat k)
              (mkState (heap s ++ [NdVec (snap_a sn); NdMat (snap_R sn)]) (gen s))
              Hsn0 HX Hsim (le_n _) Hn (le_n _))
    as (w' & s' & Hrun & Hinv' & _).
  { unfold path_inv, path_store_inv. cbn [fst snd heap].
    split; [split; [| split] | split; [| split; [| split]]].
    - rewrite take_app_le by lia. exact Htake.
    - exists Sm. split; [now apply lookup_app_l_Some | assumption].
    - exists Fcur. split; [now apply lookup_app_l_Some | assumption].
    - lia.
    - lia.
    - eexists. apply lookup_alloc_fst.
    - eexists. apply lookup_alloc_snd. }
  unfold range. rewrite (bind_ok _ _ _ _ _ Hrun). exists s'. now split.
Qed.

Lemma forecast_path_samples_run mdl sn X h0 k r start cnt s :
  snapshot_at mdl h0 sn -> (0 <= k)%Z ->
  regressors_ok mdl sn (Z.to_nat k) X -> simulates_one mdl ->
  (start + cnt <= r)%nat ->
  path_store_inv mdl sn h0 r (Z.to_nat k) s ->
  exists s',
    for_each (seq start cnt)
      (fun n (_ : unit) =>
         forecast_path_sample mdl k X (S (length h0)) (length h0) n) tt s
    = (Ok tt, s') /\
    path_store_inv mdl sn h0 r (Z.to_nat k) s'.
Proof.
  intros Hsn Hk HX Hsim. revert start s.
  induction cnt as [| cnt IH]; intros start s Hr Hinv.
  - exists s. split; [reflexivity | assumption].
  - destruct (forecast_path_sample_run mdl sn X h0 k start r s Hsn Hk HX Hsim
                ltac:(lia) Hinv) as (s1 & Hrun1 & Hinv1).
    destruct (IH (S start) s1 ltac:(lia) Hinv1) as (s2 & Hrun2 & Hinv2).
    exists s2. split; [| assumption].
    simpl seq. simpl for_each. now rewrite (bind_ok _ _ _ _ _ Hrun1).
Qed.

(** X24. [forecast_path] returns: on a store holding the snapshot, for
    [k >= 0], regressors that fit the model over [k] steps and a family whose
    [simulate] gives one value when asked for one, the call raises nothing
    and returns an array of [nsamps] rows and [k] columns. *)
Theorem forecast_path_returns mdl sn X k nsamps s :
  snapshot_at mdl (heap s) sn -> (0 <= k)%Z ->
  regressors_ok mdl sn (Z.to_nat k) X -> simulates_one mdl ->
  exists samps s',
    forecast_path mdl k X nsamps s = (Ok samps, s') /\
    is_mat nsamps (Z.to_nat k) samps.
Proof.
  intros Hsn Hk HX Hsim. unfold forecast_path, np_zeros2.
  destruct (Z.ltb_spec (Z.of_nat nsamps) 0); [lia |].
  destruct (Z.ltb_spec k 0); [lia |]. simpl orb. cbv iota.
  rewrite Nat2Z.id. simpl lift. rewrite bind_ret, bind_alloc. cbn [heap gen].
  set (z := replicate nsamps (replicate (Z.to_nat k) 0)).
  assert (HF : (heap s ++ [NdMat z]) !! mod_F mdl = Some (NdVec (snap_F sn))).
  { apply lookup_app_l_Some. apply Hsn. }
  rewrite (bind_ok _ _ _ _ _
             (np_copy_run _ _ (mkState (heap s ++ [NdMat z]) (gen s)) HF)).
  cbn [heap gen]. rewrite length_app. simpl length. rewrite Nat.add_1_r.
  destruct (forecast_path_samples_run mdl sn X (heap s) k nsamps 0 nsamps
              (mkState ((heap s ++ [NdMat z]) ++ [NdVec (snap_F sn)]) (gen s))
              Hsn Hk HX Hsim (le_n _))
    as (s' & Hrun & _ & (Sm & HS & Hshape) & _).
  { unfold path_store_inv. cbn [heap]. split; [| split].
    - rewrite <- app_assoc. apply take_app_length.
    - exists z. split; [| apply is_mat_zeros].
      apply lookup_app_l_Some. apply lookup_snoc_length.
    - exists (snap_F sn). split; [| apply agree_off_refl].
      apply list_lookup_middle. rewrite length_app. simpl. lia. }
  rewrite (bind_ok _ _ _ _ _ Hrun). exists Sm, s'. split; [| assumption].
  now apply load_mat_ok.
Qed.

(** ** The shape of the copula samples *)










(** ** The loop of forecast_path_normaldlm *)






End WithLibrary.

End Properties.

(** * Concrete runs *)

(** Unfolds the array operations on explicit lists. *)
Ltac mat_compute :=
  cbv [matvec matmul transpose transpose_as vecmat outer dot diag identity mk_vec mk_mat
       nrows ncols sum_upto mget vget madd msub mscale mmap vmap vadd vsub
       zip_with map seq length hd nth fold_right Nat.eqb Nat.min Nat.add].


(** C5, as stated, fails: at horizon 0 the one-dimensional example returns
    the moments built from the inverse of [G] instead of raising. *)
Lemma forecast_aR_horizon_zero_returns :
  exists la lR s',
    forecast_aR demo_model 0 demo_state = (Ok (la, lR), s') /\
    heap s' !! la = Some (NdVec [0]) /\
    heap s' !! lR = Some (NdMat [[1]]).
Proof.
  assert (Hsn : snapshot_at demo_model (heap demo_state) demo_snapshot)
    by (repeat split; reflexivity).
  assert (Hp : matrix_power (snap_G demo_snapshot) (0 - 1) = Ok [[/ 1]]).
  { unfold matrix_power. simpl. now rewrite np_inv_1x1 by lra. }
  eexists _, _, _.
  split; [exact (forecast_aR_run_power demo_model demo_state demo_snapshot 0 _ Hsn Hp) |].
  cbn [heap gen demo_state].
  split; simpl; mat_compute; repeat f_equal; field.
Qed.

(** The amended statement on the one-dimensional example. *)
Lemma forecast_aR_no_horizon_check_demo :
  ((1 <= 0)%Z -> is_ok (fst (forecast_aR demo_model 0 demo_state))) /\
  ((0 < 1)%Z -> det (snap_G demo_snapshot) = 0 ->
     forecast_aR demo_model 0 demo_state = (Raise LinAlgError, demo_state)) /\
  ((0 < 1)%Z -> det (snap_G demo_snapshot) <> 0 ->
     exists Gi la lR s',
       np_inv (snap_G demo_snapshot) = Ok Gi /\
       forecast_aR demo_model 0 demo_state = (Ok (la, lR), s') /\
       heap s' !! la
         = Some (NdVec (matvec (mpow Gi (Z.to_nat (1 - 0))) (snap_a demo_snapshot))) /\
       heap s' !! lR
         = Some (NdMat
                   (let Gk := mpow Gi (Z.to_nat (1 - 0)) in
                    let Rk := matmul (matmul Gk (snap_R demo_snapshot)) (transpose Gk) in
                    if discount_forecast demo_model
                    then madd Rk (mscale (IZR (0 - 1)) (snap_W demo_snapshot)) else Rk))).
Proof.
  apply (forecast_aR_no_horizon_check demo_model demo_state demo_snapshot 0).
  repeat split; reflexivity.
Defined.



(** C1 fails on the code: in the multi-series functions the name [mod] read
    by the inverse-cdf, sampling and density stages is the last model of the
    list, at every index.  With two series whose inverse cdfs have slopes 1
    and 2 and a joint draw of 1 on both margins, the sample of the first
    series is 2, the transform of the second model, where the first model's
    own transform gives 1. *)
Theorem forecast_joint_approx_sim_reads_last_model :
  (forall (param rng : Type) (mdl : Model param rng) front cps us y priors,
     joint_priorlist (mod_after_loop (front ++ [mdl])) cps us
       = Ok (priorlist_of mdl cps us) /\
     joint_density_list (mod_after_loop (front ++ [mdl])) y priors
       = Ok (zip_with (fun yi prior => sampling_density mdl yi prior) y priors)) /\
  fst (forecast_joint_approx_sim demo_lib [demo_model; demo_double] [0; 0]
         [[1; 0]; [0; 1]] 1 false 9 demo_state) = Ok [[2; 2]] /\
  prior_inverse_cdf demo_model [1]
    (fst (get_conjugate_params demo_model 0 1 1 1))
    (snd (get_conjugate_params demo_model 0 1 1 1)) = [1] /\
  prior_inverse_cdf demo_double [1]
    (fst (get_conjugate_params demo_double 0 1 1 1))
    (snd (get_conjugate_params demo_double 0 1 1 1)) = [2].
Proof.
  split; [| split; [| split]].
  - intros param rng mdl front cps us y priors.
    unfold mod_after_loop. rewrite last_snoc.
    split; [apply joint_priorlist_of_bound_model
           | apply joint_density_list_of_bound_model].
  - unfold forecast_joint_approx_sim. simpl. mat_compute. simpl.
    repeat f_equal; lra.
  - simpl. f_equal. lra.
  - simpl. f_equal. lra.
Qed.

(** The frame of a call of [forecast_path] on the one-dimensional example:
    three steps, two samples. *)
Lemma forecast_calls_leave_snapshot_demo :
  take (length (heap demo_state))
       (heap (state_after demo_lib (Call_forecast_path demo_model 3 None 2)
                          demo_state))
  = heap demo_state /\
  snapshot_at demo_model
    (heap (state_after demo_lib (Call_forecast_path demo_model 3 None 2)
                       demo_state))
    demo_snapshot.
Proof.
  assert (Hsn : snapshot_at demo_model (heap demo_state) demo_snapshot)
    by (repeat split; reflexivity).
  destruct (forecast_calls_leave_snapshot demo_lib
              (Call_forecast_path demo_model 3 None 2)
              demo_model demo_state demo_snapshot Hsn) as (H1 & H2 & _).
  exact (conj H1 H2).
Defined.

(** The two branches of the density at [y = 1], [mean = 0], [scale = [[2]]],
    [nu = 3]. *)
Lemma multivariate_t_density_dim1_demo :
  multivariate_t_density demo_lib [1] [0] [[2]] 3
  = mvt_density_matrix demo_lib [1] [0] [[2]] 3.
Proof.
  apply (multivariate_t_density_dim1 demo_lib [1] [0] [[2]] 3).
  - reflexivity.
  - reflexivity.
  - split; [reflexivity | repeat constructor].
  - unfold mget. simpl. lra.
Defined.

(** The conjugate match on two margins of the example family. *)
Lemma conjugate_match_unscaled_demo :
  forecast_path_approx_sim demo_lib demo_model 2 [0; 0] [[1; 0]; [0; 1]] 1 true 9
                           demo_state
  = bind (joint_draw demo_lib [0; 0] [[1; 0]; [0; 1]] 1 true 9)
         (fun jg =>
            let priorlist :=
              priorlist_of demo_model
                (matched_params demo_model [0; 0] [[1; 0]; [0; 1]])
                (unif_rvs_of (snd jg) (fst jg)) in
            bind (map_M (fun prior =>
                           draw (simulate_from_sampling_model demo_model prior 1))
                        priorlist)
                 (fun cols => ret (transpose cols))) demo_state.
Proof.
  apply (conjugate_match_unscaled demo_lib demo_model 2 2 [0; 0] [[1; 0]; [0; 1]]
           1 true 9 [Fin 1; NaN] demo_state).
  - reflexivity.
  - split; [reflexivity | repeat constructor].
Defined.

(** Two margins, three samples: the densities of the second sample vanish. *)
Lemma log_mean_density_is_log_of_mean_product_demo :
  zip_star [[1; 0; 2]; [3; 0; 4]]
  = mk_mat 3 2 (fun j i => mget [[1; 0; 2]; [3; 0; 4]] i j)
  /\ log_mean_density [[1; 0; 2]; [3; 0; 4]]
     = np_log (sum_upto 3 (sample_product [[1; 0; 2]; [3; 0; 4]] 2) / INR 3).
Proof.
  destruct (log_mean_density_is_log_of_mean_product (param:=R) demo_lib
              [[1; 0; 2]; [3; 0; 4]] 2 3) as (H1 & _ & H3 & _).
  - split; [reflexivity | repeat constructor].
  - lia.
  - lia.
  - repeat constructor; lra.
  - split; [exact H1 | exact H3].
Defined.

(** The joint moments of the regression example over two steps. *)
Lemma regressors_ok_demo :
  regressors_ok demo_regression demo_regression_snapshot 2 demo_X.
Proof.
  split; [reflexivity |]. split; [repeat constructor |].
  intros _. exists [[2]; [3]]. split; [reflexivity |].
  intros [| [| i]] Hi; [now exists [2] | now exists [3] | lia].
Qed.

Lemma lambda_cov_diag_is_marginal_qt_demo :
  exists lambda_mu lambda_cov s',
    forecast_path_approx_moments demo_regression 2 demo_X demo_regression_state
    = (Ok (lambda_mu, lambda_cov), s') /\
    forall i, (1 <= i <= Z.to_nat 2)%nat ->
      exists ft qt si,
        forecast_state_mean_and_var demo_regression (Z.of_nat i)
          (row_regressors demo_X (i - 1)) demo_regression_state
        = (Ok (ft, qt), si) /\
        mget lambda_cov (i - 1) (i - 1) = qt /\
        vget lambda_mu (i - 1) = ft.
Proof.
  apply (lambda_cov_diag_is_marginal_qt demo_regression demo_regression_snapshot
           demo_X 2 demo_regression_state).
  - repeat split; reflexivity.
  - lia.
  - exact regressors_ok_demo.
Defined.


(** The scenario of section 8 of the specification: no diffusion, a constant
    mean and a joint covariance of ones over three steps. *)
Example forecast_path_approx_moments_demo :
  fst (forecast_path_approx_moments demo_model 3 None demo_state)
  = Ok ([0; 0; 0], [[1; 1; 1]; [1; 1; 1]; [1; 1; 1]]).
Proof.
  assert (Hsn : snapshot_at demo_model (heap demo_state) demo_snapshot)
    by (repeat split; reflexivity).
  assert (HX : regressors_ok demo_model demo_snapshot (Z.to_nat 3) None).
  { split; [reflexivity |]. split; [constructor |]. simpl. lia. }
  destruct (forecast_path_approx_moments_run demo_model demo_snapshot None 3
              demo_state Hsn ltac:(lia) HX) as (s' & ->).
  simpl fst. f_equal.
  unfold spec_lambda_mu, spec_lambda_cov, lambda_moments, lambda_cross, F_at,
    spec_a_k, spec_R_k.
  simpl. repeat progress (mat_compute; simpl).
  repeat f_equal; field.
Qed.

(** Two steps of one exact path on the same model. *)
Example forecast_path_demo :
  fst (forecast_path demo_model 2 None 1 demo_state) = Ok [[0; 0]].
Proof.
  unfold forecast_path. simpl. repeat progress (mat_compute; simpl).
  repeat f_equal; field.
Qed.

(** The multi-series density does not apply the missing-value mask to
    [mod_list]: with one observation of two missing and both models passed,
    the first model is matched to the moments of the second time index and
    the second model finds no margin left. *)
Example forecast_joint_approx_dens_MC_unmasked_models :
  fst (forecast_joint_approx_dens_MC demo_lib [demo_model; demo_double]
         [NaN; Fin 1] [0; 5] [[1; 0]; [0; 1]] false 9 1 demo_state)
  = Raise IndexError /\
  joint_conj_params [demo_model] [5] [[1]]
  = Ok [get_conjugate_params demo_model 5 1 1 1].
Proof. split; reflexivity. Qed.

(** * Concrete runs of the further properties *)

Lemma demo_drift_at :
  snapshot_at demo_drift (heap demo_drift_state) demo_drift_snapshot.
Proof. repeat split; reflexivity. Qed.

Lemma demo_drift_shape : snapshot_shape 2 demo_drift_snapshot.
Proof. repeat split; repeat constructor. Qed.

Lemma demo_regression_at :
  snapshot_at demo_regression (heap demo_regression_state) demo_regression_snapshot.
Proof. repeat split; reflexivity. Qed.

Lemma demo_regression_shape : snapshot_shape 2 demo_regression_snapshot.
Proof. repeat split; repeat constructor. Qed.

Lemma demo_regression_fits :
  regressor_fits demo_regression demo_regression_snapshot (Some [2]).
Proof.
  split; [reflexivity |]. split; [repeat constructor |].
  intros _. now exists [2].
Qed.

Lemma demo_regression_one_row :
  regressors_ok demo_regression demo_regression_snapshot 1 demo_X.
Proof.
  split; [reflexivity |]. split; [repeat constructor |].
  intros _. exists [[2]; [3]]. split; [reflexivity |].
  intros [| i] Hi; [now exists [2] | lia].
Qed.

Lemma demo_regression_simulates_one : simulates_one demo_regression.
Proof. intros p1 p2 g. now exists p1, (S g). Qed.

(** Two steps ahead of the drift example, and one step ahead of the same
    example one step later. *)
Lemma forecast_aR_composes_demo :
  exists la lR s' la1 lR1 s1' av Rv,
    forecast_aR demo_drift (1 + 1) demo_drift_state = (Ok (la, lR), s') /\
    forecast_aR demo_drift 1 demo_drift_evolved = (Ok (la1, lR1), s1') /\
    heap s' !! la = Some (NdVec av) /\ heap s1' !! la1 = Some (NdVec av) /\
    heap s' !! lR = Some (NdMat Rv) /\ heap s1' !! lR1 = Some (NdMat Rv).
Proof.
  apply (forecast_aR_composes demo_drift demo_drift demo_drift_state
           demo_drift_evolved demo_drift_snapshot 2 1).
  - exact demo_drift_at.
  - exact demo_drift_shape.
  - repeat split; reflexivity.
  - reflexivity.
  - reflexivity.
  - lia.
Defined.

Lemma negative_horizon_raises_demo :
  forecast_path demo_model (-1) None 2 demo_state = (Raise ValueError, demo_state) /\
  forecast_path_approx demo_lib demo_model (-1) None 2 false None 9 demo_state
  = (Raise ValueError, demo_state) /\
  forecast_path_normaldlm demo_lib demo_model (-1) None 2 demo_state
  = (Raise ValueError, demo_state).
Proof.
  apply (negative_horizon_raises demo_lib demo_model (-1) None 2 false None 9
           demo_state).
  lia.
Defined.


Lemma multivariate_t_density_symmetric_demo :
  multivariate_t_density demo_lib (reflect [0; 0] [1; 2]) [0; 0]
                         [[1; 0]; [0; 1]] 3
  = multivariate_t_density demo_lib [1; 2] [0; 0] [[1; 0]; [0; 1]] 3.
Proof.
  apply (multivariate_t_density_symmetric demo_lib [1; 2] [0; 0] [[1; 0]; [0; 1]] 3).
  reflexivity.
Defined.

Lemma multivariate_t_density_singular_demo :
  multivariate_t_density demo_lib [1; 2] [0; 0] [[1; 1]; [1; 1]] 3
  = Raise LinAlgError.
Proof.
  apply (proj1 (multivariate_t_density_singular demo_lib [1; 2] [0; 0]
                  [[1; 1]; [1; 1]] 3 ltac:(simpl; lia))).
  rewrite det_2x2. lra.
Defined.

(** One observation against two margins. *)
Lemma density_length_mismatch_raises_demo :
  forecast_path_approx_dens_MC demo_lib demo_model [Fin 1] [0; 0]
    [[1; 0]; [0; 1]] false 9 2 demo_state
  = (Raise IndexError, demo_state) /\
  forecast_joint_approx_dens_MC demo_lib [demo_model; demo_double] [Fin 1] [0; 0]
    [[1; 0]; [0; 1]] false 9 2 demo_state
  = (Raise IndexError, demo_state).
Proof.
  apply (density_length_mismatch_raises demo_lib demo_model
           [demo_model; demo_double] [Fin 1] [0; 0] [[1; 0]; [0; 1]] false 9 2
           demo_state).
  simpl. lia.
Defined.

(** The first of two observations missing. *)
Lemma density_drops_missing_demo :
  exists mu' cov',
    bool_index [0; 5] (not_missing [NaN; Fin 1]) = Ok mu' /\
    ix_index [[1; 0]; [0; 1]] (not_missing [NaN; Fin 1]) = Ok cov' /\
    forecast_path_approx_dens_MC demo_lib demo_model [NaN; Fin 1] [0; 5]
      [[1; 0]; [0; 1]] false 9 2 demo_state
    = forecast_path_approx_dens_MC demo_lib demo_model
        (compress (not_missing [NaN; Fin 1]) [NaN; Fin 1]) mu' cov' false 9 2
        demo_state /\
    forecast_joint_approx_dens_MC demo_lib [demo_model] [NaN; Fin 1] [0; 5]
      [[1; 0]; [0; 1]] false 9 2 demo_state
    = forecast_joint_approx_dens_MC demo_lib [demo_model]
        (compress (not_missing [NaN; Fin 1]) [NaN; Fin 1]) mu' cov' false 9 2
        demo_state.
Proof.
  apply (density_drops_missing demo_lib demo_model [demo_model] [NaN; Fin 1]
           [0; 5] [[1; 0]; [0; 1]] false 9 2 demo_state).
  - reflexivity.
  - split; [reflexivity | repeat constructor].
Defined.

(** The marginal forecasts of the regression example with the regressor 2. *)
Lemma forecast_state_mean_and_var_closed_form_demo :
  forecast_state_mean_and_var demo_regression 2 (Some [2]) demo_regression_state
  = (Ok (get_mean_and_var demo_regression
           (F_with demo_regression demo_regression_snapshot (Some [2]))
           (spec_a_k demo_regression_snapshot 2)
           (spec_R_k demo_regression_snapshot
                     (discount_forecast demo_regression) 2)),
     mkState (heap demo_regression_state
                ++ [NdVec (F_with demo_regression demo_regression_snapshot (Some [2]));
                    NdVec (spec_a_k demo_regression_snapshot 2);
                    NdMat (spec_R_k demo_regression_snapshot
                                    (discount_forecast demo_regression) 2)])
             (gen demo_regression_state)).
Proof.
  apply (forecast_state_mean_and_var_closed_form demo_regression
           demo_regression_snapshot (Some [2]) 2 demo_regression_state).
  - exact demo_regression_at.
  - exact demo_regression_fits.
  - lia.
Defined.

Lemma forecast_marginal_closed_form_demo :
  let p := marginal_params demo_regression demo_regression_snapshot (Some [2]) 2 in
  (exists s',
     forecast_marginal demo_regression 2 (Some [2]) 3 true false
                       demo_regression_state
     = (Ok (MeanOnly (get_mean demo_regression (fst p) (snd p))), s') /\
     gen s' = gen demo_regression_state) /\
  (exists s',
     forecast_marginal demo_regression 2 (Some [2]) 3 false false
                       demo_regression_state
     = (Ok (Samples (fst (simulate demo_regression (fst p) (snd p) 3
                                   (gen demo_regression_state)))), s') /\
     gen s' = snd (simulate demo_regression (fst p) (snd p) 3
                            (gen demo_regression_state))).
Proof.
  apply (forecast_marginal_closed_form demo_regression demo_regression_snapshot
           (Some [2]) 2 3 demo_regression_state).
  - exact demo_regression_at.
  - exact demo_regression_fits.
  - lia.
Defined.

Lemma forecast_marginal_bindglm_closed_form_demo :
  let p := marginal_params demo_regression demo_regression_snapshot (Some [2]) 2 in
  (exists s',
     forecast_marginal_bindglm demo_regression 10 2 (Some [2]) 3 true
                               demo_regression_state
     = (Ok (MeanOnly (bin_get_mean demo_regression 10 (fst p) (snd p))), s') /\
     gen s' = gen demo_regression_state) /\
  (exists s',
     forecast_marginal_bindglm demo_regression 10 2 (Some [2]) 3 false
                               demo_regression_state
     = (Ok (Samples (fst (bin_simulate demo_regression 10 (fst p) (snd p) 3
                                       (gen demo_regression_state)))), s') /\
     gen s' = snd (bin_simulate demo_regression 10 (fst p) (snd p) 3
                                (gen demo_regression_state))).
Proof.
  apply (forecast_marginal_bindglm_closed_form demo_regression
           demo_regression_snapshot (Some [2]) 10 2 3 demo_regression_state).
  - exact demo_regression_at.
  - exact demo_regression_fits.
  - lia.
Defined.

Lemma forecast_marginal_dens_MC_closed_form_demo :
  let p := marginal_params demo_regression demo_regression_snapshot (Some [2]) 2 in
  let prior_samps :=
    simulate_from_prior demo_regression (fst p) (snd p) 3
                        (gen demo_regression_state) in
  let dens := sampling_density demo_regression (Fin 1) (fst prior_samps) in
  exists s',
    forecast_marginal_dens_MC demo_regression 2 (Some [2]) 3 (Fin 1)
                              demo_regression_state
    = (Ok match dens with
          | [] => NaN
          | _ :: _ => np_log (fold_right Rplus 0 dens / INR (length dens))
          end, s') /\
    gen s' = snd prior_samps.
Proof.
  apply (forecast_marginal_dens_MC_closed_form demo_regression
           demo_regression_snapshot (Some [2]) 2 3 (Fin 1) demo_regression_state).
  - exact demo_regression_at.
  - exact demo_regression_fits.
  - lia.
Defined.

(** The one-dimensional example has no regression term. *)
Lemma regressors_ignored_without_regression_demo :
  forecast_marginal demo_model 1 (Some [5]) 1 false false demo_state
  = forecast_marginal demo_model 1 None 1 false false demo_state /\
  forecast_state_mean_and_var demo_model 1 (Some [5]) demo_state
  = forecast_state_mean_and_var demo_model 1 None demo_state /\
  forecast_marginal_bindglm demo_model 10 1 (Some [5]) 1 false demo_state
  = forecast_marginal_bindglm demo_model 10 1 None 1 false demo_state /\
  forecast_marginal_dens_MC demo_model 1 (Some [5]) 1 (Fin 1) demo_state
  = forecast_marginal_dens_MC demo_model 1 None 1 (Fin 1) demo_state /\
  forecast_path demo_model 1 (Some [[5]]) 1 demo_state
  = forecast_path demo_model 1 None 1 demo_state /\
  forecast_path_approx demo_lib demo_model 1 (Some [[5]]) 1 false None 9 demo_state
  = forecast_path_approx demo_lib demo_model 1 None 1 false None 9 demo_state /\
  forecast_path_normaldlm demo_lib demo_model 1 (Some [[5]]) 1 demo_state
  = forecast_path_normaldlm demo_lib demo_model 1 None 1 demo_state.
Proof.
  apply (regressors_ignored_without_regression demo_lib demo_model 1 (Some [5])
           None (Some [[5]]) None 1 false false 10 (Fin 1) false None 9 demo_state).
  reflexivity.
Defined.

(** The regression example without its regressors. *)
Lemma missing_regressors_raise_demo :
  fst (forecast_marginal demo_regression 1 None 1 false false
                         demo_regression_state)
  = Raise AttributeError /\
  fst (forecast_state_mean_and_var demo_regression 1 None demo_regression_state)
  = Raise AttributeError /\
  fst (forecast_marginal_bindglm demo_regression 10 1 None 1 false
                                 demo_regression_state)
  = Raise AttributeError /\
  fst (forecast_marginal_dens_MC demo_regression 1 None 1 (Fin 1)
                                 demo_regression_state)
  = Raise AttributeError /\
  ((1 <= 1)%Z -> (0 < 1)%nat ->
   fst (forecast_path demo_regression 1 None 1 demo_regression_state)
   = Raise TypeError) /\
  ((1 <= 1)%Z ->
   fst (forecast_path_approx demo_lib demo_regression 1 None 1 false None 9
                             demo_regression_state)
   = Raise TypeError).
Proof.
  apply (missing_regressors_raise demo_lib demo_regression
           demo_regression_snapshot 1 1 false false 10 (Fin 1) false None 9
           demo_regression_state).
  - exact demo_regression_at.
  - simpl. lia.
Defined.

(** Two regressors where the model has one. *)
Lemma wrong_size_regressors_raise_demo :
  fst (forecast_marginal demo_regression 1 (Some [2; 3]) 1 false false
                         demo_regression_state)
  = Raise ValueError /\
  fst (forecast_path demo_regression 1 (Some [[2; 3]]) 1 demo_regression_state)
  = Raise ValueError.
Proof.
  destruct (wrong_size_regressors_raise demo_lib demo_regression
              demo_regression_snapshot 1 [2; 3] [[2; 3]] [2; 3] 1 false false 10
              (Fin 1) false None 9 demo_regression_state demo_regression_at
              ltac:(simpl; lia)) as [Hx HA].
  split.
  - apply Hx. simpl. lia.
  - apply HA; [reflexivity | simpl; lia | lia | lia].
Defined.

(** Horizon 0 with the singular [G = [[0]]]. *)
Lemma marginal_forecasters_raise_LinAlgError_demo :
  fst (forecast_marginal demo_model 0 None 1 false false demo_singular_state)
  = Raise LinAlgError /\
  fst (forecast_state_mean_and_var demo_model 0 None demo_singular_state)
  = Raise LinAlgError /\
  fst (forecast_marginal_bindglm demo_model 10 0 None 1 false demo_singular_state)
  = Raise LinAlgError /\
  fst (forecast_marginal_dens_MC demo_model 0 None 1 (Fin 1) demo_singular_state)
  = Raise LinAlgError.
Proof.
  apply (marginal_forecasters_raise_LinAlgError demo_model demo_singular_snapshot
           None 0 1 false false 10 (Fin 1) demo_singular_state).
  - repeat split; reflexivity.
  - split; [reflexivity |]. split; [constructor |]. simpl. lia.
  - lia.
  - apply det_1x1.
Defined.

(** No step of the regression example, with no regressors given. *)
Lemma forecast_path_zero_steps_demo :
  exists s',
    forecast_path demo_regression 0 None 2 demo_regression_state
    = (Ok (replicate 2 []), s') /\
    gen s' = gen demo_regression_state.
Proof.
  apply (forecast_path_zero_steps demo_regression demo_regression_snapshot None 2
           demo_regression_state).
  exact demo_regression_at.
Defined.

(** One step of one path of the regression example. *)
Lemma forecast_path_one_step_is_marginal_demo :
  exists s1 s2,
    forecast_marginal demo_regression 1 (row_regressors demo_X 0) 1 false false
                      demo_regression_state
    = (Ok (Samples
             [fst (marginal_params demo_regression demo_regression_snapshot
                     (row_regressors demo_X 0) 1)]), s1) /\
    forecast_path demo_regression 1 demo_X 1 demo_regression_state
    = (Ok [[fst (marginal_params demo_regression demo_regression_snapshot
                   (row_regressors demo_X 0) 1)]], s2) /\
    gen s1 = 1%nat /\ gen s2 = 1%nat.
Proof.
  apply (forecast_path_one_step_is_marginal demo_regression
           demo_regression_snapshot 2 demo_X demo_regression_state).
  - exact demo_regression_at.
  - exact demo_regression_shape.
  - exact demo_regression_one_row.
  - reflexivity.
Defined.

(** Three models for two margins. *)
Lemma joint_sim_model_count_demo :
  forecast_joint_approx_sim demo_lib [demo_model; demo_double; demo_model]
    [0; 0] [[1; 0]; [0; 1]] 1 false 9 demo_state
  = (Raise IndexError, snd (joint_draw demo_lib [0; 0] [[1; 0]; [0; 1]] 1 false 9
                                       demo_state)).
Proof.
  apply (proj2 (joint_sim_model_count demo_lib
                  [demo_model; demo_double; demo_model] [0; 0] [[1; 0]; [0; 1]]
                  1 false 9 demo_state _ _ _ eq_refl)).
  simpl. lia.
Defined.

(** Two copies of the example family on two margins. *)
Lemma joint_of_one_model_is_path_demo :
  forecast_joint_approx_sim demo_lib (replicate 2 demo_model) [0; 0]
    [[1; 0]; [0; 1]] 1 false 9 demo_state
  = forecast_path_approx_sim demo_lib demo_model 2 [0; 0] [[1; 0]; [0; 1]] 1
                             false 9 demo_state.
Proof.
  apply (proj1 (joint_of_one_model_is_path demo_lib demo_model 2 [0; 0]
                  [[1; 0]; [0; 1]] 1 false 9 2 demo_state eq_refl
                  ltac:(split; [reflexivity | repeat constructor]))).
Defined.

(** The regression example over two steps. *)
Lemma forecast_path_approx_dispatch_demo :
  exists lambda_mu lambda_cov s1,
    forecast_path_approx_moments demo_regression 2 demo_X demo_regression_state
    = (Ok (lambda_mu, lambda_cov), s1) /\
    gen s1 = gen demo_regression_state /\
    forecast_path_approx demo_lib demo_regression 2 demo_X 1 false None 9
                         demo_regression_state
    = match forecast_path_approx_sim demo_lib demo_regression 2 lambda_mu
              lambda_cov 1 false 9 s1 with
      | (Ok samps, s2) => (Ok (SamplePaths samps), s2)
      | (Raise e, s2) => (Raise e, s2)
      end /\
    forall y,
      forecast_path_approx demo_lib demo_regression 2 demo_X 1 false (Some y) 9
                           demo_regression_state
      = match forecast_path_approx_dens_MC demo_lib demo_regression y lambda_mu
                lambda_cov false 9 1 s1 with
        | (Ok d, s2) => (Ok (LogDensity d), s2)
        | (Raise e, s2) => (Raise e, s2)
        end.
Proof.
  apply (forecast_path_approx_dispatch demo_lib demo_regression
           demo_regression_snapshot demo_X 2 1 false 9 demo_regression_state).
  - exact demo_regression_at.
  - lia.
  - exact regressors_ok_demo.
Defined.

Lemma forecast_path_returns_demo :
  exists samps s',
    forecast_path demo_regression 2 demo_X 3 demo_regression_state
    = (Ok samps, s') /\
    is_mat 3 (Z.to_nat 2) samps.
Proof.
  apply (forecast_path_returns demo_regression demo_regression_snapshot demo_X 2 3
           demo_regression_state).
  - exact demo_regression_at.
  - lia.
  - exact regressors_ok_demo.
  - exact demo_regression_simulates_one.
Defined.





